(** * Sudoku board and depth-first solver (a5.py)

    A shallow embedding of [Board] and [DFS] from [a5.py].

    The development has two layers.

    - The value layer ([Board], [update], [DFS_loop], ...) follows the
      Python text statement by statement, with the in-place mutation of
      [self.rows] written as state passing.  Python integers are [Z],
      list subscripts follow Python's rules (negative subscripts count
      from the end, anything else out of range raises [IndexError]).
    - The store layer (module [Store]) keeps the Python objects in a
      heap of list and [Board] objects addressed by references, so that
      [copy.deepcopy], aliasing and in-place mutation can be stated. *)

From stdpp Require Import base numbers option list sorting.

Local Open Scope Z_scope.

(** ** Exceptions and the error monad *)

(** [StoreError] is no exception of Python: in the store layer it
    stands for a reference that leads to no object of the class the
    statement needs, which no Python program can build. *)
Inductive exn : Type :=
  | IndexError
  | TypeError
  | StoreError.

Inductive result (A : Type) : Type :=
  | Ok (a : A)
  | Raise (e : exn).
Arguments Ok {A} a.
Arguments Raise {A} e.

Global Instance result_ret : MRet result := λ A a, Ok a.
Global Instance result_bind : MBind result := λ A B f m,
  match m with
  | Ok a => f a
  | Raise e => Raise e
  end.

(** [for x in xs: body], with the loop-carried state made explicit. *)
Fixpoint for_each {A S : Type} (xs : list A) (body : A → S → result S)
    (s : S) : result S :=
  match xs with
  | [] => Ok s
  | x :: xs' => s' ← body x s; for_each xs' body s'
  end.

(** ** Python list subscripts *)

(** The position a subscript [i] denotes in a list of length [len]. *)
Definition index_of (len : nat) (i : Z) : result nat :=
  if decide (0 ≤ i < Z.of_nat len) then Ok (Z.to_nat i)
  else if decide (- Z.of_nat len ≤ i < 0) then Ok (Z.to_nat (Z.of_nat len + i))
  else Raise IndexError.

(** [l[i]] *)
Definition getitem {A : Type} (l : list A) (i : Z) : result A :=
  k ← index_of (length l) i;
  match l !! k with
  | Some x => Ok x
  | None => Raise IndexError
  end.

(** [l[i] = x] *)
Definition setitem {A : Type} (l : list A) (i : Z) (x : A) : result (list A) :=
  k ← index_of (length l) i;
  Ok (<[k := x]> l).

(** [range(n)] *)
Definition range (n : Z) : list Z := seqZ 0 n.

(** [lst.remove(elem)] for an element known to occur: the first
    occurrence goes, the others stay. *)
Fixpoint remove_first (elem : Z) (lst : list Z) : list Z :=
  match lst with
  | [] => []
  | x :: lst' => if decide (x = elem) then lst' else x :: remove_first elem lst'
  end.

(** ** Cells and boards *)

(** A cell is either the assigned number or the list of numbers that
    remain possible ([Any] in the Python type hints). *)
Inductive cell : Type :=
  | Fixed (v : Z)
  | Cands (l : list Z).

Global Instance cell_eq_dec : EqDecision cell.
Proof. solve_decision. Defined.

(** [isinstance(lst, list) and elem in lst] guards [lst.remove(elem)]. *)
Definition remove_if_exists (lst : cell) (elem : Z) : cell :=
  match lst with
  | Cands l => if decide (elem ∈ l) then Cands (remove_first elem l) else lst
  | Fixed _ => lst
  end.

Record Board : Type := mkBoard {
  size : Z;
  num_nums_placed : Z;
  rows : list (list cell)
}.

Global Instance Board_eq_dec : EqDecision Board.
Proof. solve_decision. Defined.

(** [Board.__init__] *)
Definition Board_init : Board :=
  let size := 9 in
  mkBoard size 0
    (replicate (Z.to_nat size) (replicate (Z.to_nat size) (Cands (seqZ 1 9)))).

(** Truth value of a cell, as [if not cell] reads it: an empty list and
    the number 0 are false. *)
Definition truthy (c : cell) : bool :=
  match c with
  | Fixed v => negb (v =? 0)
  | Cands l => negb (bool_decide (l = []))
  end.

(** [self.rows[i][j]] *)
Definition get_cell (b : Board) (i j : Z) : result cell :=
  rw ← getitem (rows b) i;
  getitem rw j.

(** [Board.subgrid_coordinates] *)
Definition subgrids : list (list Z) := [[0; 1; 2]; [3; 4; 5]; [6; 7; 8]].

Definition subgrid_coordinates (row col : Z) : result (list (Z * Z)) :=
  cs ← getitem subgrids (col / 3);
  for_each cs (λ c acc,
    rs ← getitem subgrids (row / 3);
    Ok (acc ++ ((λ r, (r, c)) <$> rs))) [].

(** [Board.find_most_constrained_cell]; the loop state is
    [(mini, row, col)]. *)
Definition mcc_visit (b : Board) (i j : Z) (st : Z * Z * Z) : result (Z * Z * Z) :=
  let '(mini, row, col) := st in
  c ← get_cell b i j;
  match c with
  | Cands l => if decide (Z.of_nat (length l) < mini) then Ok (Z.of_nat (length l), i, j)
               else Ok st
  | Fixed _ => Ok st
  end.

Definition find_most_constrained_cell (b : Board) : result (Z * Z) :=
  st ← for_each (range (size b)) (λ i st,
          for_each (range (size b)) (λ j st, mcc_visit b i j st) st)
        (size b, 0, 0);
  let '(_, row, col) := st in Ok (row, col).

(** [Board.failure_test] *)
Definition failure_test (b : Board) : bool :=
  existsb (λ row, existsb (λ c, negb (truthy c)) row) (rows b).

(** [Board.goal_test] *)
Definition goal_test (b : Board) : bool :=
  bool_decide (num_nums_placed b = size b * size b).

(** [remove_if_exists(self.rows[i][j], elem)]: the list object in the
    cell is changed in place. *)
Definition remove_at (i j elem : Z) (b : Board) : result Board :=
  rw ← getitem (rows b) i;
  c ← getitem rw j;
  rw' ← setitem rw j (remove_if_exists c elem);
  rows' ← setitem (rows b) i rw';
  Ok (mkBoard (size b) (num_nums_placed b) rows').

(** [Board.update] *)
Definition update (b : Board) (row column assignment : Z) : result Board :=
  rw ← getitem (rows b) row;
  rw' ← setitem rw column (Fixed assignment);
  rows' ← setitem (rows b) row rw';
  let b1 := mkBoard (size b) (num_nums_placed b + 1) rows' in
  b2 ← for_each (range (size b1)) (λ i b,
          b' ← remove_at row i assignment b;
          remove_at i column assignment b') b1;
  coords ← subgrid_coordinates row column;
  for_each coords (λ '(i, j) b, remove_at i j assignment b) b2.

(** ** Depth-first search *)

(** On values a deep copy is the value itself; what [copy.deepcopy]
    does to the objects of the heap is the subject of [Store]. *)
Definition deepcopy (b : Board) : Board := b.

(** Modelled from the spec: the [Stack] class of [stack_and_queue] is not
    among the sources.  The specification (section 6) asks for a LIFO
    container with push, pop-most-recent and empty-check: a list whose
    head is the most recently pushed entry. *)
Definition Stack : Type := list Board.
Definition Stack_new (items : list Board) : Stack := rev items.
Definition is_empty (s : Stack) : bool := bool_decide (s = []).
Definition push (x : Board) (s : Stack) : Stack := x :: s.
Definition pop (s : Stack) : option (Board * Stack) :=
  match s with
  | [] => None
  | x :: s' => Some (x, s')
  end.

(** The [for pos in possibilities] loop of [DFS]: one copy of [curr] per
    possibility, updated and pushed; the loop state is [(stack, count)]. *)
Definition branch (curr : Board) (row col : Z) (pos : Z) (st : Stack * Z) :
    result (Stack * Z) :=
  let '(stack, count) := st in
  let cpy := deepcopy curr in
  cpy ← update cpy row col pos;
  Ok (push cpy stack, count + 1).

Definition expand (curr : Board) (st : Stack * Z) : result (Stack * Z) :=
  '(row, col) ← find_most_constrained_cell curr;
  possibilities ← get_cell curr row col;
  match possibilities with
  | Cands l => for_each l (branch curr row col) st
  | Fixed _ => Raise TypeError (* 'int' object is not iterable *)
  end.

(** One evaluation of the [while] test and of the loop body. *)
Inductive step : Type :=
  | Continue (stack : Stack) (count : Z)
  | Return (r : option Board) (count : Z)
  | Throw (e : exn).

Definition DFS_iter (stack : Stack) (count : Z) : step :=
  if is_empty stack then Return None count
  else match pop stack with
  | None => Throw IndexError
  | Some (curr, stack) =>
      if goal_test curr then Return (Some curr) count
      else if negb (failure_test curr) then
        match expand curr (stack, count) with
        | Ok (stack, count) => Continue stack count
        | Raise e => Throw e
        end
      else Continue stack count
  end.

(** What a call of [DFS] comes to: a returned value ([None] is
    [Returned None]) together with the final [count], an exception, or
    a loop still running when the fuel is used up. *)
Inductive outcome : Type :=
  | Returned (r : option Board) (count : Z)
  | Raised (e : exn)
  | OutOfFuel.

Fixpoint DFS_loop (fuel : nat) (stack : Stack) (count : Z) : outcome :=
  match fuel with
  | O => OutOfFuel
  | S fuel =>
      match DFS_iter stack count with
      | Continue stack count => DFS_loop fuel stack count
      | Return r count => Returned r count
      | Throw e => Raised e
      end
  end.

Definition DFS (fuel : nat) (state : Board) : outcome :=
  DFS_loop fuel (Stack_new [state]) 0.

(** ** Vocabulary of the statements *)

(** The cell in row [i], column [j], counted from 0. *)
Definition cell_at (b : Board) (i j : nat) : option cell :=
  rw ← rows b !! i; rw !! j.

(** A 9x9 grid with [size] 9. *)
Definition grid9 (b : Board) : Prop :=
  size b = 9 ∧ length (rows b) = 9%nat ∧ Forall (λ rw, length rw = 9%nat) (rows b).

(** The board with [f] applied to the cell at [(i, j)]. *)
Definition map_cell (f : cell → cell) (i j : nat) (b : Board) : Board :=
  mkBoard (size b) (num_nums_placed b) (alter (alter f j) i (rows b)).

(** The cells [update] passes to [remove_if_exists], in the order of the
    two loops: row and column interleaved, then the subgrid. *)
Definition line_cells (r c : nat) : list (nat * nat) :=
  i ← seq 0 9; [(r, i); (i, c)].

Definition band (k : nat) : list nat :=
  let m := (3 * (k / 3))%nat in [m; S m; S (S m)].

Definition box_cells (r c : nat) : list (nat * nat) :=
  j ← band c; i ← band r; [(i, j)].

Definition visits (r c : nat) : list (nat * nat) :=
  line_cells r c ++ box_cells r c.

(** How often [update(r, c, _)] passes the cell [(i, j)]. *)
Definition visit_count (r c i j : nat) : nat :=
  length (filter (λ p, p = (i, j)) (visits r c)).

(** [(i, j)] is in row [r], in column [c] or in the subgrid of [(r, c)]. *)
Definition peer (r c i j : nat) : Prop :=
  i = r ∨ j = c ∨ ((i / 3)%nat = (r / 3)%nat ∧ (j / 3)%nat = (c / 3)%nat).

Global Instance peer_dec r c i j : Decision (peer r c i j).
Proof. unfold peer. apply _. Defined.

(** [remove_if_exists] at each cell of [ps] in turn. *)
Definition strip_all (v : Z) (ps : list (nat * nat)) (b : Board) : Board :=
  foldl (λ b p, map_cell (λ c, remove_if_exists c v) p.1 p.2 b) b ps.

(** The first two statements of [update]. *)
Definition place (r c : nat) (v : Z) (b : Board) : Board :=
  mkBoard (size b) (num_nums_placed b + 1) (alter (alter (λ _, Fixed v) c) r (rows b)).

(** [elem in lst] guarding [lst.remove(elem)], on the list itself. *)
Definition discard (v : Z) (l : list Z) : list Z :=
  if decide (v ∈ l) then remove_first v l else l.

(** The board [update(r, c, v)] leaves behind on a 9x9 grid. *)
Definition updated (r c : nat) (v : Z) (b : Board) : Board :=
  strip_all v (visits r c) (place r c v b).

(** Properties of every cell, of every candidate list, of every
    assigned number. *)
Definition all_cells (P : cell → Prop) (b : Board) : Prop :=
  Forall (Forall P) (rows b).

Definition on_cands (P : list Z → Prop) (c : cell) : Prop :=
  match c with
  | Cands l => P l
  | Fixed _ => True
  end.

Definition on_fixed (P : Z → Prop) (c : cell) : Prop :=
  match c with
  | Fixed v => P v
  | Cands _ => True
  end.

Global Instance on_cands_dec P `{∀ l, Decision (P l)} c : Decision (on_cands P c).
Proof. destruct c; simpl; apply _. Defined.

Global Instance on_fixed_dec P `{∀ v, Decision (P v)} c : Decision (on_fixed P c).
Proof. destruct c; simpl; apply _. Defined.

Global Instance all_cells_dec P `{∀ c, Decision (P c)} b : Decision (all_cells P b).
Proof. unfold all_cells. apply _. Defined.

(** No candidate list holds a number twice. *)
Definition distinct_cands (b : Board) : Prop := all_cells (on_cands NoDup) b.

(** The data model of the specification: a candidate list stands for a
    set of numbers from 1 to 9 and enumerates it in ascending order; an
    assigned number is from 1 to 9; no candidate list names a number
    assigned in its row, column or subgrid. *)
Definition digit (x : Z) : Prop := 1 ≤ x ≤ 9.

Definition cands_wf (l : list Z) : Prop :=
  StronglySorted Z.lt l ∧ Forall digit l.

(** All coordinates, in the order of the two nested [range] loops. *)
Definition cells_rm : list (nat * nat) :=
  i ← seq 0 9; j ← seq 0 9; [(i, j)].

Definition no_clash_at (b : Board) (p q : nat * nat) : Prop :=
  match cell_at b p.1 p.2, cell_at b q.1 q.2 with
  | Some (Fixed v), Some (Cands l) => peer p.1 p.2 q.1 q.2 → v ∉ l
  | _, _ => True
  end.

Definition no_clash (b : Board) : Prop :=
  Forall (λ p, Forall (no_clash_at b p) cells_rm) cells_rm.

Definition board_inv (b : Board) : Prop :=
  grid9 b ∧ all_cells (on_cands cands_wf) b ∧ all_cells (on_fixed digit) b ∧
  no_clash b.

Global Instance digit_dec x : Decision (digit x).
Proof. unfold digit. apply _. Defined.

Global Instance cands_wf_dec l : Decision (cands_wf l).
Proof. unfold cands_wf. apply _. Defined.

Global Instance no_clash_at_dec b p q : Decision (no_clash_at b p q).
Proof.
  unfold no_clash_at.
  destruct (cell_at b p.1 p.2) as [[v|l]|]; try apply _.
  destruct (cell_at b q.1 q.2) as [[v'|l']|]; apply _.
Defined.

Global Instance grid9_dec b : Decision (grid9 b).
Proof. unfold grid9. apply _. Defined.

Global Instance board_inv_dec b : Decision (board_inv b).
Proof. unfold board_inv, no_clash. apply _. Defined.

(** The same relation on the integer coordinates of the Python code. *)
Definition peerZ (r c i j : Z) : Prop :=
  i = r ∨ j = c ∨ (i / 3 = r / 3 ∧ j / 3 = c / 3).

(** The two nested loops of [find_most_constrained_cell] as one pass over
    a list of coordinates. *)
Definition mcc_scan (b : Board) (ps : list (nat * nat)) (st : Z * Z * Z) :
    result (Z * Z * Z) :=
  for_each ((λ p, (Z.of_nat p.1, Z.of_nat p.2)) <$> ps)
    (λ '(i, j) st, mcc_visit b i j st) st.

(** The length of the candidate list at [p], when [p] holds one. *)
Definition len_at (b : Board) (p : nat * nat) : option nat :=
  match cell_at b p.1 p.2 with
  | Some (Cands l) => Some (length l)
  | _ => None
  end.

(** Row-major order: lower row first, then lower column. *)
Definition rm_lt (p q : nat * nat) : Prop :=
  (p.1 < q.1)%nat ∨ (p.1 = q.1 ∧ (p.2 < q.2)%nat).

Global Instance rm_lt_dec p q : Decision (rm_lt p q).
Proof. unfold rm_lt. apply _. Defined.

(** [not isinstance(cell, list)]: the cell holds an assigned number. *)
Definition is_fixed (c : cell) : Prop :=
  match c with
  | Fixed _ => True
  | Cands _ => False
  end.

Global Instance is_fixed_dec c : Decision (is_fixed c).
Proof. destruct c; simpl; apply _. Defined.

(** The number of cells of the grid that hold an assigned number. *)
Definition fixed_count (b : Board) : Z :=
  Z.of_nat (length (filter is_fixed (concat (rows b)))).

(** 1 when [P] holds, 0 when it does not. *)
Definition indicator (P : Prop) `{Decision P} : Z := if decide P then 1 else 0.

(** Boards built from a fresh one by [update] calls with coordinates from
    0 to 8. *)
Inductive reachable : Board → Prop :=
  | reachable_init : reachable Board_init
  | reachable_update b r c v b' :
      reachable b → 0 ≤ r < 9 → 0 ≤ c < 9 → update b r c v = Ok b' →
      reachable b'.

(** The same, when every call assigns a cell that still holds a
    candidate list. *)
Inductive seeded : Board → Prop :=
  | seeded_init : seeded Board_init
  | seeded_update b r c v l b' :
      seeded b → 0 ≤ r < 9 → 0 ≤ c < 9 → get_cell b r c = Ok (Cands l) →
      update b r c v = Ok b' → seeded b'.

(** The invariants the data model of the specification puts on a board:
    those of [board_inv], and [num_nums_placed] counting the assigned
    cells. *)
Definition board_ok (b : Board) : Prop :=
  board_inv b ∧ num_nums_placed b = fixed_count b.

Global Instance board_ok_dec b : Decision (board_ok b).
Proof. unfold board_ok. apply _. Defined.

(** The state after [n] more passes through the [while] loop, when none
    of them returns or raises. *)
Fixpoint DFS_run (n : nat) (stack : Stack) (count : Z) : option (Stack * Z) :=
  match n with
  | O => Some (stack, count)
  | S n =>
      match DFS_iter stack count with
      | Continue stack count => DFS_run n stack count
      | _ => None
      end
  end.

(** Two cells of row [r] hold the same assigned number [v]. *)
Definition row_twin (b : Board) (r c1 c2 : nat) (v : Z) : Prop :=
  c1 ≠ c2 ∧ cell_at b r c1 = Some (Fixed v) ∧ cell_at b r c2 = Some (Fixed v).

(** These two apart, no row and no column holds an assigned number
    twice. *)
Definition lines_differ_but (b : Board) (r c1 c2 : nat) : Prop :=
  ∀ i j i' j' w,
    cell_at b i j = Some (Fixed w) → cell_at b i' j' = Some (Fixed w) →
    i = i' ∨ j = j' →
    (i, j) = (i', j') ∨
    (i = r ∧ i' = r ∧ ((j = c1 ∧ j' = c2) ∨ (j = c2 ∧ j' = c1))).

(** What every board has that the search meets below two equal seeds in
    one row. *)
Definition doomed (b : Board) (r c1 c2 : nat) (v : Z) : Prop :=
  board_ok b ∧ row_twin b r c1 c2 v ∧ lines_differ_but b r c1 c2.

(** The cells of the board still to be assigned. *)
Definition todo (b : Board) : nat := Z.to_nat (81 - fixed_count b).

(** ** The store layer

    Python keeps a board as objects that refer to each other: the
    [Board] instance refers to the list [rows], that list to nine row
    lists, and a row list holds, per cell, either a number or a
    reference to the list of the cell's candidates.  Assignments and
    [list.remove] change these objects in place, and two references to
    one object see each other's changes.  [Store] models the objects in
    a heap, with the same methods written as heap transformers. *)
Module Store.

Abbreviation loc := nat.

(** What a row holds for a cell. *)
Inductive slot : Type :=
  | Num (v : Z)
  | Ref (l : loc).

(** The objects, by the classes the docstring of [Board] gives them:
    a list of numbers, a list of cells, the list of rows, and the
    [Board] instance with its attributes [size], [num_nums_placed]
    and [rows]. *)
Inductive obj : Type :=
  | OInts (items : list Z)
  | ORow (cells : list slot)
  | OGrid (rws : list loc)
  | OBoard (sz : Z) (placed : Z) (rws : loc)
  | ONew. (* an instance fresh from [__new__], its attributes not yet set *)

(** The heap: an object's address is its position, a new object goes
    to the end, and no object is ever freed. *)
Abbreviation heap := (list obj).

(** A computation on the heap.  A raised exception leaves the heap as
    the statements before it made it. *)
Definition M (A : Type) : Type := heap → result A * heap.

Global Instance M_ret : MRet M := λ A a h, (Ok a, h).
Global Instance M_bind : MBind M := λ A B f m h,
  match m h with
  | (Ok a, h') => f a h'
  | (Raise e, h') => (Raise e, h')
  end.

Definition lift {A : Type} (r : result A) : M A := λ h, (r, h).
Definition raise {A : Type} (e : exn) : M A := λ h, (Raise e, h).

Definition alloc (o : obj) : M loc := λ h, (Ok (length h), h ++ [o]).

Definition load (l : loc) : M obj := λ h,
  match h !! l with
  | Some o => (Ok o, h)
  | None => (Raise StoreError, h)
  end.

Definition store (l : loc) (o : obj) : M unit := λ h, (Ok (), <[l := o]> h).

Definition load_ints (l : loc) : M (list Z) :=
  o ← load l; match o with OInts items => mret items | _ => raise StoreError end.
Definition load_row (l : loc) : M (list slot) :=
  o ← load l; match o with ORow cells => mret cells | _ => raise StoreError end.
Definition load_grid (l : loc) : M (list loc) :=
  o ← load l; match o with OGrid rws => mret rws | _ => raise StoreError end.
Definition load_board (l : loc) : M (Z * Z * loc) :=
  o ← load l;
  match o with
  | OBoard sz placed rws => mret (sz, placed, rws)
  | _ => raise StoreError
  end.

(** [for x in xs: body] *)
Fixpoint for_each {A S : Type} (xs : list A) (body : A → S → M S) (s : S) : M S :=
  match xs with
  | [] => mret s
  | x :: xs' => s' ← body x s; for_each xs' body s'
  end.

(** [remove_if_exists(lst, elem)] *)
Definition remove_if_exists (lst : slot) (elem : Z) : M unit :=
  match lst with
  | Ref l =>
      items ← load_ints l;
      if decide (elem ∈ items) then store l (OInts (remove_first elem items))
      else mret ()
  | Num _ => mret ()
  end.

(** [Board.__init__]: the candidate lists of a row, the row, and so on
    for nine rows; then the list of rows and the instance. *)
Definition new_row (size : Z) : M loc :=
  cells ← for_each (range size) (λ _ cells,
             l ← alloc (OInts (seqZ 1 9)); mret (cells ++ [Ref l])) [];
  alloc (ORow cells).

Definition Board_new : M loc :=
  let size := 9 in
  rws ← for_each (range size) (λ _ rws, l ← new_row size; mret (rws ++ [l])) [];
  g ← alloc (OGrid rws);
  alloc (OBoard size 0 g).

(** [self.rows[i]] and [self.rows[i][j]] *)
Definition get_row (self : loc) (i : Z) : M loc :=
  '(_, _, g) ← load_board self;
  rws ← load_grid g;
  lift (getitem rws i).

Definition get_cell (self : loc) (i j : Z) : M slot :=
  rl ← get_row self i;
  cells ← load_row rl;
  lift (getitem cells j).

Definition get_size (self : loc) : M Z :=
  '(sz, _, _) ← load_board self; mret sz.

(** [Board.find_most_constrained_cell] *)
Definition mcc_visit (self : loc) (i j : Z) (st : Z * Z * Z) : M (Z * Z * Z) :=
  let '(mini, row, col) := st in
  c ← get_cell self i j;
  match c with
  | Ref l =>
      items ← load_ints l;
      if decide (Z.of_nat (length items) < mini)
      then mret (Z.of_nat (length items), i, j)
      else mret st
  | Num _ => mret st
  end.

Definition find_most_constrained_cell (self : loc) : M (Z * Z) :=
  size ← get_size self;
  st ← for_each (range size) (λ i st,
          for_each (range size) (λ j st, mcc_visit self i j st) st)
        (size, 0, 0);
  let '(_, row, col) := st in mret (row, col).

(** [not cell] *)
Definition falsy (c : slot) : M bool :=
  match c with
  | Num v => mret (v =? 0)
  | Ref l => items ← load_ints l; mret (bool_decide (items = []))
  end.

(** [Board.failure_test]; the loop state is the value to return, once
    found. *)
Definition failure_test (self : loc) : M bool :=
  '(_, _, g) ← load_board self;
  rws ← load_grid g;
  for_each rws (λ rl found,
    if found : bool then mret true
    else
      cells ← load_row rl;
      for_each cells (λ c found,
        if found : bool then mret true else falsy c) false) false.

(** [Board.goal_test] *)
Definition goal_test (self : loc) : M bool :=
  '(sz, placed, _) ← load_board self;
  mret (bool_decide (placed = sz * sz)).

(** [remove_if_exists(self.rows[i][j], elem)] *)
Definition remove_at (self : loc) (i j elem : Z) : M unit :=
  c ← get_cell self i j;
  remove_if_exists c elem.

(** [Board.update] *)
Definition update (self : loc) (row column assignment : Z) : M unit :=
  rl ← get_row self row;
  cells ← load_row rl;
  cells' ← lift (setitem cells column (Num assignment));
  _ ← store rl (ORow cells');
  '(sz, placed, g) ← load_board self;
  _ ← store self (OBoard sz (placed + 1) g);
  size ← get_size self;
  _ ← for_each (range size) (λ i _,
        _ ← remove_at self row i assignment;
        remove_at self i column assignment) ();
  coords ← lift (subgrid_coordinates row column);
  for_each coords (λ '(i, j) _, remove_at self i j assignment) ().

(** ** [copy.deepcopy]

    The copy of an object is a new object; [memo] records, per object
    already met, its copy, so that an object reached twice is copied
    once.  Numbers are copied as themselves. *)
Abbreviation memo := (list (loc * loc)).

Fixpoint copied (m : memo) (l : loc) : option loc :=
  match m with
  | [] => None
  | (k, l') :: m' => if decide (k = l) then Some l' else copied m' l
  end.

Definition copy_ints (l : loc) (m : memo) : M (loc * memo) :=
  match copied m l with
  | Some l' => mret (l', m)
  | None =>
      items ← load_ints l;
      l' ← alloc (OInts items);
      mret (l', (l, l') :: m)
  end.

Definition copy_slot (c : slot) (m : memo) : M (slot * memo) :=
  match c with
  | Num v => mret (Num v, m)
  | Ref l => '(l', m) ← copy_ints l m; mret (Ref l', m)
  end.

Definition copy_row (l : loc) (m : memo) : M (loc * memo) :=
  match copied m l with
  | Some l' => mret (l', m)
  | None =>
      cells ← load_row l;
      l' ← alloc (ORow []);
      '(cells', m) ← for_each cells (λ c '(cells', m),
                       '(c', m) ← copy_slot c m; mret (cells' ++ [c'], m))
                     ([], (l, l') :: m);
      _ ← store l' (ORow cells');
      mret (l', m)
  end.

Definition copy_grid (l : loc) (m : memo) : M (loc * memo) :=
  match copied m l with
  | Some l' => mret (l', m)
  | None =>
      rws ← load_grid l;
      l' ← alloc (OGrid []);
      '(rws', m) ← for_each rws (λ rl '(rws', m),
                     '(rl', m) ← copy_row rl m; mret (rws' ++ [rl'], m))
                   ([], (l, l') :: m);
      _ ← store l' (OGrid rws');
      mret (l', m)
  end.

(** A new list is filled by [append] as its elements are copied; the
    list is written here once they all are, nothing reading it
    before. *)
Definition deepcopy (self : loc) : M loc :=
  '(sz, placed, g) ← load_board self;
  self' ← alloc ONew;
  '(g', _) ← copy_grid g [(self, self')];
  _ ← store self' (OBoard sz placed g');
  mret self'.

(** ** [DFS] *)

(** Modelled from the spec: the [Stack] class of [stack_and_queue] is
    not among the sources; as on values, a LIFO container, here of
    references to boards.  It is local to [DFS] and no alias of it
    leaves the function, so it is kept as a value. *)
Abbreviation Stack := (list loc).

Definition branch (curr : loc) (row col : Z) (pos : Z) (st : Stack * Z) :
    M (Stack * Z) :=
  let '(stack, count) := st in
  cpy ← deepcopy curr;
  _ ← update cpy row col pos;
  mret (cpy :: stack, count + 1).

Definition expand (curr : loc) (st : Stack * Z) : M (Stack * Z) :=
  '(row, col) ← find_most_constrained_cell curr;
  possibilities ← get_cell curr row col;
  match possibilities with
  | Ref l => items ← load_ints l; for_each items (branch curr row col) st
  | Num _ => raise TypeError
  end.

Inductive step : Type :=
  | Continue (stack : Stack) (count : Z)
  | Return (r : option loc) (count : Z).

Definition DFS_iter (stack : Stack) (count : Z) : M step :=
  match stack with
  | [] => mret (Return None count)
  | curr :: stack =>
      goal ← goal_test curr;
      if goal : bool then mret (Return (Some curr) count)
      else
        failed ← failure_test curr;
        if negb failed then
          '(stack, count) ← expand curr (stack, count);
          mret (Continue stack count)
        else mret (Continue stack count)
  end.

Inductive outcome : Type :=
  | Returned (r : option loc) (count : Z)
  | Raised (e : exn)
  | OutOfFuel.

Fixpoint DFS_loop (fuel : nat) (stack : Stack) (count : Z) (h : heap) :
    outcome * heap :=
  match fuel with
  | O => (OutOfFuel, h)
  | S fuel =>
      match DFS_iter stack count h with
      | (Ok (Continue stack count), h) => DFS_loop fuel stack count h
      | (Ok (Return r count), h) => (Returned r count, h)
      | (Raise e, h) => (Raised e, h)
      end
  end.

Definition DFS (fuel : nat) (state : loc) (h : heap) : outcome * heap :=
  DFS_loop fuel [state] 0 h.

(** Calls of [update] on one board, one after the other, whatever
    each of them returns or raises. *)
Definition updates (self : loc) (calls : list (Z * Z * Z)) (h : heap) : heap :=
  foldl (λ h '(row, column, assignment), (update self row column assignment h).2)
    h calls.

(** ** Reading a board off the heap *)

Definition read_cell (h : heap) (c : slot) : option cell :=
  match c with
  | Num v => Some (Fixed v)
  | Ref l =>
      match h !! l with
      | Some (OInts items) => Some (Cands items)
      | _ => None
      end
  end.

Definition read_row (h : heap) (rl : loc) : option (list cell) :=
  match h !! rl with
  | Some (ORow cells) => mapM (read_cell h) cells
  | _ => None
  end.

(** The board, as a value, that the reference [self] stands for. *)
Definition snapshot (h : heap) (self : loc) : option Board :=
  match h !! self with
  | Some (OBoard sz placed g) =>
      match h !! g with
      | Some (OGrid rws) => mkBoard sz placed <$> mapM (read_row h) rws
      | _ => None
      end
  | _ => None
  end.

(** ** Vocabulary for the frame statements *)

(** [h'] has the objects of [h] and keeps those below [n] as they
    are. *)
Definition keeps (n : nat) (h h' : heap) : Prop :=
  (length h ≤ length h')%nat ∧ ∀ l, (l < n)%nat → h' !! l = h !! l.

Definition slot_above (n : nat) (c : slot) : Prop :=
  match c with
  | Num _ => True
  | Ref l => (n ≤ l)%nat
  end.

Definition obj_above (n : nat) (o : obj) : Prop :=
  match o with
  | OInts _ => True
  | ORow cells => Forall (slot_above n) cells
  | OGrid rws => Forall (λ l, n ≤ l)%nat rws
  | OBoard _ _ g => (n ≤ g)%nat
  | ONew => True
  end.

(** The objects from [n] on refer to objects from [n] on only. *)
Definition closed (n : nat) (h : heap) : Prop :=
  (n ≤ length h)%nat ∧ ∀ l o, (n ≤ l)%nat → h !! l = Some o → obj_above n o.

(** [m] keeps the heap closed from [n] on, leaves the objects below
    [n] alone, and returns values in [Q]. *)
Definition above (n : nat) {A : Type} (Q : A → Prop) (m : M A) : Prop :=
  ∀ h res h', closed n h → m h = (res, h') →
    closed n h' ∧ keeps n h h' ∧ ∀ a, res = Ok a → Q a.

Definition memo_above (n : nat) (m : memo) : Prop :=
  Forall (λ p, n ≤ p.2)%nat m.

End Store.

(** ** Sample boards *)

(** The solution [DFS] finds for the first game of [a5.py]. *)
Definition solved_rows : list (list Z) :=
  [[4; 7; 2; 6; 8; 3; 5; 1; 9];
   [3; 1; 9; 7; 5; 4; 2; 6; 8];
   [5; 6; 8; 9; 1; 2; 3; 4; 7];
   [1; 4; 3; 5; 6; 7; 8; 9; 2];
   [2; 9; 5; 1; 4; 8; 6; 7; 3];
   [7; 8; 6; 3; 2; 9; 1; 5; 4];
   [6; 2; 4; 8; 9; 5; 7; 3; 1];
   [8; 5; 7; 4; 3; 1; 9; 2; 6];
   [9; 3; 1; 2; 7; 6; 4; 8; 5]].

Definition solved_board : Board :=
  mkBoard 9 81 ((λ rw : list Z, Fixed <$> rw) <$> solved_rows).

(** A heap with that board alone: the nine rows, the list of rows at
    address 9 and the instance at address 10. *)
Definition solved_heap : list Store.obj :=
  ((λ rw : list Z, Store.ORow (Store.Num <$> rw)) <$> solved_rows)
  ++ [Store.OGrid (seq 0 9); Store.OBoard 9 81 9].

(** The heap after [Board()] on the empty heap; the instance is at
    address 91. *)
Definition fresh_heap : list Store.obj :=
  Eval vm_compute in (Store.Board_new []).2.

(** What one pass of the loop of [DFS] makes of it: the nine copies of
    the board, each updated at the cell (0, 0). *)
Definition first_pass : Store.outcome * list Store.obj :=
  Eval vm_compute in Store.DFS 1 91%nat fresh_heap.

(** ** Vocabulary for the copy statements *)

(** [h0] is the heap [copy.deepcopy] was called on, [h] the heap it has
    made so far, [m] its memo. *)

(** The copies the memo names for lists of numbers hold the same
    numbers. *)
Definition memo_ints (h0 h : list Store.obj) (m : list (nat * nat)) : Prop :=
  ∀ l l' items, Store.copied m l = Some l' →
    h0 !! l = Some (Store.OInts items) → h !! l' = Some (Store.OInts items).

(** The copies the memo names for rows read as the rows do. *)
Definition memo_rows (h0 h : list Store.obj) (m : list (nat * nat)) : Prop :=
  ∀ l l' rw, Store.copied m l = Some l' →
    Store.read_row h0 l = Some rw → Store.read_row h l' = Some rw.

(** The memo [m'] has, beyond the entries of [m], entries for lists of
    numbers only. *)
Definition memo_grows (h0 : list Store.obj) (m m' : list (nat * nat)) : Prop :=
  ∀ l l', Store.copied m' l = Some l' →
    Store.copied m l = Some l' ∨ ∃ items, h0 !! l = Some (Store.OInts items).

(** The set-up of [test_dfs_or_bfs]: a fresh board, then one [update]
    per move, in the order of the list. *)
Definition seed_board (moves : list (Z * Z * Z)) : result Board :=
  for_each moves (λ '(row, col, v) b, update b row col v) Board_init.

(** A move with coordinates from 0 to 8 and a number from 1 to 9. *)
Definition move_ok (move : Z * Z * Z) : Prop :=
  0 ≤ move.1.1 < 9 ∧ 0 ≤ move.1.2 < 9 ∧ digit move.2.

Global Instance move_ok_dec move : Decision (move_ok move).
Proof. unfold move_ok. apply _. Defined.

(** No number is assigned twice in a row, a column or a subgrid. *)
Definition consistent (b : Board) : Prop :=
  ∀ i j i' j' w,
    cell_at b i j = Some (Fixed w) → cell_at b i' j' = Some (Fixed w) →
    peer i j i' j' → (i, j) = (i', j').

(** [b'] has the assigned numbers of [b]. *)
Definition extends (b b' : Board) : Prop :=
  ∀ i j w, cell_at b i j = Some (Fixed w) → cell_at b' i j = Some (Fixed w).

(** All 81 cells hold a number from 1 to 9. *)
Definition complete (b : Board) : Prop :=
  ∀ i j, (i < 9)%nat → (j < 9)%nat → ∃ w, cell_at b i j = Some (Fixed w) ∧ digit w.

(** The first game of [a5.py] and the board [test_dfs_or_bfs] makes of
    it. *)
Definition first_moves : list (Z * Z * Z) :=
  [(0, 1, 7); (0, 7, 1); (1, 2, 9); (1, 3, 7); (1, 5, 4); (1, 6, 2); (2, 2, 8);
   (2, 3, 9); (2, 6, 3); (3, 1, 4); (3, 2, 3); (3, 4, 6); (4, 1, 9); (4, 3, 1);
   (4, 5, 8); (4, 7, 7); (5, 4, 2); (5, 6, 1); (5, 7, 5); (6, 2, 4); (6, 5, 5);
   (6, 6, 7); (7, 2, 7); (7, 3, 4); (7, 5, 1); (7, 6, 9); (8, 1, 3); (8, 7, 8)].

Definition first_game : Board :=
  Eval vm_compute in
    match seed_board first_moves with
    | Ok b => b
    | Raise _ => Board_init
    end.

(** [consistent] at two given cells, for checking a given board. *)
Definition differ_at (b : Board) (p q : nat * nat) : Prop :=
  match cell_at b p.1 p.2, cell_at b q.1 q.2 with
  | Some (Fixed v), Some (Fixed w) => peer p.1 p.2 q.1 q.2 → v = w → p = q
  | _, _ => True
  end.

Global Instance differ_at_dec b p q : Decision (differ_at b p q).
Proof.
  unfold differ_at.
  destruct (cell_at b p.1 p.2) as [[v|l]|]; try apply _.
  destruct (cell_at b q.1 q.2) as [[w|l']|]; apply _.
Defined.

(** The numbers a cell can hold. *)
Definition digits : list Z := seqZ 1 9.

(** The candidate list at [p], when there is one, holds [w] unless [w]
    is assigned in the row, the column or the subgrid of [p]. *)
Definition offered (b : Board) (p : nat * nat) (w : Z) : Prop :=
  match cell_at b p.1 p.2 with
  | Some (Cands l) =>
      w ∈ l ∨
      Exists (λ q, peer p.1 p.2 q.1 q.2 ∧ cell_at b q.1 q.2 = Some (Fixed w)) cells_rm
  | _ => True
  end.

Global Instance offered_dec b p w : Decision (offered b p w).
Proof. unfold offered. destruct (cell_at b p.1 p.2) as [[v|l]|]; apply _. Defined.

(** No candidate list lacks a number that its row, column and subgrid
    leave free. *)
Definition cands_full (b : Board) : Prop :=
  Forall (λ p, Forall (offered b p) digits) cells_rm.

Global Instance cands_full_dec b : Decision (cands_full b).
Proof. unfold cands_full. apply _. Defined.

(** The grid [s] has the assigned numbers of [b] and, where [b] has a
    candidate list, one of the candidates. *)
Definition admits (b s : Board) : Prop :=
  ∀ i j,
    match cell_at b i j with
    | Some (Fixed v) => cell_at s i j = Some (Fixed v)
    | Some (Cands l) => ∃ w, cell_at s i j = Some (Fixed w) ∧ w ∈ l
    | None => True
    end.

(** [extends] at one cell. *)
Definition kept_at (b b' : Board) (p : nat * nat) : Prop :=
  match cell_at b p.1 p.2 with
  | Some (Fixed w) => cell_at b' p.1 p.2 = Some (Fixed w)
  | _ => True
  end.

Global Instance kept_at_dec b b' p : Decision (kept_at b b' p).
Proof. unfold kept_at. destruct (cell_at b p.1 p.2) as [[v|l]|]; apply _. Defined.

(** ** Boards whose lists are not shared *)

(** The reference a cell of a row holds, when it holds one. *)
Definition slot_ref (c : Store.slot) : option nat :=
  match c with
  | Store.Ref l => Some l
  | Store.Num _ => None
  end.

(** The candidate lists the row at [rl] refers to, cell by cell. *)
Definition row_refs (h : list Store.obj) (rl : nat) : list nat :=
  match h !! rl with
  | Some (Store.ORow cells) => omap slot_ref cells
  | _ => []
  end.

(** The rows of the board at [self] are different objects, and so are
    the candidate lists of its cells: no list is reached twice. *)
Definition unshared (h : list Store.obj) (self : nat) : Prop :=
  match h !! self with
  | Some (Store.OBoard _ _ g) =>
      match h !! g with
      | Some (Store.OGrid rws) => NoDup rws ∧ NoDup (rws ≫= row_refs h)
      | _ => False
      end
  | _ => False
  end.

Global Instance unshared_dec h self : Decision (unshared h self).
Proof.
  unfold unshared. destruct (h !! self) as [[| | |sz p g|]|]; try apply _.
  destruct (h !! g) as [[| |rws| |]|]; apply _.
Defined.

(** The reference [self] reads as the board [B], and shares no list. *)
Definition stands_for (h : list Store.obj) (self : nat) (B : Board) : Prop :=
  Store.snapshot h self = Some B ∧ unshared h self.

(** The method [m] does to the board at [self] what the function [f]
    does to the board as a value: where [f] returns a board, [m]
    returns and [self] reads as that board, still sharing no list;
    where [f] raises, [m] raises the same exception. *)
Definition refines (self : nat) (m : Store.M unit) (f : Board → result Board) : Prop :=
  ∀ h B, stands_for h self B →
    match f B with
    | Ok B' => ∃ h', m h = (Ok (), h') ∧ stands_for h' self B'
    | Raise e => ∃ h', m h = (Raise e, h')
    end.

(** The references on the stack of [DFS] read as the boards of the
    stack of values, each sharing no list. *)
Definition stack_rel (h : list Store.obj) (stack : list nat) (vstack : list Board) : Prop :=
  Forall2 (stands_for h) stack vstack.

Global Instance stands_for_dec h self B : Decision (stands_for h self B).
Proof. unfold stands_for. apply _. Defined.

(** What [DFS] on the heap comes to is what [DFS] on values comes to:
    the same exception, the same [count], [None] for [None], and for a
    board a reference that reads as that board. *)
Definition agrees (res : Store.outcome * list Store.obj) (v : outcome) : Prop :=
  match v, res.1 with
  | Returned None count, Store.Returned None count' => count' = count
  | Returned (Some R) count, Store.Returned (Some l) count' =>
      count' = count ∧ stands_for res.2 l R
  | Raised e, Store.Raised e' => e' = e
  | OutOfFuel, Store.OutOfFuel => True
  | _, _ => False
  end.

(** ** The script *)

(** [test_dfs_or_bfs(True, moves)] up to the call of [DFS]: a new
    board, seeded move by move. *)
Definition test_setup (moves : list (Z * Z * Z)) : Store.M nat :=
  b ← Store.Board_new;
  _ ← Store.for_each moves (λ '(row, col, v) _, Store.update b row col v) ();
  mret b.

(** The set-up and the call [DFS(b)]; the printing is left out. *)
Definition test_dfs (fuel : nat) (moves : list (Z * Z * Z)) (h : list Store.obj) :
    Store.outcome * list Store.obj :=
  match test_setup moves h with
  | (Ok b, h1) => Store.DFS fuel b h1
  | (Raise e, h1) => (Store.Raised e, h1)
  end.

(** * Properties *)

(** ** The error monad *)

Lemma bind_Ok {A B} (a : A) (f : A → result B) : Ok a ≫= f = f a.
Proof. reflexivity. Qed.

Lemma bind_Ok_inv {A B} (m : result A) (f : A → result B) y :
  m ≫= f = Ok y → ∃ x, m = Ok x ∧ f x = Ok y.
Proof. destruct m as [x|e]; [eauto|done]. Qed.

(** ** Subscripts *)

Lemma index_of_nat len k : (k < len)%nat → index_of len (Z.of_nat k) = Ok k.
Proof.
  intros Hk. unfold index_of.
  rewrite decide_True by lia. by rewrite Nat2Z.id.
Qed.

Lemma index_of_Ok len i k :
  index_of len i = Ok k →
  (k < len)%nat ∧ (i = Z.of_nat k ∨ i = Z.of_nat k - Z.of_nat len).
Proof.
  unfold index_of. repeat case_decide; intros [= <-]; lia.
Qed.

Lemma getitem_nat {A} (l : list A) k x : l !! k = Some x → getitem l (Z.of_nat k) = Ok x.
Proof.
  intros Hk. unfold getitem.
  rewrite index_of_nat by (by eapply lookup_lt_Some). simpl. by rewrite Hk.
Qed.

Lemma getitem_Ok {A} (l : list A) i x :
  getitem l i = Ok x → 0 ≤ i → l !! Z.to_nat i = Some x.
Proof.
  unfold getitem. destruct (index_of (length l) i) as [k|] eqn:Hi; [|done].
  simpl. apply index_of_Ok in Hi as [? [->| ->]]; [|lia].
  rewrite Nat2Z.id. by destruct (l !! k) as [y|]; intros [= ->].
Qed.

Lemma setitem_nat {A} (l : list A) k x :
  (k < length l)%nat → setitem l (Z.of_nat k) x = Ok (<[k := x]> l).
Proof. intros Hk. unfold setitem. by rewrite index_of_nat. Qed.

(** ** Grids *)

Lemma cell_at_Some b i j c :
  cell_at b i j = Some c ↔ ∃ rw, rows b !! i = Some rw ∧ rw !! j = Some c.
Proof.
  unfold cell_at. destruct (rows b !! i) as [rw|]; simpl; naive_solver.
Qed.

Lemma grid9_row b i rw : grid9 b → rows b !! i = Some rw → length rw = 9%nat.
Proof. intros (_ & _ & Hr) Hi. by eapply (Forall_lookup_1 _ _ _ _ Hr). Qed.

Lemma grid9_cell b i j : grid9 b → (i < 9)%nat → (j < 9)%nat → is_Some (cell_at b i j).
Proof.
  intros Hg Hi Hj. destruct (lookup_lt_is_Some_2 (rows b) i) as [rw Hrw].
  { destruct Hg as (_ & -> & _). done. }
  destruct (lookup_lt_is_Some_2 rw j) as [c Hc].
  { by rewrite (grid9_row b i rw). }
  exists c. apply cell_at_Some. eauto.
Qed.

Lemma cell_at_lt b i j c : grid9 b → cell_at b i j = Some c → (i < 9)%nat ∧ (j < 9)%nat.
Proof.
  intros Hg (rw & Hi & Hj)%cell_at_Some.
  pose proof (grid9_row _ _ _ Hg Hi). destruct Hg as (_ & Hl & _).
  apply lookup_lt_Some in Hi, Hj. lia.
Qed.

Lemma get_cell_nat b i j c :
  cell_at b i j = Some c → get_cell b (Z.of_nat i) (Z.of_nat j) = Ok c.
Proof.
  intros (rw & Hi & Hj)%cell_at_Some. unfold get_cell.
  rewrite (getitem_nat _ _ _ Hi). simpl. by apply getitem_nat.
Qed.

Lemma get_cell_Ok b i j c :
  get_cell b i j = Ok c → 0 ≤ i → 0 ≤ j → cell_at b (Z.to_nat i) (Z.to_nat j) = Some c.
Proof.
  unfold get_cell. destruct (getitem (rows b) i) as [rw|] eqn:Hi; [|done]. simpl.
  intros Hj ? ?. apply cell_at_Some. exists rw. eauto using getitem_Ok.
Qed.

Lemma cell_at_map_cell f i j b i' j' :
  cell_at (map_cell f i j b) i' j' =
    if decide (i = i' ∧ j = j') then f <$> cell_at b i' j' else cell_at b i' j'.
Proof.
  unfold cell_at, map_cell. simpl.
  destruct (decide (i = i')) as [<-|Hi].
  - rewrite list_lookup_alter_eq. destruct (rows b !! i) as [rw|]; simpl.
    + destruct (decide (j = j')) as [<-|Hj].
      * rewrite list_lookup_alter_eq. by rewrite decide_True.
      * rewrite list_lookup_alter_ne by done. by rewrite decide_False by naive_solver.
    + by case_decide.
  - rewrite list_lookup_alter_ne by done. by rewrite decide_False by naive_solver.
Qed.

Lemma grid9_map_cell f i j b : grid9 b → grid9 (map_cell f i j b).
Proof.
  intros (Hs & Hl & Hr). split_and!; simpl; [done| by rewrite length_alter |].
  apply Forall_alter; [done|]. intros rw Hrw. by rewrite length_alter.
Qed.

Lemma remove_at_nat b i j v :
  is_Some (cell_at b i j) →
  remove_at (Z.of_nat i) (Z.of_nat j) v b = Ok (map_cell (λ c, remove_if_exists c v) i j b).
Proof.
  intros [c (rw & Hi & Hj)%cell_at_Some]. unfold remove_at.
  rewrite (getitem_nat _ _ _ Hi). simpl. rewrite (getitem_nat _ _ _ Hj). simpl.
  rewrite setitem_nat by (by eapply lookup_lt_Some). simpl.
  rewrite setitem_nat by (by eapply lookup_lt_Some). simpl.
  unfold map_cell. f_equal. f_equal.
  apply list_eq. intros k. destruct (decide (i = k)) as [<-|].
  - rewrite list_lookup_insert_eq by (by eapply lookup_lt_Some).
    rewrite list_lookup_alter_eq, Hi. simpl. f_equal.
    apply list_eq. intros k. destruct (decide (j = k)) as [<-|].
    + rewrite list_lookup_insert_eq by (by eapply lookup_lt_Some).
      by rewrite list_lookup_alter_eq, Hj.
    + by rewrite list_lookup_insert_ne, list_lookup_alter_ne.
  - by rewrite list_lookup_insert_ne, list_lookup_alter_ne.
Qed.

(** ** Removing from candidate lists *)

Lemma remove_if_exists_Cands l v : remove_if_exists (Cands l) v = Cands (discard v l).
Proof. unfold discard. simpl. by case_decide. Qed.

Lemma iter_remove_Fixed n v w : Nat.iter n (λ c, remove_if_exists c v) (Fixed w) = Fixed w.
Proof. induction n as [|n IH]; simpl; [done|by rewrite IH]. Qed.

Lemma iter_remove_Cands n v l :
  Nat.iter n (λ c, remove_if_exists c v) (Cands l) = Cands (Nat.iter n (discard v) l).
Proof.
  induction n as [|n IH]; simpl; [done|]. by rewrite IH, remove_if_exists_Cands.
Qed.

Lemma remove_first_sublist v l : remove_first v l `sublist_of` l.
Proof.
  induction l as [|x l IH]; simpl; [done|]. case_decide.
  - by apply sublist_cons.
  - by apply sublist_skip.
Qed.

Lemma discard_sublist v l : discard v l `sublist_of` l.
Proof. unfold discard. case_decide; [apply remove_first_sublist|done]. Qed.

Lemma iter_discard_sublist n v l : Nat.iter n (discard v) l `sublist_of` l.
Proof.
  induction n as [|n IH]; simpl; [done|].
  etrans; [apply discard_sublist|done].
Qed.

Lemma remove_first_NoDup v l : NoDup l → v ∉ remove_first v l.
Proof.
  induction 1 as [|x l Hx Hl IH]; simpl; [by apply not_elem_of_nil|].
  case_decide as Hxv; [by subst|].
  rewrite elem_of_cons. naive_solver.
Qed.

Lemma discard_NoDup v l : NoDup l → v ∉ discard v l.
Proof. intros Hl. unfold discard. case_decide; [by apply remove_first_NoDup|done]. Qed.

Lemma iter_discard_NoDup n v l : NoDup l → (0 < n)%nat → v ∉ Nat.iter n (discard v) l.
Proof.
  intros Hl Hn. destruct n as [|n]; [lia|]. simpl.
  apply discard_NoDup. eapply sublist_NoDup; [done|apply iter_discard_sublist].
Qed.

Lemma remove_first_length v l : v ∈ l → S (length (remove_first v l)) = length l.
Proof.
  induction l as [|x l IH]; simpl; [by intros ?%elem_of_nil|].
  intros [->|Hv]%elem_of_cons.
  - by rewrite decide_True.
  - case_decide; [done|]. simpl. by rewrite IH.
Qed.

(** ** What [update] does to each cell *)

Lemma strip_all_grid9 v ps b : grid9 b → grid9 (strip_all v ps b).
Proof.
  revert b. induction ps as [|p ps IH]; intros b Hb; simpl; [done|].
  apply IH. by apply grid9_map_cell.
Qed.

Lemma strip_all_size v ps b :
  size (strip_all v ps b) = size b ∧
  num_nums_placed (strip_all v ps b) = num_nums_placed b.
Proof.
  revert b. induction ps as [|p ps IH]; intros b; simpl; [done|].
  destruct (IH (map_cell (λ c, remove_if_exists c v) p.1 p.2 b)) as [-> ->]. done.
Qed.

Lemma cell_at_strip_all v ps b i j :
  cell_at (strip_all v ps b) i j =
    Nat.iter (length (filter (λ p, p = (i, j)) ps)) (λ c, remove_if_exists c v)
      <$> cell_at b i j.
Proof.
  revert b. induction ps as [|[i' j'] ps IH]; intros b; simpl.
  { by destruct (cell_at b i j). }
  rewrite IH, cell_at_map_cell. simpl. rewrite filter_cons.
  destruct (decide ((i', j') = (i, j))) as [[= -> ->]|Hne].
  - rewrite decide_True by done. simpl length.
    destruct (cell_at b i j) as [c0|]; simpl; [|done].
    f_equal. symmetry. apply (Nat.iter_succ_r _ (λ c, remove_if_exists c v)).
  - rewrite decide_False by naive_solver. done.
Qed.

Lemma for_each_remove_at v (ps : list (nat * nat)) b :
  grid9 b → Forall (λ p, p.1 < 9 ∧ p.2 < 9)%nat ps →
  for_each ((λ p, (Z.of_nat p.1, Z.of_nat p.2)) <$> ps)
    (λ '(i, j) b, remove_at i j v b) b = Ok (strip_all v ps b).
Proof.
  intros Hb Hps. revert b Hb.
  induction Hps as [|[i j] ps [Hi Hj] Hps IH]; intros b Hb; simpl; [done|].
  simpl in Hi, Hj. rewrite remove_at_nat by (by apply grid9_cell). simpl.
  apply IH. by apply grid9_map_cell.
Qed.

Lemma for_each_line r c v (ks : list nat) b :
  grid9 b → (r < 9)%nat → (c < 9)%nat → Forall (λ k, k < 9)%nat ks →
  for_each (Z.of_nat <$> ks) (λ i b,
      b' ← remove_at (Z.of_nat r) i v b;
      remove_at i (Z.of_nat c) v b') b
  = Ok (strip_all v (i ← ks; [(r, i); (i, c)]) b).
Proof.
  intros Hb Hr Hc Hks. revert b Hb.
  induction Hks as [|k ks Hk Hks IH]; intros b Hb; simpl; [done|].
  rewrite remove_at_nat by (by apply grid9_cell). simpl.
  rewrite remove_at_nat by (apply grid9_cell; [by apply grid9_map_cell|done..]). simpl.
  apply IH. by do 2 apply grid9_map_cell.
Qed.

(** Case analysis on a number known to be below a bound. *)
Ltac below n k :=
  lazymatch k with
  | O => exfalso; lia
  | S ?k' => destruct n as [|n]; [|below n k']
  end.
Ltac below9 n := below n 9%nat.

Lemma subgrid_coordinates_nat r c :
  (r < 9)%nat → (c < 9)%nat →
  subgrid_coordinates (Z.of_nat r) (Z.of_nat c)
  = Ok ((λ p, (Z.of_nat p.1, Z.of_nat p.2)) <$> box_cells r c).
Proof. intros Hr Hc. below9 r; below9 c; reflexivity. Qed.

Lemma box_cells_lt r c :
  (r < 9)%nat → (c < 9)%nat → Forall (λ p, p.1 < 9 ∧ p.2 < 9)%nat (box_cells r c).
Proof.
  intros Hr Hc. below9 r; below9 c; repeat constructor.
Qed.

Lemma place_grid9 r c v b : grid9 b → grid9 (place r c v b).
Proof.
  intros (Hs & Hl & Hr). split_and!; simpl; [done| by rewrite length_alter |].
  apply Forall_alter; [done|]. intros rw Hrw. by rewrite length_alter.
Qed.

Lemma cell_at_place r c v b i j :
  cell_at (place r c v b) i j =
    if decide (r = i ∧ c = j) then (λ _, Fixed v) <$> cell_at b i j else cell_at b i j.
Proof. apply (cell_at_map_cell (λ _, Fixed v) r c b i j). Qed.

Lemma update_nat b r c v :
  grid9 b → (r < 9)%nat → (c < 9)%nat →
  update b (Z.of_nat r) (Z.of_nat c) v = Ok (strip_all v (visits r c) (place r c v b)).
Proof.
  intros Hb Hr Hc. unfold update.
  destruct (grid9_cell b r c Hb Hr Hc) as [c0 (rw & Hrw & Hc0)%cell_at_Some].
  rewrite (getitem_nat _ _ _ Hrw), bind_Ok.
  rewrite setitem_nat, bind_Ok by (by eapply lookup_lt_Some).
  rewrite setitem_nat, bind_Ok by (by eapply lookup_lt_Some).
  replace (<[r:=<[c:=Fixed v]> rw]> (rows b)) with (rows (place r c v b)).
  2:{ simpl. apply list_eq. intros k. destruct (decide (r = k)) as [<-|].
      - rewrite list_lookup_insert_eq by (by eapply lookup_lt_Some).
        by rewrite list_lookup_alter_eq, Hrw, list_insert_alter.
      - by rewrite list_lookup_insert_ne, list_lookup_alter_ne. }
  change (mkBoard (size b) (num_nums_placed b + 1) (rows (place r c v b)))
    with (place r c v b).
  pose proof (place_grid9 r c v b Hb) as Hp.
  replace (range (size (place r c v b))) with (Z.of_nat <$> seq 0 9)
    by (by destruct Hp as (-> & _)).
  rewrite for_each_line, bind_Ok; [|done..|by repeat constructor].
  rewrite subgrid_coordinates_nat, bind_Ok by done.
  rewrite for_each_remove_at;
    [|by apply strip_all_grid9|by apply box_cells_lt].
  unfold visits, strip_all, line_cells. by rewrite foldl_app.
Qed.

Lemma update_updated b r c v :
  grid9 b → (r < 9)%nat → (c < 9)%nat →
  update b (Z.of_nat r) (Z.of_nat c) v = Ok (updated r c v b).
Proof. apply update_nat. Qed.

Lemma updated_grid9 r c v b : grid9 b → grid9 (updated r c v b).
Proof. intros Hb. by apply strip_all_grid9, place_grid9. Qed.

Lemma updated_size r c v b : size (updated r c v b) = size b.
Proof. unfold updated. by rewrite (proj1 (strip_all_size _ _ _)). Qed.

Lemma updated_num r c v b :
  num_nums_placed (updated r c v b) = num_nums_placed b + 1.
Proof. unfold updated. by rewrite (proj2 (strip_all_size _ _ _)). Qed.

Lemma cell_at_updated r c v b i j :
  cell_at (updated r c v b) i j =
    if decide (r = i ∧ c = j) then (λ _, Fixed v) <$> cell_at b i j
    else Nat.iter (visit_count r c i j) (λ c, remove_if_exists c v) <$> cell_at b i j.
Proof.
  unfold updated. rewrite cell_at_strip_all, cell_at_place.
  fold (visit_count r c i j). case_decide; [|done].
  destruct (cell_at b i j); simpl; [|done]. by rewrite iter_remove_Fixed.
Qed.

Lemma cell_at_updated_Fixed r c v b i j w :
  cell_at b i j = Some (Fixed w) → (r, c) ≠ (i, j) →
  cell_at (updated r c v b) i j = Some (Fixed w).
Proof.
  intros Hc Hne. rewrite cell_at_updated, decide_False, Hc by naive_solver.
  simpl. by rewrite iter_remove_Fixed.
Qed.

Lemma cell_at_updated_Cands r c v b i j l :
  cell_at b i j = Some (Cands l) → (r, c) ≠ (i, j) →
  cell_at (updated r c v b) i j = Some (Cands (Nat.iter (visit_count r c i j) (discard v) l)).
Proof.
  intros Hc Hne. rewrite cell_at_updated, decide_False, Hc by naive_solver.
  simpl. by rewrite iter_remove_Cands.
Qed.

(** A cell of the updated board, read backwards. *)
Lemma cell_at_updated_inv r c v b i j x :
  cell_at (updated r c v b) i j = Some x →
  ((r, c) = (i, j) ∧ x = Fixed v) ∨
  ((r, c) ≠ (i, j) ∧
   ((∃ w, x = Fixed w ∧ cell_at b i j = Some (Fixed w)) ∨
    (∃ l, x = Cands (Nat.iter (visit_count r c i j) (discard v) l) ∧
          cell_at b i j = Some (Cands l)))).
Proof.
  rewrite cell_at_updated. case_decide as Hd.
  - destruct (cell_at b i j); intros [= <-]. left. naive_solver.
  - destruct (cell_at b i j) as [[w|l]|] eqn:Hc; intros [= <-]; right.
    + rewrite iter_remove_Fixed. naive_solver.
    + rewrite iter_remove_Cands. naive_solver.
Qed.

(** ** Properties of all cells *)

Lemma all_cells_at P b :
  all_cells P b ↔ ∀ i j c, cell_at b i j = Some c → P c.
Proof.
  unfold all_cells. rewrite Forall_lookup. split.
  - intros H i j c (rw & Hi & Hj)%cell_at_Some.
    by eapply (Forall_lookup_1 _ _ _ _ (H _ _ Hi)).
  - intros H i rw Hi. apply Forall_lookup. intros j c Hj.
    apply (H i j). apply cell_at_Some. eauto.
Qed.

Lemma elem_of_cells_rm i j : (i, j) ∈ cells_rm ↔ (i < 9)%nat ∧ (j < 9)%nat.
Proof.
  unfold cells_rm. rewrite list_elem_of_bind. split.
  - intros (i' & (j' & [= -> ->]%list_elem_of_singleton & Hj)%list_elem_of_bind & Hi).
    apply elem_of_seq in Hi, Hj. lia.
  - intros [Hi Hj]. exists i. split; [|apply elem_of_seq; lia].
    apply list_elem_of_bind. exists j. split; [by apply list_elem_of_singleton|].
    apply elem_of_seq. lia.
Qed.

Lemma no_clash_at_all b :
  grid9 b →
  no_clash b ↔
  ∀ i j i' j' v l, cell_at b i j = Some (Fixed v) → cell_at b i' j' = Some (Cands l) →
    peer i j i' j' → v ∉ l.
Proof.
  intros Hb. unfold no_clash. rewrite Forall_forall. split.
  - intros H i j i' j' v l Hv Hl Hp.
    assert ((i, j) ∈ cells_rm) as Hij by (by eapply elem_of_cells_rm, cell_at_lt).
    assert ((i', j') ∈ cells_rm) as Hij' by (by eapply elem_of_cells_rm, cell_at_lt).
    specialize (H _ Hij). rewrite Forall_forall in H. specialize (H _ Hij').
    unfold no_clash_at in H. simpl in H. rewrite Hv, Hl in H. auto.
  - intros H [i j] _. apply Forall_forall. intros [i' j'] _.
    unfold no_clash_at. simpl.
    destruct (cell_at b i j) as [[v|]|] eqn:Hv; [|done..].
    destruct (cell_at b i' j') as [[|l]|] eqn:Hl; [done| |done]. eauto.
Qed.

(** ** Which cells [update] passes *)

Lemma forallb_below9 (P : nat → bool) :
  forallb P (seq 0 9) = true → ∀ n, (n < 9)%nat → P n = true.
Proof.
  intros HP n Hn. rewrite forallb_forall in HP. apply HP, in_seq. lia.
Qed.

Lemma visit_count_peer r c i j :
  (r < 9)%nat → (c < 9)%nat → (i < 9)%nat → (j < 9)%nat →
  (0 < visit_count r c i j)%nat ↔ peer r c i j.
Proof.
  intros Hr Hc Hi Hj.
  assert (forallb (λ r, forallb (λ c, forallb (λ i, forallb (λ j,
            bool_decide ((0 < visit_count r c i j)%nat ↔ peer r c i j))
          (seq 0 9)) (seq 0 9)) (seq 0 9)) (seq 0 9) = true) as Hall
    by (vm_compute; reflexivity).
  pose proof (forallb_below9 _ Hall r Hr) as H1. cbv beta in H1.
  pose proof (forallb_below9 _ H1 c Hc) as H2. cbv beta in H2.
  pose proof (forallb_below9 _ H2 i Hi) as H3. cbv beta in H3.
  pose proof (forallb_below9 _ H3 j Hj) as H4. cbv beta in H4.
  by apply bool_decide_eq_true in H4.
Qed.

Lemma peerZ_nat r c i j :
  0 ≤ r → 0 ≤ c → 0 ≤ i → 0 ≤ j →
  peerZ r c i j ↔ peer (Z.to_nat r) (Z.to_nat c) (Z.to_nat i) (Z.to_nat j).
Proof.
  intros Hr Hc Hi Hj. unfold peerZ, peer.
  assert (∀ x y, 0 ≤ x → 0 ≤ y →
    x / 3 = y / 3 ↔ (Z.to_nat x / 3)%nat = (Z.to_nat y / 3)%nat) as Hdiv.
  { intros x y Hx Hy.
    rewrite <-(Z2Nat.id x) at 1 by done. rewrite <-(Z2Nat.id y) at 1 by done.
    change 3 with (Z.of_nat 3). rewrite <-!Nat2Z.inj_div. lia. }
  rewrite (Hdiv i r), (Hdiv j c) by done. lia.
Qed.

(** ** Elimination *)

(** C1.  On a 9x9 board whose candidate lists hold no number twice, an
    in-range [update(r, c, v)] succeeds, and afterwards no candidate
    list in row [r], in column [c] or in the subgrid of [(r, c)]
    contains [v]. *)
Theorem update_eliminates b r c v :
  grid9 b → distinct_cands b → 0 ≤ r < 9 → 0 ≤ c < 9 →
  ∃ b', update b r c v = Ok b' ∧
    ∀ i j l, 0 ≤ i < 9 → 0 ≤ j < 9 → peerZ r c i j →
      get_cell b' i j = Ok (Cands l) → v ∉ l.
Proof.
  intros Hb Hnd Hr Hc. exists (updated (Z.to_nat r) (Z.to_nat c) v b). split.
  { rewrite <-(Z2Nat.id r) at 1 by lia. rewrite <-(Z2Nat.id c) at 1 by lia.
    apply update_updated; [done|lia..]. }
  intros i j l Hi Hj Hpeer Hget.
  apply get_cell_Ok in Hget; [|lia..].
  apply peerZ_nat in Hpeer; [|lia..].
  apply visit_count_peer in Hpeer; [|lia..].
  apply cell_at_updated_inv in Hget as [[_ [=]]|[_ [(w & [=] & _)|(l0 & [= ->] & Hl0)]]].
  apply iter_discard_NoDup; [|done].
  by apply (proj1 (all_cells_at _ _) Hnd _ _ _ Hl0).
Qed.

(** ** Well-formed candidate lists *)

Lemma sublist_StronglySorted (R : Z → Z → Prop) l1 l2 :
  l1 `sublist_of` l2 → StronglySorted R l2 → StronglySorted R l1.
Proof.
  induction 1 as [|x l1 l2 Hsub IH|x l1 l2 Hsub IH]; [done|..].
  - rewrite !StronglySorted_cons, !Forall_forall. intros [Hx Hl2].
    split; [|auto]. intros y Hy. apply Hx. by eapply elem_of_sublist.
  - rewrite StronglySorted_cons. intros [_ Hl2]. auto.
Qed.

Lemma StronglySorted_lt_NoDup l : StronglySorted Z.lt l → NoDup l.
Proof.
  induction 1 as [|x l Hl IH Hx]; constructor; [|done].
  rewrite Forall_forall in Hx. intros Hin%Hx. lia.
Qed.

Lemma cands_wf_NoDup l : cands_wf l → NoDup l.
Proof. intros [Hs _]. by apply StronglySorted_lt_NoDup. Qed.

Lemma cands_wf_sublist l1 l2 : l1 `sublist_of` l2 → cands_wf l2 → cands_wf l1.
Proof.
  intros Hsub [Hs Hd]. split; [by eapply sublist_StronglySorted|].
  rewrite Forall_forall in *. intros x Hx. apply Hd. by eapply elem_of_sublist.
Qed.

Lemma cands_wf_submseteq l : cands_wf l → l ⊆+ seqZ 1 9.
Proof.
  intros Hl. apply NoDup_submseteq; [by apply cands_wf_NoDup|].
  intros x Hx. destruct Hl as [_ Hd]. rewrite Forall_forall in Hd.
  apply elem_of_seqZ. specialize (Hd x Hx). unfold digit in Hd. lia.
Qed.

Lemma cands_wf_length l : cands_wf l → (length l ≤ 9)%nat.
Proof. intros Hl%cands_wf_submseteq%submseteq_length. by rewrite length_seqZ in Hl. Qed.

Lemma cands_wf_full l v : cands_wf l → length l = 9%nat → digit v → v ∈ l.
Proof.
  intros Hl Hlen Hv.
  assert (l ≡ₚ seqZ 1 9) as ->.
  { apply submseteq_length_Permutation; [by apply cands_wf_submseteq|].
    rewrite length_seqZ. lia. }
  apply elem_of_seqZ. unfold digit in Hv. lia.
Qed.

(** ** The invariant of the data model *)

Lemma Board_init_inv : board_inv Board_init.
Proof. apply (bool_decide_unpack _). vm_compute. exact I. Qed.

Lemma board_inv_cands b i j l :
  board_inv b → cell_at b i j = Some (Cands l) → cands_wf l.
Proof. intros (_ & Hc & _) Hl. apply (proj1 (all_cells_at _ _) Hc _ _ _ Hl). Qed.

Lemma board_inv_fixed b i j v :
  board_inv b → cell_at b i j = Some (Fixed v) → digit v.
Proof. intros (_ & _ & Hf & _) Hv. apply (proj1 (all_cells_at _ _) Hf _ _ _ Hv). Qed.

Lemma board_inv_clash b i j i' j' v l :
  board_inv b → cell_at b i j = Some (Fixed v) → cell_at b i' j' = Some (Cands l) →
  peer i j i' j' → v ∉ l.
Proof. intros (Hb & _ & _ & Hx). by apply no_clash_at_all. Qed.

Lemma board_inv_distinct b : board_inv b → distinct_cands b.
Proof.
  intros Hb. apply all_cells_at. intros i j [v|l] Hc; simpl; [done|].
  eapply cands_wf_NoDup, board_inv_cands; eauto.
Qed.

(** [update] with a number from 1 to 9 keeps the invariant. *)
Lemma updated_inv r c v b :
  board_inv b → (r < 9)%nat → (c < 9)%nat → digit v → board_inv (updated r c v b).
Proof.
  intros Hb Hr Hc Hv. pose proof Hb as (Hg & _).
  pose proof (updated_grid9 r c v b Hg) as Hg'.
  split_and!; [done|..].
  - apply all_cells_at. intros i j x Hx.
    apply cell_at_updated_inv in Hx as [[_ ->]|[_ [(w & -> & _)|(l & -> & Hl)]]];
      simpl; [done..|].
    eapply cands_wf_sublist; [apply iter_discard_sublist|].
    by eapply board_inv_cands.
  - apply all_cells_at. intros i j x Hx.
    apply cell_at_updated_inv in Hx as [[_ ->]|[_ [(w & -> & Hw)|(l & -> & _)]]];
      simpl; [done| |done].
    by eapply board_inv_fixed.
  - apply no_clash_at_all; [done|]. intros i j i' j' w l' Hw Hl' Hp.
    destruct (cell_at_lt _ _ _ _ Hg' Hl') as [Hi' Hj'].
    apply cell_at_updated_inv in Hl' as [[_ [=]]|[_ [(? & [=] & _)|(l & [= ->] & Hl)]]].
    apply cell_at_updated_inv in Hw as [[[= <- <-] [= ->]]|[_ [(? & [= <-] & Hw)|(? & [=] & _)]]].
    + apply iter_discard_NoDup.
      * eapply cands_wf_NoDup, board_inv_cands; eauto.
      * by apply visit_count_peer.
    + intros Hin. eapply (board_inv_clash b i j i' j'); [done..|].
      eapply elem_of_sublist; [done|apply iter_discard_sublist].
Qed.

(** ** Loops *)

Lemma for_each_app {A S} (xs ys : list A) (body : A → S → result S) s :
  for_each (xs ++ ys) body s = s' ← for_each xs body s; for_each ys body s'.
Proof.
  revert s. induction xs as [|x xs IH]; intros s; simpl; [done|].
  destruct (body x s) as [s'|e]; simpl; [apply IH|done].
Qed.

Lemma for_each_nested {S} (f : Z → Z → S → result S) (ks js : list nat) s :
  for_each (Z.of_nat <$> ks)
    (λ i st, for_each (Z.of_nat <$> js) (λ j st, f i j st) st) s
  = for_each ((λ p, (Z.of_nat p.1, Z.of_nat p.2)) <$> (i ← ks; j ← js; [(i, j)]))
      (λ '(i, j) st, f i j st) s.
Proof.
  assert (∀ i s, for_each (Z.of_nat <$> js) (λ j st, f (Z.of_nat i) j st) s
    = for_each ((λ p, (Z.of_nat p.1, Z.of_nat p.2)) <$> (j ← js; [(i, j)]))
        (λ '(i, j) st, f i j st) s) as Hin.
  { intros i. induction js as [|j js IH]; intros s'; simpl; [done|].
    destruct (f (Z.of_nat i) (Z.of_nat j) s'); simpl; [apply IH|done]. }
  revert s. induction ks as [|i ks IH]; intros s; [done|].
  rewrite fmap_cons, bind_cons, fmap_app, for_each_app. simpl for_each at 1.
  rewrite Hin. destruct (for_each _ _ s); simpl; [apply IH|done].
Qed.

(** ** The most constrained cell *)

Lemma find_most_constrained_cell_scan b :
  size b = 9 →
  find_most_constrained_cell b =
    st ← mcc_scan b cells_rm (9, 0, 0); let '(_, row, col) := st in Ok (row, col).
Proof.
  intros Hs. unfold find_most_constrained_cell, mcc_scan, cells_rm. rewrite Hs.
  change (range 9) with (Z.of_nat <$> seq 0 9).
  by rewrite (for_each_nested (mcc_visit b)).
Qed.

Lemma mcc_visit_nat b i j st :
  is_Some (cell_at b i j) →
  mcc_visit b (Z.of_nat i) (Z.of_nat j) st =
    Ok (match len_at b (i, j) with
        | Some n => if decide (Z.of_nat n < st.1.1) then (Z.of_nat n, Z.of_nat i, Z.of_nat j)
                    else st
        | None => st
        end).
Proof.
  intros [x Hx]. destruct st as [[m r] c]. unfold mcc_visit, len_at. simpl.
  rewrite (get_cell_nat _ _ _ _ Hx), bind_Ok, Hx.
  destruct x as [v|l]; [done|]. by case_decide.
Qed.

Lemma mcc_scan_cons b i j ps st :
  mcc_scan b ((i, j) :: ps) st =
    st' ← mcc_visit b (Z.of_nat i) (Z.of_nat j) st; mcc_scan b ps st'.
Proof. reflexivity. Qed.

Lemma mcc_scan_spec b ps st :
  grid9 b → Forall (λ p, p.1 < 9 ∧ p.2 < 9)%nat ps →
  ∃ st', mcc_scan b ps st = Ok st' ∧
    ((st' = st ∧ ∀ q k, q ∈ ps → len_at b q = Some k → st.1.1 ≤ Z.of_nat k) ∨
     (∃ ps1 p ps2 n, ps = ps1 ++ p :: ps2 ∧
        st' = (Z.of_nat n, Z.of_nat p.1, Z.of_nat p.2) ∧
        len_at b p = Some n ∧ Z.of_nat n < st.1.1 ∧
        (∀ q k, q ∈ ps1 → len_at b q = Some k → (n < k)%nat) ∧
        (∀ q k, q ∈ ps2 → len_at b q = Some k → (n ≤ k)%nat))).
Proof.
  intros Hb Hps. revert st.
  induction Hps as [|[i j] ps [Hi Hj] Hps IH]; intros st.
  { exists st. split; [done|]. left. split; [done|]. by intros q k ?%elem_of_nil. }
  simpl in Hi, Hj.
  rewrite mcc_scan_cons, mcc_visit_nat, bind_Ok by (by apply grid9_cell).
  destruct (len_at b (i, j)) as [n|] eqn:Hn; [case_decide as Hlt|].
  - (* the cell at [(i, j)] becomes the current minimum *)
    destruct (IH (Z.of_nat n, Z.of_nat i, Z.of_nat j)) as (st' & -> & Hst').
    exists st'. split; [done|]. right.
    destruct Hst' as [[-> Hall]|(ps1 & p & ps2 & n' & -> & -> & Hp & Hlt' & H1 & H2)].
    + exists [], (i, j), ps, n. split_and!; try done.
      * by intros q k ?%elem_of_nil.
      * intros q k Hq Hk. specialize (Hall q k Hq Hk). simpl in Hall. lia.
    + exists ((i, j) :: ps1), p, ps2, n'. simpl in Hlt'. split_and!; try done; [lia|].
      intros q k [->|Hq]%elem_of_cons Hk; [|by eauto].
      rewrite Hn in Hk. injection Hk as <-. lia.
  - (* a list that is not shorter than the current minimum *)
    destruct (IH st) as (st' & -> & Hst'). exists st'. split; [done|].
    destruct Hst' as [[-> Hall]|(ps1 & p & ps2 & n' & -> & -> & Hp & Hlt' & H1 & H2)].
    + left. split; [done|]. intros q k [->|Hq]%elem_of_cons Hk; [|by eauto].
      rewrite Hn in Hk. injection Hk as <-. lia.
    + right. exists ((i, j) :: ps1), p, ps2, n'. split_and!; try done.
      intros q k [->|Hq]%elem_of_cons Hk; [|by eauto].
      rewrite Hn in Hk. injection Hk as <-. lia.
  - (* an assigned cell *)
    destruct (IH st) as (st' & -> & Hst'). exists st'. split; [done|].
    destruct Hst' as [[-> Hall]|(ps1 & p & ps2 & n' & -> & -> & Hp & Hlt' & H1 & H2)].
    + left. split; [done|]. intros q k [->|Hq]%elem_of_cons Hk; [|by eauto].
      by rewrite Hn in Hk.
    + right. exists ((i, j) :: ps1), p, ps2, n'. split_and!; try done.
      intros q k [->|Hq]%elem_of_cons Hk; [|by eauto].
      by rewrite Hn in Hk.
Qed.

Lemma cells_rm_sorted : StronglySorted rm_lt cells_rm.
Proof. apply (bool_decide_unpack _). vm_compute. exact I. Qed.

Lemma cells_rm_lt : Forall (λ p, p.1 < 9 ∧ p.2 < 9)%nat cells_rm.
Proof. apply Forall_forall. intros [i j]. apply elem_of_cells_rm. Qed.

Lemma len_at_Some b i j n :
  len_at b (i, j) = Some n ↔ ∃ l, cell_at b i j = Some (Cands l) ∧ length l = n.
Proof.
  unfold len_at. simpl. destruct (cell_at b i j) as [[v|l]|]; naive_solver.
Qed.

(** What the scan returns on any 9x9 board: the first cell, in row-major
    order, among the shortest candidate lists of fewer than 9 entries;
    [(0, 0)] when there is no such list. *)
Lemma find_most_constrained_cell_spec b :
  grid9 b →
  (find_most_constrained_cell b = Ok (0, 0) ∧
   ∀ i j l, cell_at b i j = Some (Cands l) → (9 ≤ length l)%nat) ∨
  (∃ r c l, find_most_constrained_cell b = Ok (Z.of_nat r, Z.of_nat c) ∧
     cell_at b r c = Some (Cands l) ∧ (length l < 9)%nat ∧
     ∀ i j l', cell_at b i j = Some (Cands l') →
       (length l ≤ length l')%nat ∧
       (length l' = length l → (r, c) = (i, j) ∨ rm_lt (r, c) (i, j))).
Proof.
  intros Hb. rewrite find_most_constrained_cell_scan by apply Hb.
  destruct (mcc_scan_spec b cells_rm (9, 0, 0) Hb cells_rm_lt) as (st' & -> & Hst').
  rewrite bind_Ok.
  destruct Hst' as [[-> Hall]|(ps1 & [r c] & ps2 & n & Hsplit & -> & Hp & Hlt & H1 & H2)].
  - left. split; [done|]. intros i j l Hl.
    assert ((i, j) ∈ cells_rm) as Hin by (by eapply elem_of_cells_rm, cell_at_lt).
    specialize (Hall (i, j) (length l) Hin). simpl in Hall.
    assert (9 ≤ Z.of_nat (length l)); [|lia].
    apply Hall, len_at_Some. eauto.
  - right. simpl in Hlt. apply len_at_Some in Hp as (l & Hl & <-).
    exists r, c, l. split_and!; [done..|lia|]. intros i j l' Hl'.
    assert ((i, j) ∈ cells_rm) as Hin by (by eapply elem_of_cells_rm, cell_at_lt).
    assert (len_at b (i, j) = Some (length l')) as Hlen by (apply len_at_Some; eauto).
    pose proof cells_rm_sorted as Hsorted. rewrite Hsplit in Hsorted, Hin.
    apply StronglySorted_app in Hsorted as (_ & _ & Hsorted).
    apply StronglySorted_cons in Hsorted as [Hsorted _].
    rewrite Forall_forall in Hsorted.
    apply elem_of_app in Hin as [Hin|[[= -> ->]|Hin]%elem_of_cons].
    + specialize (H1 _ _ Hin Hlen). lia.
    + rewrite Hl in Hl'. injection Hl' as <-. auto.
    + specialize (H2 _ _ Hin Hlen). auto.
Qed.

(** On a board of the data model with a candidate list, whose candidate
    lists all have nine entries or more, the cell at (0, 0) holds a
    candidate list, and every candidate list has exactly nine entries:
    the default of the scan is then its right answer. *)
Lemma mcc_default_cands b :
  board_inv b → (∃ i j l, cell_at b i j = Some (Cands l)) →
  (∀ i j l, cell_at b i j = Some (Cands l) → (9 ≤ length l)%nat) →
  (∃ l, cell_at b 0 0 = Some (Cands l)) ∧
  ∀ i j l, cell_at b i j = Some (Cands l) → length l = 9%nat.
Proof.
  intros Hinv (i0 & j0 & l0 & Hl0) Hall. pose proof Hinv as (Hb & _).
  (* every candidate list has all nine numbers *)
  assert (∀ i j l, cell_at b i j = Some (Cands l) → length l = 9%nat) as Hnine.
  { intros i j l Hl. pose proof (cands_wf_length l (board_inv_cands _ _ _ _ Hinv Hl)).
    specialize (Hall _ _ _ Hl). lia. }
  split; [|done].
  assert (∀ i j l v, cell_at b i j = Some (Cands l) → digit v → v ∈ l) as Hfull.
  { intros i j l v Hl Hv. eapply cands_wf_full; eauto using board_inv_cands. }
  destruct (cell_at_lt _ _ _ _ Hb Hl0) as [Hi0 Hj0].
  (* so the cell at (0, 0) cannot be assigned *)
  destruct (grid9_cell b 0 0 Hb) as [[v|l] Hx]; [lia..| |by eauto].
  exfalso. pose proof (board_inv_fixed _ _ _ _ Hinv Hx) as Hv.
  destruct (grid9_cell b 0 j0 Hb) as [[w|l1] Hy]; [lia..| |].
  - pose proof (board_inv_fixed _ _ _ _ Hinv Hy) as Hw.
    apply (board_inv_clash b 0 j0 i0 j0 w l0 Hinv Hy Hl0); [|by eauto].
    unfold peer. auto.
  - apply (board_inv_clash b 0 0 0 j0 v l1 Hinv Hx Hy); [|by eauto].
    unfold peer. auto.
Qed.

(** The cell the scan returns holds a candidate list. *)
Lemma mcc_returns_cands b :
  board_inv b → (∃ i j l, cell_at b i j = Some (Cands l)) →
  ∃ r c l, find_most_constrained_cell b = Ok (Z.of_nat r, Z.of_nat c) ∧
    cell_at b r c = Some (Cands l).
Proof.
  intros Hinv Hex.
  destruct (find_most_constrained_cell_spec b (proj1 Hinv))
    as [[Hres Hall]|(r & c & l & Hres & Hl & _)]; [|by eauto].
  destruct (mcc_default_cands b Hinv Hex Hall) as [[l Hl] _].
  by exists 0%nat, 0%nat, l.
Qed.

(** C2.  On a board of the data model with at least one candidate list,
    [find_most_constrained_cell] returns the coordinates of a candidate
    list of smallest length, and every other candidate list of that
    length comes later in row-major order. *)
Theorem find_most_constrained_cell_first b :
  board_inv b → (∃ i j l, cell_at b i j = Some (Cands l)) →
  ∃ r c l, find_most_constrained_cell b = Ok (Z.of_nat r, Z.of_nat c) ∧
    cell_at b r c = Some (Cands l) ∧
    ∀ i j l', cell_at b i j = Some (Cands l') →
      (length l ≤ length l')%nat ∧
      (length l' = length l → (r, c) = (i, j) ∨ rm_lt (r, c) (i, j)).
Proof.
  intros Hinv Hex.
  destruct (find_most_constrained_cell_spec b (proj1 Hinv))
    as [[Hres Hall]|(r & c & l & Hres & Hl & _ & Hmin)].
  - (* no list shorter than nine: the scan kept its default (0, 0) *)
    destruct (mcc_default_cands b Hinv Hex Hall) as [[l Hl] Hnine].
    exists 0%nat, 0%nat, l. split_and!; [done..|]. intros i j l' Hl'.
    rewrite (Hnine _ _ _ Hl), (Hnine _ _ _ Hl'). split; [done|]. intros _.
    unfold rm_lt. simpl. destruct i, j; auto with lia.
  - (* the scan moved to the first of the shortest lists *)
    exists r, c, l. by split_and!.
Qed.

(** ** Counting assigned cells *)

Lemma alter_middle {A} (f : A → A) (l : list A) (i : nat) x :
  l !! i = Some x → ∃ l1 l2, l = l1 ++ x :: l2 ∧ alter f i l = l1 ++ f x :: l2.
Proof.
  intros (l1 & l2 & -> & ->)%list_elem_of_split_length. exists l1, l2. split; [done|].
  by rewrite <-(Nat.add_0_r (length l1)), alter_app_r.
Qed.

Lemma alter_out {A} (f : A → A) (l : list A) (i : nat) :
  l !! i = None → alter f i l = l.
Proof.
  intros Hi. apply list_eq. intros j. destruct (decide (i = j)) as [<-|].
  - by rewrite list_lookup_alter_eq, Hi.
  - by rewrite list_lookup_alter_ne.
Qed.

Lemma filter_alter_length {A} (P : A → Prop) `{∀ x, Decision (P x)} f l i x :
  l !! i = Some x →
  Z.of_nat (length (filter P (alter f i l))) =
    Z.of_nat (length (filter P l)) + indicator (P (f x)) - indicator (P x).
Proof.
  intros (l1 & l2 & -> & ->)%(alter_middle f).
  rewrite !filter_app, !filter_cons, !length_app. unfold indicator.
  repeat case_decide; simpl; lia.
Qed.

Lemma filter_concat_alter_length {A} (P : A → Prop) `{∀ x, Decision (P x)}
    (g : list A → list A) ls i l :
  ls !! i = Some l →
  Z.of_nat (length (filter P (concat (alter g i ls)))) =
    Z.of_nat (length (filter P (concat ls)))
    + Z.of_nat (length (filter P (g l))) - Z.of_nat (length (filter P l)).
Proof.
  intros (l1 & l2 & -> & ->)%(alter_middle g).
  rewrite !concat_app, !concat_cons, !filter_app, !length_app. lia.
Qed.

Lemma fixed_count_alter f i j b :
  fixed_count (mkBoard (size b) (num_nums_placed b) (alter (alter f j) i (rows b))) =
    fixed_count b +
    match cell_at b i j with
    | Some x => indicator (is_fixed (f x)) - indicator (is_fixed x)
    | None => 0
    end.
Proof.
  unfold fixed_count, cell_at. simpl.
  destruct (rows b !! i) as [rw|] eqn:Hi; simpl.
  - rewrite (filter_concat_alter_length _ _ _ _ _ Hi).
    destruct (rw !! j) as [x|] eqn:Hj.
    + rewrite (filter_alter_length _ _ _ _ _ Hj). lia.
    + rewrite (alter_out _ rw j) by done. lia.
  - rewrite (alter_out _ (rows b) i) by done. lia.
Qed.

Lemma is_fixed_remove_if_exists x v : is_fixed (remove_if_exists x v) ↔ is_fixed x.
Proof. destruct x as [w|l]; simpl; [done|by case_decide]. Qed.

Lemma fixed_count_strip_all v ps b : fixed_count (strip_all v ps b) = fixed_count b.
Proof.
  revert b. induction ps as [|[i j] ps IH]; intros b; simpl; [done|].
  rewrite IH. unfold map_cell. rewrite fixed_count_alter.
  destruct (cell_at b i j) as [x|]; [|lia]. unfold indicator.
  pose proof (is_fixed_remove_if_exists x v).
  repeat case_decide; naive_solver lia.
Qed.

(** [update] raises the count by one exactly when the cell it assigns
    held a candidate list. *)
Lemma fixed_count_updated r c v b :
  fixed_count (updated r c v b) =
    fixed_count b +
    match cell_at b r c with
    | Some (Cands _) => 1
    | _ => 0
    end.
Proof.
  unfold updated. rewrite fixed_count_strip_all.
  change (fixed_count (place r c v b)) with
    (fixed_count (mkBoard (size b) (num_nums_placed b)
                    (alter (alter (λ _, Fixed v) c) r (rows b)))).
  rewrite fixed_count_alter. by destruct (cell_at b r c) as [[w|l]|].
Qed.

Lemma update_inv_Ok b r c v b' :
  grid9 b → 0 ≤ r < 9 → 0 ≤ c < 9 → update b r c v = Ok b' →
  b' = updated (Z.to_nat r) (Z.to_nat c) v b.
Proof.
  intros Hb Hr Hc. rewrite <-(Z2Nat.id r) at 1 by lia. rewrite <-(Z2Nat.id c) at 1 by lia.
  rewrite update_updated by (done || lia). by intros [= <-].
Qed.

Lemma seeded_grid9 b : seeded b → grid9 b.
Proof.
  induction 1 as [|b r c v l b' _ IH Hr Hc _ Hu].
  - apply Board_init_inv.
  - rewrite (update_inv_Ok _ _ _ _ _ IH Hr Hc Hu). by apply updated_grid9.
Qed.

(** One [update] of a cell that holds a candidate list keeps
    [num_nums_placed] equal to the number of assigned cells. *)
Lemma update_keeps_count b r c v l b' :
  grid9 b → 0 ≤ r < 9 → 0 ≤ c < 9 →
  get_cell b r c = Ok (Cands l) → update b r c v = Ok b' →
  num_nums_placed b = fixed_count b → num_nums_placed b' = fixed_count b'.
Proof.
  intros Hb Hr Hc Hl Hu Hn. rewrite (update_inv_Ok _ _ _ _ _ Hb Hr Hc Hu).
  rewrite updated_num, fixed_count_updated.
  apply get_cell_Ok in Hl; [|lia..]. rewrite Hl. lia.
Qed.

(** C3, as amended.  On every board built from a fresh one by [update]
    calls in range that each assign a cell still holding a candidate
    list, [num_nums_placed] is the number of assigned cells; and one
    more such call keeps it so. *)
Theorem num_nums_placed_counts b :
  seeded b →
  num_nums_placed b = fixed_count b ∧
  ∀ r c v l b', 0 ≤ r < 9 → 0 ≤ c < 9 →
    get_cell b r c = Ok (Cands l) → update b r c v = Ok b' →
    num_nums_placed b' = fixed_count b'.
Proof.
  intros Hs.
  assert (num_nums_placed b = fixed_count b) as Hn.
  { induction Hs as [|b r c v l b' Hs IH Hr Hc Hl Hu]; [by vm_compute|].
    apply (update_keeps_count b r c v l b'); [by apply seeded_grid9|done..]. }
  split; [done|]. intros r c v l b' Hr Hc Hl Hu.
  apply (update_keeps_count b r c v l b'); [by apply seeded_grid9|done..].
Qed.

(** C3, as stated, fails: assigning the cell (0, 0) twice counts two
    numbers placed where one cell is assigned. *)
Lemma reassignment_miscounts :
  ∃ b1 b2, update Board_init 0 0 1 = Ok b1 ∧ update b1 0 0 2 = Ok b2 ∧
    reachable b2 ∧ num_nums_placed b2 = 2 ∧ fixed_count b2 = 1.
Proof.
  exists (updated 0 0 1 Board_init), (updated 0 0 2 (updated 0 0 1 Board_init)).
  assert (update Board_init 0 0 1 = Ok (updated 0 0 1 Board_init)) as H1
    by (vm_compute; reflexivity).
  assert (update (updated 0 0 1 Board_init) 0 0 2
          = Ok (updated 0 0 2 (updated 0 0 1 Board_init))) as H2
    by (vm_compute; reflexivity).
  split_and!; [done|done| |vm_compute; reflexivity..].
  apply (reachable_update _ 0 0 2 _ (reachable_update _ 0 0 1 _ reachable_init
           ltac:(lia) ltac:(lia) H1) ltac:(lia) ltac:(lia) H2).
Qed.

(** ** The failure test *)

Lemma failure_test_true b :
  failure_test b = true ↔ ∃ i j x, cell_at b i j = Some x ∧ truthy x = false.
Proof.
  unfold failure_test. rewrite existsb_exists. split.
  - intros (rw & Hrw & (x & Hx & Hf)%existsb_exists).
    apply list_elem_of_In, list_elem_of_lookup in Hrw as [i Hi].
    apply list_elem_of_In, list_elem_of_lookup in Hx as [j Hj].
    exists i, j, x. split; [apply cell_at_Some; eauto|by apply negb_true_iff].
  - intros (i & j & x & (rw & Hi & Hj)%cell_at_Some & Hf).
    exists rw. split; [by eapply list_elem_of_In, list_elem_of_lookup_2|].
    apply existsb_exists. exists x.
    split; [by eapply list_elem_of_In, list_elem_of_lookup_2|by apply negb_true_iff].
Qed.

Lemma truthy_false x : truthy x = false ↔ x = Cands [] ∨ x = Fixed 0.
Proof.
  destruct x as [v|l]; simpl.
  - rewrite negb_false_iff, Z.eqb_eq. naive_solver.
  - rewrite negb_false_iff, bool_decide_eq_true. naive_solver.
Qed.

(** C6.  When every assigned number is from 1 to 9, [failure_test] is
    true exactly when some cell holds the empty candidate list. *)
Theorem failure_test_empty_cands b :
  all_cells (on_fixed digit) b →
  failure_test b = true ↔ ∃ i j, cell_at b i j = Some (Cands []).
Proof.
  intros Hfix. rewrite failure_test_true. split.
  - intros (i & j & x & Hx & [->| ->]%truthy_false); [by eauto|].
    apply (proj1 (all_cells_at _ _) Hfix) in Hx. simpl in Hx. unfold digit in Hx. lia.
  - intros (i & j & Hx). exists i, j, (Cands []). by split.
Qed.

(** ** Assigned cells and candidate lists on a 9x9 grid *)

Lemma elem_of_grid b x :
  x ∈ concat (rows b) ↔ ∃ i j, cell_at b i j = Some x.
Proof.
  rewrite list_elem_of_In, in_concat. split.
  - intros (rw & Hrw & Hx).
    apply list_elem_of_In, list_elem_of_lookup in Hrw as [i Hi].
    apply list_elem_of_In, list_elem_of_lookup in Hx as [j Hj].
    exists i, j. apply cell_at_Some. eauto.
  - intros (i & j & (rw & Hi & Hj)%cell_at_Some). exists rw.
    split; by eapply list_elem_of_In, list_elem_of_lookup_2.
Qed.

Lemma concat_length_uniform {A} (ls : list (list A)) n :
  Forall (λ l, length l = n) ls → length (concat ls) = (length ls * n)%nat.
Proof.
  induction 1 as [|l ls Hl _ IH]; simpl; [done|].
  rewrite length_app, IH, Hl. lia.
Qed.

Lemma grid9_length b : grid9 b → length (concat (rows b)) = 81%nat.
Proof.
  intros (_ & Hl & Hr). by rewrite (concat_length_uniform _ 9), Hl.
Qed.

Lemma filter_all {A} (P : A → Prop) `{∀ x, Decision (P x)} (l : list A) :
  Forall P l → filter P l = l.
Proof.
  induction 1 as [|x l Hx _ IH]; [done|].
  by rewrite filter_cons, decide_True, IH.
Qed.

Lemma fixed_count_le b : grid9 b → 0 ≤ fixed_count b ≤ 81.
Proof.
  intros Hb. unfold fixed_count.
  pose proof (length_filter is_fixed (concat (rows b))).
  rewrite grid9_length in *; [lia|done].
Qed.

(** Either all 81 cells are assigned, or a candidate list is left. *)
Lemma fixed_count_cases b :
  grid9 b →
  (fixed_count b = 81 ∧
   ∀ i j, (i < 9)%nat → (j < 9)%nat → ∃ w, cell_at b i j = Some (Fixed w)) ∨
  (fixed_count b < 81 ∧ ∃ i j l, cell_at b i j = Some (Cands l)).
Proof.
  intros Hb. unfold fixed_count.
  destruct (decide (Forall is_fixed (concat (rows b)))) as [Hall|Hex].
  - left. rewrite filter_all, grid9_length by done. split; [done|].
    intros i j Hi Hj. destruct (grid9_cell b i j Hb Hi Hj) as [x Hx].
    rewrite Forall_forall in Hall.
    assert (is_fixed x) as Hfx by (apply Hall, elem_of_grid; eauto).
    destruct x as [w|l]; [by eauto|done].
  - right. apply not_Forall_Exists in Hex; [|apply _].
    apply Exists_exists in Hex as (x & Hin & Hx).
    pose proof (length_filter_lt is_fixed _ _ Hin Hx) as Hlt.
    rewrite grid9_length in Hlt by done. split; [lia|].
    apply elem_of_grid in Hin as (i & j & Hc).
    destruct x as [w|l]; [by destruct Hx|by eauto].
Qed.

(** ** One pass through the loop of [DFS] *)

Lemma for_each_branch curr r c l stack count :
  grid9 curr → (r < 9)%nat → (c < 9)%nat →
  for_each l (branch curr (Z.of_nat r) (Z.of_nat c)) (stack, count) =
    Ok (rev ((λ v, updated r c v curr) <$> l) ++ stack, count + Z.of_nat (length l)).
Proof.
  intros Hb Hr Hc. revert stack count.
  induction l as [|v l IH]; intros stack count; simpl.
  { by rewrite Z.add_0_r. }
  unfold deepcopy. rewrite update_updated, bind_Ok by done. simpl.
  rewrite IH. unfold push. rewrite <-app_assoc. simpl.
  do 2 f_equal. lia.
Qed.

Lemma expand_branches curr r c l stack count :
  grid9 curr →
  find_most_constrained_cell curr = Ok (Z.of_nat r, Z.of_nat c) →
  cell_at curr r c = Some (Cands l) →
  expand curr (stack, count) =
    Ok (rev ((λ v, updated r c v curr) <$> l) ++ stack, count + Z.of_nat (length l)).
Proof.
  intros Hb Hmcc Hl. unfold expand. rewrite Hmcc, bind_Ok. simpl.
  rewrite (get_cell_nat _ _ _ _ Hl), bind_Ok.
  destruct (cell_at_lt _ _ _ _ Hb Hl). by apply for_each_branch.
Qed.

Lemma DFS_iter_nil count : DFS_iter [] count = Return None count.
Proof. reflexivity. Qed.

Lemma DFS_iter_goal curr stack count :
  goal_test curr = true → DFS_iter (curr :: stack) count = Return (Some curr) count.
Proof. intros Hg. unfold DFS_iter. simpl. by rewrite Hg. Qed.

Lemma DFS_iter_failure curr stack count :
  goal_test curr = false → failure_test curr = true →
  DFS_iter (curr :: stack) count = Continue stack count.
Proof. intros Hg Hf. unfold DFS_iter. simpl. by rewrite Hg, Hf. Qed.

Lemma DFS_iter_expand curr stack count :
  goal_test curr = false → failure_test curr = false →
  DFS_iter (curr :: stack) count =
    match expand curr (stack, count) with
    | Ok (stack, count) => Continue stack count
    | Raise e => Throw e
    end.
Proof. intros Hg Hf. unfold DFS_iter. simpl. by rewrite Hg, Hf. Qed.

(** A board of the data model that is not a goal has a candidate list. *)
Lemma board_ok_cands b :
  board_ok b → goal_test b = false → ∃ i j l, cell_at b i j = Some (Cands l).
Proof.
  intros [(Hb & _) Hn] Hg. unfold goal_test in Hg. apply bool_decide_eq_false in Hg.
  destruct (fixed_count_cases b Hb) as [[H81 _]|[_ Hex]]; [|done].
  destruct Hb as (Hs & _). rewrite Hs, Hn in Hg. lia.
Qed.

Lemma updated_ok r c v l b :
  board_ok b → cell_at b r c = Some (Cands l) → digit v → board_ok (updated r c v b).
Proof.
  intros [Hinv Hn] Hl Hv. pose proof Hinv as (Hb & _).
  destruct (cell_at_lt _ _ _ _ Hb Hl). split; [by apply updated_inv|].
  rewrite updated_num, fixed_count_updated, Hl. lia.
Qed.

(** The pass through the loop for a board of the data model that is
    neither a goal nor a failure. *)
Lemma DFS_iter_children curr stack count :
  board_ok curr → goal_test curr = false → failure_test curr = false →
  ∃ r c l,
    find_most_constrained_cell curr = Ok (Z.of_nat r, Z.of_nat c) ∧
    cell_at curr r c = Some (Cands l) ∧
    DFS_iter (curr :: stack) count =
      Continue (rev ((λ v, updated r c v curr) <$> l) ++ stack)
               (count + Z.of_nat (length l)).
Proof.
  intros Hok Hg Hf. pose proof Hok as [Hinv _]. pose proof Hinv as (Hb & _).
  destruct (mcc_returns_cands curr Hinv (board_ok_cands _ Hok Hg))
    as (r & c & l & Hmcc & Hl).
  exists r, c, l. split_and!; [done..|].
  rewrite DFS_iter_expand by done. by rewrite (expand_branches curr r c l).
Qed.

(** C5.  A popped board of the data model that is neither a goal nor a
    failure has its most constrained cell [(r, c)] holding a candidate
    list [l] in ascending order, and the pass pushes, for each number of
    [l] in that order, one copy of the board updated with that number
    at [(r, c)]: the last one ends on top. *)
Theorem DFS_iter_branches curr stack count :
  board_ok curr → goal_test curr = false → failure_test curr = false →
  ∃ r c l children,
    find_most_constrained_cell curr = Ok (r, c) ∧
    get_cell curr r c = Ok (Cands l) ∧
    StronglySorted Z.lt l ∧ Forall digit l ∧
    Forall2 (λ v child, update (deepcopy curr) r c v = Ok child) l children ∧
    DFS_iter (curr :: stack) count =
      Continue (rev children ++ stack) (count + Z.of_nat (length children)).
Proof.
  intros Hok Hg Hf. pose proof Hok as [Hinv _]. pose proof Hinv as (Hb & _).
  destruct (DFS_iter_children curr stack count Hok Hg Hf) as (r & c & l & Hmcc & Hl & Hit).
  destruct (board_inv_cands _ _ _ _ Hinv Hl) as [Hsorted Hdigit].
  destruct (cell_at_lt _ _ _ _ Hb Hl) as [Hr Hc].
  exists (Z.of_nat r), (Z.of_nat c), l, ((λ v, updated r c v curr) <$> l).
  split_and!; [done|by apply get_cell_nat|done..| |].
  - apply Forall2_fmap_r, Forall_Forall2_diag, Forall_forall. intros v _.
    by apply update_updated.
  - by rewrite length_fmap.
Qed.

(** ** Running the loop *)

Lemma DFS_iter_Return_None stack count count' :
  DFS_iter stack count = Return None count' ↔ stack = [] ∧ count' = count.
Proof.
  destruct stack as [|curr stack]; [rewrite DFS_iter_nil; naive_solver|].
  split; [|by intros [? _]].
  destruct (goal_test curr) eqn:Hg; [by rewrite DFS_iter_goal|].
  destruct (failure_test curr) eqn:Hf; [by rewrite DFS_iter_failure|].
  rewrite DFS_iter_expand by done.
  by destruct (expand curr (stack, count)) as [[??]|].
Qed.

Lemma DFS_iter_Continue_goal curr stack count stack' count' :
  DFS_iter (curr :: stack) count = Continue stack' count' → goal_test curr = false.
Proof.
  destruct (goal_test curr) eqn:Hg; [|done]. by rewrite DFS_iter_goal.
Qed.

Lemma DFS_iter_Return_Some stack count b count' :
  DFS_iter stack count = Return (Some b) count' →
  ∃ rest, stack = b :: rest ∧ goal_test b = true ∧ count' = count.
Proof.
  destruct stack as [|curr stack]; [done|].
  destruct (goal_test curr) eqn:Hg.
  { rewrite DFS_iter_goal by done. intros [= <- <-]. eauto. }
  destruct (failure_test curr) eqn:Hf; [by rewrite DFS_iter_failure|].
  rewrite DFS_iter_expand by done.
  by destruct (expand curr (stack, count)) as [[??]|].
Qed.

(** The loop hands back a board only when that board was popped and
    passed the goal test. *)
Lemma DFS_loop_Some fuel stack count b count' :
  DFS_loop fuel stack count = Returned (Some b) count' → goal_test b = true.
Proof.
  revert stack count. induction fuel as [|fuel IH]; intros stack count; simpl; [done|].
  destruct (DFS_iter stack count) as [s c|[b'|] c|e] eqn:Hit; [by eauto| | |done].
  - intros [= -> ->]. by apply DFS_iter_Return_Some in Hit as (? & _ & ? & _).
  - done.
Qed.

Lemma DFS_loop_None_run fuel stack count count' :
  DFS_loop fuel stack count = Returned None count' →
  ∃ n, (n < fuel)%nat ∧ DFS_run n stack count = Some ([], count') ∧
    ∀ k curr rest c, (k < n)%nat → DFS_run k stack count = Some (curr :: rest, c) →
      goal_test curr = false.
Proof.
  revert stack count. induction fuel as [|fuel IH]; intros stack count; simpl; [done|].
  destruct (DFS_iter stack count) as [s c|[b'|] c|e] eqn:Hit; [|done| |done].
  - intros (n & Hn & Hrun & Hpop)%IH. exists (S n). split_and!; [lia|by simpl; rewrite Hit|].
    intros [|k] curr rest c0 Hk; simpl.
    + intros [= -> ->]. by eapply DFS_iter_Continue_goal.
    + rewrite Hit. apply Hpop. lia.
  - intros [= <-]. apply DFS_iter_Return_None in Hit as [-> ->].
    exists 0%nat. split_and!; [lia|done|]. intros k ???. lia.
Qed.

Lemma DFS_run_None_loop n fuel stack count count' :
  (n < fuel)%nat → DFS_run n stack count = Some ([], count') →
  DFS_loop fuel stack count = Returned None count'.
Proof.
  revert fuel stack count.
  induction n as [|n IH]; intros [|fuel] stack count Hn; simpl; try lia.
  - by intros [= -> ->].
  - destruct (DFS_iter stack count) as [s c| |]; [|done..].
    apply IH. lia.
Qed.

(** C7.  [DFS] returns [None] exactly when its loop, started on the
    given board, reaches the empty stack after passes that all continued,
    none of the boards popped on the way passing the goal test; [None]
    is a returned value: the outcome is not a raised exception. *)
Theorem DFS_returns_None fuel state count :
  (DFS fuel state = Returned None count ↔
   ∃ n, (n < fuel)%nat ∧ DFS_run n (Stack_new [state]) 0 = Some ([], count) ∧
     ∀ k curr rest c, (k < n)%nat →
       DFS_run k (Stack_new [state]) 0 = Some (curr :: rest, c) →
       goal_test curr = false) ∧
  (DFS fuel state = Returned None count → ∀ e, DFS fuel state ≠ Raised e).
Proof.
  unfold DFS. split; [split|].
  - apply DFS_loop_None_run.
  - intros (n & Hn & Hrun & _). by eapply DFS_run_None_loop.
  - intros -> e. discriminate.
Qed.

(** A board that passes the goal test comes back at the first pop, with
    no copy made. *)
Lemma DFS_goal fuel state :
  goal_test state = true → DFS (S fuel) state = Returned (Some state) 0.
Proof. intros Hg. unfold DFS. simpl. by rewrite DFS_iter_goal. Qed.

(** More fuel does not change an outcome already reached. *)
Lemma DFS_loop_mono fuel fuel' stack count :
  (fuel ≤ fuel')%nat → DFS_loop fuel stack count ≠ OutOfFuel →
  DFS_loop fuel' stack count = DFS_loop fuel stack count.
Proof.
  revert fuel' stack count.
  induction fuel as [|fuel IH]; intros [|fuel'] stack count Hle; simpl; try done; try lia.
  destruct (DFS_iter stack count) as [s c| |]; [|done..]. apply IH. lia.
Qed.

(** ** Two equal numbers in one row *)

Lemma Forall2_NoDup_inj {A B} (R : A → B → Prop) xs ys :
  Forall2 R xs ys → NoDup xs →
  (∀ x x' y, x ∈ xs → x' ∈ xs → R x y → R x' y → x = x') →
  NoDup ys.
Proof.
  induction 1 as [|x y xs ys Hxy Hrest IH]; intros Hnd Hinj; [constructor|].
  apply NoDup_cons in Hnd as [Hx Hnd]. constructor.
  - intros Hy. apply list_elem_of_lookup in Hy as [k Hk].
    destruct (Forall2_lookup_r _ _ _ _ _ Hrest Hk) as (x' & Hx' & HR).
    apply list_elem_of_lookup_2 in Hx'.
    assert (x = x') as <-; [|done].
    eapply Hinj; [apply list_elem_of_here|by apply list_elem_of_further|done..].
  - apply IH; [done|]. intros x1 x2 y' H1 H2. apply Hinj; by apply list_elem_of_further.
Qed.

(** Nine distinct numbers from 1 to 9 include every such number. *)
Lemma nine_digits_full (ws : list Z) v :
  NoDup ws → Forall digit ws → length ws = 9%nat → digit v → v ∈ ws.
Proof.
  intros Hnd Hd Hlen Hv.
  assert (ws ≡ₚ seqZ 1 9) as ->.
  { apply submseteq_length_Permutation; [|rewrite length_seqZ; lia].
    apply NoDup_submseteq; [done|]. intros x Hx. rewrite Forall_forall in Hd.
    apply elem_of_seqZ. specialize (Hd x Hx). unfold digit in Hd. lia. }
  apply elem_of_seqZ. unfold digit in Hv. lia.
Qed.

Lemma other_rows_length r :
  (r < 9)%nat → length (filter (λ i, i ≠ r) (seq 0 9)) = 8%nat.
Proof. intros Hr. below9 r; reflexivity. Qed.

Lemma free_columns_length c1 c2 :
  (c1 < 9)%nat → (c2 < 9)%nat → c1 ≠ c2 →
  length (filter (λ j, j ≠ c1 ∧ j ≠ c2) (seq 0 9)) = 7%nat.
Proof. intros Hc1 Hc2 Hne. below9 c1; below9 c2; done || reflexivity. Qed.

Section doomed.
Context (b : Board) (r c1 c2 : nat) (v : Z).
Hypothesis Hdoom : doomed b r c1 c2 v.
Hypothesis Hfull : ∀ i j, (i < 9)%nat → (j < 9)%nat → ∃ w, cell_at b i j = Some (Fixed w).

(** A completely assigned row other than [r] holds [v] somewhere. *)
Lemma doomed_row_has i :
  (i < 9)%nat → i ≠ r → ∃ j, cell_at b i j = Some (Fixed v).
Proof using Hdoom Hfull.
  intros Hi Hir. destruct Hdoom as ([Hinv _] & (_ & Hv1 & _) & Hlines).
  assert (Forall (λ j, ∃ w, cell_at b i j = Some (Fixed w)) (seq 0 9)) as Hrow.
  { apply Forall_forall. intros j Hj%elem_of_seq. apply Hfull; lia. }
  apply Forall_exists_Forall2_l in Hrow as [ws Hws].
  assert (v ∈ ws) as Hin.
  { apply nine_digits_full.
    - eapply Forall2_NoDup_inj; [exact Hws|apply NoDup_seq|].
      intros j j' w _ _ Hj Hj'.
      destruct (Hlines i j i j' w Hj Hj') as [[= ->]|(-> & _)]; auto. done.
    - apply Forall_forall. intros w Hw. apply list_elem_of_lookup in Hw as [k Hk].
      destruct (Forall2_lookup_r _ _ _ _ _ Hws Hk) as (j & _ & Hj).
      by eapply board_inv_fixed.
    - by rewrite <-(Forall2_length _ _ _ Hws), length_seq.
    - by eapply board_inv_fixed. }
  apply list_elem_of_lookup in Hin as [k Hk].
  destruct (Forall2_lookup_r _ _ _ _ _ Hws Hk) as (j & _ & Hj). eauto.
Qed.

(** So the eight other rows would need eight columns for [v], where
    seven are left. *)
Lemma doomed_not_full : False.
Proof using Hdoom Hfull.
  pose proof Hdoom as ([Hinv _] & (Hc12 & Hv1 & Hv2) & Hlines).
  pose proof Hinv as (Hb & _).
  destruct (cell_at_lt _ _ _ _ Hb Hv1) as [Hr Hc1].
  destruct (cell_at_lt _ _ _ _ Hb Hv2) as [_ Hc2].
  set (others := filter (λ i, i ≠ r) (seq 0 9)).
  set (free := filter (λ j, j ≠ c1 ∧ j ≠ c2) (seq 0 9)).
  assert (Forall (λ i, ∃ j, cell_at b i j = Some (Fixed v)) others) as Hrows.
  { apply Forall_forall. intros i [Hir Hi%elem_of_seq]%list_elem_of_filter.
    apply doomed_row_has; [lia|done]. }
  apply Forall_exists_Forall2_l in Hrows as [js Hjs].
  assert (NoDup js) as Hnd.
  { eapply Forall2_NoDup_inj; [exact Hjs|apply NoDup_filter, NoDup_seq|].
    intros i i' j [Hir _]%list_elem_of_filter _ Hi Hi'.
    destruct (Hlines i j i' j v Hi Hi') as [[= ->]|(-> & _)]; auto. done. }
  assert (js ⊆+ free) as Hsub.
  { apply NoDup_submseteq; [done|]. intros j Hj.
    apply list_elem_of_lookup in Hj as [k Hk].
    destruct (Forall2_lookup_r _ _ _ _ _ Hjs Hk) as (i & Hi & Hij).
    apply list_elem_of_lookup_2, list_elem_of_filter in Hi as [Hir _].
    destruct (cell_at_lt _ _ _ _ Hb Hij) as [_ Hj9].
    apply list_elem_of_filter. split; [|apply elem_of_seq; lia]. split; intros ->.
    - destruct (Hlines i c1 r c1 v Hij Hv1) as [[= ->]|(-> & _)]; auto.
    - destruct (Hlines i c2 r c2 v Hij Hv2) as [[= ->]|(-> & _)]; auto. }
  apply submseteq_length in Hsub.
  rewrite <-(Forall2_length _ _ _ Hjs) in Hsub.
  pose proof (other_rows_length r Hr). pose proof (free_columns_length c1 c2 Hc1 Hc2 Hc12).
  subst others free. lia.
Qed.
End doomed.

Lemma doomed_goal_test b r c1 c2 v : doomed b r c1 c2 v → goal_test b = false.
Proof.
  intros Hd. apply bool_decide_eq_false. intros Hn.
  pose proof Hd as ([(Hb & _) Hcnt] & _).
  destruct (fixed_count_cases b Hb) as [[_ Hfull]|[Hlt _]].
  - by eapply doomed_not_full.
  - destruct Hb as (Hs & _). rewrite Hs, Hcnt in Hn. lia.
Qed.

Lemma doomed_child b r c1 c2 v i j l x :
  doomed b r c1 c2 v → cell_at b i j = Some (Cands l) → x ∈ l →
  doomed (updated i j x b) r c1 c2 v ∧ (todo (updated i j x b) < todo b)%nat.
Proof.
  intros (Hok & (Hc12 & Hv1 & Hv2) & Hlines) Hl Hx.
  pose proof Hok as [Hinv _]. pose proof Hinv as (Hb & _).
  assert (digit x) as Hdx.
  { destruct (board_inv_cands _ _ _ _ Hinv Hl) as [_ Hd].
    rewrite Forall_forall in Hd. auto. }
  unfold doomed, row_twin. split; [split_and!|].
  - by eapply updated_ok.
  - done.
  - apply cell_at_updated_Fixed; [done|]. intros [= -> ->]. by rewrite Hv1 in Hl.
  - apply cell_at_updated_Fixed; [done|]. intros [= -> ->]. by rewrite Hv2 in Hl.
  - intros i1 j1 i2 j2 w H1 H2 Hline.
    apply cell_at_updated_inv in H1
      as [[[= <- <-] Hw1]|[Hne1 [(? & [= <-] & H1)|(? & [=] & _)]]];
    apply cell_at_updated_inv in H2
      as [[[= <- <-] Hw2]|[Hne2 [(? & [= <-] & H2)|(? & [=] & _)]]].
    + by left.
    + exfalso. injection Hw1 as ->.
      apply (board_inv_clash b i2 j2 i j x l Hinv H2 Hl); [|done].
      unfold peer. destruct Hline; auto.
    + exfalso. injection Hw2 as ->.
      apply (board_inv_clash b i1 j1 i j x l Hinv H1 Hl); [|done].
      unfold peer. destruct Hline; auto.
    + by apply (Hlines i1 j1 i2 j2 w).
  - unfold todo. rewrite fixed_count_updated, Hl.
    pose proof (fixed_count_le _ (updated_grid9 i j x b Hb)) as Hle.
    rewrite fixed_count_updated, Hl in Hle. lia.
Qed.

Lemma cell_at_Board_init i j :
  (i < 9)%nat → (j < 9)%nat → cell_at Board_init i j = Some (Cands (seqZ 1 9)).
Proof.
  intros Hi Hj. apply cell_at_Some. exists (replicate 9 (Cands (seqZ 1 9))).
  split; by apply lookup_replicate_2.
Qed.

Lemma Board_init_ok : board_ok Board_init.
Proof. split; [apply Board_init_inv|by vm_compute]. Qed.

Lemma doomed_seeds r c1 c2 v :
  (r < 9)%nat → (c1 < 9)%nat → (c2 < 9)%nat → c1 ≠ c2 → digit v →
  doomed (updated r c2 v (updated r c1 v Board_init)) r c1 c2 v.
Proof.
  intros Hr Hc1 Hc2 Hne Hv.
  pose proof (cell_at_Board_init r c1 Hr Hc1) as H1.
  assert (board_ok (updated r c1 v Board_init)) as Hok1
    by (eapply updated_ok; [apply Board_init_ok|done..]).
  assert (∃ l, cell_at (updated r c1 v Board_init) r c2 = Some (Cands l)) as [l2 H2].
  { eexists. apply cell_at_updated_Cands; [by apply cell_at_Board_init|naive_solver]. }
  assert (cell_at (updated r c1 v Board_init) r c1 = Some (Fixed v)) as H1'.
  { by rewrite cell_at_updated, decide_True, H1. }
  unfold doomed, row_twin. split_and!.
  - by eapply updated_ok.
  - done.
  - apply cell_at_updated_Fixed; [done|naive_solver].
  - by rewrite cell_at_updated, decide_True, H2.
  - assert (∀ i j w, cell_at (updated r c2 v (updated r c1 v Board_init)) i j
                     = Some (Fixed w) → i = r ∧ (j = c1 ∨ j = c2)) as Honly.
    { intros i j w Hw.
      apply cell_at_updated_inv in Hw
        as [[[= <- <-] _]|[_ [(? & [= <-] & Hw)|(? & [=] & _)]]]; [by auto|].
      apply cell_at_updated_inv in Hw
        as [[[= <- <-] _]|[_ [(? & [= <-] & Hw)|(? & [=] & _)]]]; [by auto|].
      destruct (cell_at_lt _ _ _ _ (proj1 Board_init_inv) Hw).
      by rewrite cell_at_Board_init in Hw. }
    intros i j i' j' w Hw Hw' _.
    destruct (Honly _ _ _ Hw) as [-> Hj], (Honly _ _ _ Hw') as [-> Hj'].
    destruct Hj as [-> | ->], Hj' as [-> | ->]; naive_solver.
Qed.

(** The search below a doomed board uses up finitely many passes and
    leaves the rest of the stack as it found it. *)
Lemma doomed_subtree k b r c1 c2 v rest count :
  doomed b r c1 c2 v → (todo b < k)%nat →
  ∃ n count', ∀ fuel, DFS_loop (n + fuel) (b :: rest) count = DFS_loop fuel rest count'.
Proof.
  revert b rest count. induction k as [|k IH]; intros b rest count Hd Hk; [lia|].
  pose proof (doomed_goal_test _ _ _ _ _ Hd) as Hg.
  destruct (failure_test b) eqn:Hf.
  { exists 1%nat, count. intros fuel. simpl. by rewrite DFS_iter_failure. }
  pose proof Hd as (Hok & _).
  destruct (DFS_iter_children b rest count Hok Hg Hf) as (i & j & l & _ & Hl & Hit).
  set (cs := (λ x, updated i j x b) <$> l) in *.
  assert (Forall (λ ch, doomed ch r c1 c2 v ∧ (todo ch < k)%nat) (rev cs)) as Hall.
  { apply Forall_rev, Forall_fmap, Forall_forall. intros x Hx. simpl.
    destruct (doomed_child _ _ _ _ _ _ _ _ _ Hd Hl Hx). split; [done|lia]. }
  assert (∀ count0, ∃ n count', ∀ fuel,
            DFS_loop (n + fuel) (rev cs ++ rest) count0 = DFS_loop fuel rest count')
    as Hchildren.
  { clear Hit. induction Hall as [|ch chs [Hch Hlt] _ IHchs]; intros count0.
    - by exists 0%nat, count0.
    - destruct (IH ch (chs ++ rest) count0 Hch Hlt) as (n1 & count1 & H1).
      destruct (IHchs count1) as (n2 & count2 & H2).
      exists (n1 + n2)%nat, count2. intros fuel.
      by rewrite <-Nat.add_assoc, <-app_comm_cons, H1, H2. }
  destruct (Hchildren (count + Z.of_nat (length l))) as (n & count' & Hn).
  exists (S n), count'. intros fuel. simpl. by rewrite Hit, Hn.
Qed.

(** C4.  A fresh board seeded by [update] with the same number [v] at two
    cells of one row makes [DFS] return [None]: with enough fuel the
    loop empties its stack, and no board it pops passes the goal test. *)
Theorem DFS_row_twin_fails r c1 c2 v b1 b2 :
  0 ≤ r < 9 → 0 ≤ c1 < 9 → 0 ≤ c2 < 9 → c1 ≠ c2 → 1 ≤ v ≤ 9 →
  update Board_init r c1 v = Ok b1 → update b1 r c2 v = Ok b2 →
  ∃ n count, ∀ fuel, (n ≤ fuel)%nat → DFS fuel b2 = Returned None count.
Proof.
  intros Hr Hc1 Hc2 Hne Hv H1 H2.
  apply update_inv_Ok in H1 as ->; [|apply Board_init_inv|done..].
  apply update_inv_Ok in H2 as ->; [|by apply updated_grid9, Board_init_inv|done..].
  assert (doomed (updated (Z.to_nat r) (Z.to_nat c2) v
                    (updated (Z.to_nat r) (Z.to_nat c1) v Board_init))
            (Z.to_nat r) (Z.to_nat c1) (Z.to_nat c2) v) as Hd
    by (apply doomed_seeds; (done || lia)).
  destruct (doomed_subtree _ _ _ _ _ _ [] 0 Hd (Nat.lt_succ_diag_r _))
    as (n & count & Hn).
  exists (S n), count. intros fuel Hfuel. unfold DFS. simpl Stack_new.
  replace fuel with (n + S (fuel - S n))%nat by lia. by rewrite Hn.
Qed.

(** * The store layer *)

(** ** Heaps that keep their old objects *)

Lemma keeps_refl n h : Store.keeps n h h.
Proof. by split. Qed.

Lemma keeps_trans n h1 h2 h3 :
  Store.keeps n h1 h2 → Store.keeps n h2 h3 → Store.keeps n h1 h3.
Proof.
  intros [Hl1 H1] [Hl2 H2]. split; [lia|]. intros l Hl. by rewrite H2, H1.
Qed.

Lemma keeps_weaken n n' h h' :
  (n' ≤ n)%nat → Store.keeps n h h' → Store.keeps n' h h'.
Proof. intros Hn [Hl H]. split; [done|]. intros l Hl'. apply H. lia. Qed.

Lemma closed_length h : Store.closed (length h) h.
Proof.
  split; [done|]. intros l o Hl Ho. apply lookup_lt_Some in Ho. lia.
Qed.

(** ** Rules for [above] *)

Section above.
Context (n : nat).

Lemma above_ret {A} (Q : A → Prop) (a : A) : Q a → Store.above n Q (mret a).
Proof.
  intros Ha h res h' Hc [= <- <-]. split_and!; [done|apply keeps_refl|].
  by intros ? [= <-].
Qed.

Lemma above_raise {A} (Q : A → Prop) e : Store.above n Q (Store.raise e).
Proof.
  intros h res h' Hc [= <- <-]. split_and!; [done|apply keeps_refl|done].
Qed.

Lemma above_lift {A} (Q : A → Prop) (r : result A) :
  (∀ a, r = Ok a → Q a) → Store.above n Q (Store.lift r).
Proof.
  intros Hr h res h' Hc [= <- <-]. split_and!; [done|apply keeps_refl|done].
Qed.

Lemma above_bind {A B} (Q : A → Prop) (Q' : B → Prop)
    (m : Store.M A) (f : A → Store.M B) :
  Store.above n Q m → (∀ a, Q a → Store.above n Q' (f a)) →
  Store.above n Q' (m ≫= f).
Proof.
  intros Hm Hf h res h' Hc. unfold mbind, Store.M_bind.
  destruct (m h) as [[a|e] h1] eqn:Hmh.
  - destruct (Hm _ _ _ Hc Hmh) as (Hc1 & Hk1 & Ha). intros Hfa.
    destruct (Hf a (Ha a eq_refl) _ _ _ Hc1 Hfa) as (Hc2 & Hk2 & Hb).
    split_and!; [done|by eapply keeps_trans|done].
  - destruct (Hm _ _ _ Hc Hmh) as (Hc1 & Hk1 & _). intros [= <- <-]. done.
Qed.

Lemma above_weaken {A} (Q Q' : A → Prop) (m : Store.M A) :
  Store.above n Q m → (∀ a, Q a → Q' a) → Store.above n Q' m.
Proof.
  intros Hm HQ h res h' Hc Hmh. destruct (Hm _ _ _ Hc Hmh) as (? & ? & Ha).
  split_and!; [done..|]. intros a ->. by apply HQ, Ha.
Qed.

Lemma above_for_each {A S} (I : S → Prop) (xs : list A)
    (body : A → S → Store.M S) s :
  I s → (∀ x s, x ∈ xs → I s → Store.above n I (body x s)) →
  Store.above n I (Store.for_each xs body s).
Proof.
  revert s. induction xs as [|x xs IH]; intros s Hs Hbody; simpl.
  - by apply above_ret.
  - eapply above_bind; [apply Hbody; [apply list_elem_of_here|done]|].
    intros s' Hs'. apply IH; [done|]. intros y s'' Hy.
    apply Hbody. by apply list_elem_of_further.
Qed.

Lemma above_load l :
  Store.above n (λ o, (n ≤ l)%nat → Store.obj_above n o) (Store.load l).
Proof.
  intros h res h' Hc. unfold Store.load. cbv beta.
  destruct (h !! l) as [o|] eqn:Ho; intros [= <- <-];
    (split_and!; [done|apply keeps_refl|]); [|done].
  intros ? [= <-] Hl. by apply (proj2 Hc l).
Qed.

Lemma above_store l o :
  (n ≤ l)%nat → Store.obj_above n o → Store.above n (λ _, True) (Store.store l o).
Proof.
  intros Hl Ho h res h' [Hn Hc] [= <- <-]. split_and!; [split|split|done].
  - by rewrite length_insert.
  - intros l' o' Hl' Ho'. destruct (decide (l = l')) as [<-|Hne].
    + apply list_lookup_insert_Some in Ho' as [(_ & <- & _)|[? _]]; done.
    + rewrite list_lookup_insert_ne in Ho' by done. by eapply Hc.
  - by rewrite length_insert.
  - intros l' Hl'. apply list_lookup_insert_ne. lia.
Qed.

Lemma above_alloc o :
  Store.obj_above n o → Store.above n (λ l, n ≤ l)%nat (Store.alloc o).
Proof.
  intros Ho h res h' [Hn Hc] [= <- <-]. split_and!; [split|split|].
  - rewrite length_app. lia.
  - intros l' o' Hl' Ho'. apply lookup_app_Some in Ho' as [Ho'|[_ Ho']].
    + by eapply Hc.
    + apply list_lookup_singleton_Some in Ho' as [_ <-]. done.
  - rewrite length_app. lia.
  - intros l' Hl'. apply lookup_app_l. lia.
  - by intros ? [= <-].
Qed.

Lemma above_load_ints l : Store.above n (λ _, True) (Store.load_ints l).
Proof.
  eapply above_bind; [apply above_load|]. intros [items|?|?|???|] _;
    (by apply above_ret) || apply above_raise.
Qed.

Lemma above_load_row l :
  Store.above n (λ cells, (n ≤ l)%nat → Forall (Store.slot_above n) cells)
    (Store.load_row l).
Proof.
  eapply above_bind; [apply above_load|]. intros [?|cells|?|???|] Ho;
    (by apply above_ret) || apply above_raise.
Qed.

Lemma above_load_grid l :
  Store.above n (λ rws, (n ≤ l)%nat → Forall (λ l, n ≤ l)%nat rws)
    (Store.load_grid l).
Proof.
  eapply above_bind; [apply above_load|]. intros [?|?|rws|???|] Ho;
    (by apply above_ret) || apply above_raise.
Qed.

Lemma above_load_board l :
  Store.above n (λ b, (n ≤ l)%nat → (n ≤ b.2)%nat) (Store.load_board l).
Proof.
  eapply above_bind; [apply above_load|]. intros [?|?|?|sz p g|] Ho;
    (by apply above_ret) || apply above_raise.
Qed.
End above.

Lemma getitem_elem_of {A} (l : list A) i x : getitem l i = Ok x → x ∈ l.
Proof.
  unfold getitem. destruct (index_of (length l) i) as [k|]; [|done]. simpl.
  destruct (l !! k) as [y|] eqn:Hk; intros [= <-]. by eapply list_elem_of_lookup_2.
Qed.

Lemma setitem_Forall {A} (P : A → Prop) (l : list A) i x l' :
  setitem l i x = Ok l' → Forall P l → P x → Forall P l'.
Proof.
  unfold setitem. destruct (index_of (length l) i) as [k|]; [|done]. simpl.
  intros [= <-] Hl Hx. by apply Forall_insert.
Qed.

(** ** The methods of a board from [n] on write from [n] on *)

Section above_methods.
Context (n : nat).

Lemma above_get_row self i :
  Store.above n (λ rl, (n ≤ self)%nat → (n ≤ rl)%nat) (Store.get_row self i).
Proof.
  eapply above_bind; [apply above_load_board|]. intros [[sz p] g] Hg. simpl in *.
  eapply above_bind; [apply above_load_grid|]. intros rws Hrws.
  apply above_lift. intros rl Hrl%getitem_elem_of Hself.
  specialize (Hrws (Hg Hself)). rewrite Forall_forall in Hrws. auto.
Qed.

Lemma above_get_cell self i j :
  Store.above n (λ c, (n ≤ self)%nat → Store.slot_above n c) (Store.get_cell self i j).
Proof.
  eapply above_bind; [apply above_get_row|]. intros rl Hrl.
  eapply above_bind; [apply above_load_row|]. intros cells Hcells.
  apply above_lift. intros c Hc%getitem_elem_of Hself.
  specialize (Hcells (Hrl Hself)). rewrite Forall_forall in Hcells. auto.
Qed.

Lemma above_get_size self : Store.above n (λ _, True) (Store.get_size self).
Proof.
  eapply above_bind; [apply above_load_board|]. intros [[sz p] g] _.
  by apply above_ret.
Qed.

Lemma above_remove_if_exists c v :
  Store.slot_above n c → Store.above n (λ _, True) (Store.remove_if_exists c v).
Proof.
  intros Hc. destruct c as [w|l]; simpl; [by apply above_ret|].
  eapply above_bind; [apply above_load_ints|]. intros items _.
  case_decide; [by apply above_store|by apply above_ret].
Qed.

Lemma above_remove_at self i j v :
  (n ≤ self)%nat → Store.above n (λ _, True) (Store.remove_at self i j v).
Proof.
  intros Hself. eapply above_bind; [apply above_get_cell|]. intros c Hc.
  by apply above_remove_if_exists, Hc.
Qed.

Lemma above_update self row column assignment :
  (n ≤ self)%nat →
  Store.above n (λ _, True) (Store.update self row column assignment).
Proof.
  intros Hself. unfold Store.update.
  eapply above_bind; [apply above_get_row|]. intros rl Hrl.
  eapply above_bind; [apply above_load_row|]. intros cells Hcells.
  eapply (above_bind _ (Forall (Store.slot_above n))).
  { apply above_lift. intros cells' Hset.
    eapply setitem_Forall; [done|by apply Hcells, Hrl|done]. }
  intros cells' Hcells'.
  eapply above_bind; [by apply above_store; [apply Hrl|]|]. intros _ _.
  eapply above_bind; [apply above_load_board|]. intros [[sz p] g] Hg. simpl in *.
  eapply above_bind; [by apply above_store; [|apply Hg]|]. intros _ _.
  eapply above_bind; [apply above_get_size|]. intros size _.
  eapply above_bind.
  { apply (above_for_each _ (λ _, True)); [done|]. intros i [] _ _.
    eapply above_bind; [by apply above_remove_at|]. intros _ _.
    by apply above_remove_at. }
  intros _ _.
  eapply (above_bind _ (λ _, True)); [by apply above_lift|]. intros coords _.
  apply (above_for_each _ (λ _, True)); [done|]. intros [i j] [] _ _.
  by apply above_remove_at.
Qed.

Lemma above_goal_test self : Store.above n (λ _, True) (Store.goal_test self).
Proof.
  eapply above_bind; [apply above_load_board|]. intros [[sz p] g] _.
  by apply above_ret.
Qed.

Lemma above_falsy c : Store.above n (λ _, True) (Store.falsy c).
Proof.
  destruct c as [v|l]; simpl; [by apply above_ret|].
  eapply above_bind; [apply above_load_ints|]. intros items _. by apply above_ret.
Qed.

Lemma above_failure_test self : Store.above n (λ _, True) (Store.failure_test self).
Proof.
  eapply above_bind; [apply above_load_board|]. intros [[sz p] g] _.
  eapply above_bind; [apply above_load_grid|]. intros rws _.
  apply (above_for_each _ (λ _, True)); [done|]. intros rl [|] _ _.
  { by apply above_ret. }
  eapply above_bind; [apply above_load_row|]. intros cells _.
  apply (above_for_each _ (λ _, True)); [done|]. intros c [|] _ _.
  - by apply above_ret.
  - apply above_falsy.
Qed.

Lemma above_mcc_visit self i j st :
  Store.above n (λ _, True) (Store.mcc_visit self i j st).
Proof.
  destruct st as [[mini row] col]. unfold Store.mcc_visit.
  eapply above_bind; [apply above_get_cell|]. intros [v|l] _; [by apply above_ret|].
  eapply above_bind; [apply above_load_ints|]. intros items _.
  case_decide; by apply above_ret.
Qed.

Lemma above_find_most_constrained_cell self :
  Store.above n (λ _, True) (Store.find_most_constrained_cell self).
Proof.
  eapply above_bind; [apply above_get_size|]. intros size _.
  eapply (above_bind _ (λ _, True)).
  { apply (above_for_each _ (λ _, True)); [done|]. intros i st _ _.
    apply (above_for_each _ (λ _, True)); [done|]. intros j st' _ _.
    apply above_mcc_visit. }
  intros [[mini row] col] _. by apply above_ret.
Qed.
End above_methods.

(** ** [copy.deepcopy] makes new objects only *)

Section above_copy.
Context (n : nat).

Lemma copied_above m l l' :
  Store.memo_above n m → Store.copied m l = Some l' → (n ≤ l')%nat.
Proof.
  induction 1 as [|[k k'] m Hk _ IH]; simpl; [done|].
  case_decide; [by intros [= <-]|done].
Qed.

Lemma above_copy_ints l m :
  Store.memo_above n m →
  Store.above n (λ r, (n ≤ r.1)%nat ∧ Store.memo_above n r.2) (Store.copy_ints l m).
Proof.
  intros Hm. unfold Store.copy_ints.
  destruct (Store.copied m l) as [l'|] eqn:Hl.
  { apply above_ret. split; [by eapply copied_above|done]. }
  eapply above_bind; [apply above_load_ints|]. intros items _.
  eapply above_bind; [by apply above_alloc|]. intros l' Hl'.
  apply above_ret. split; [done|]. by constructor.
Qed.

Lemma above_copy_slot c m :
  Store.memo_above n m →
  Store.above n (λ r, Store.slot_above n r.1 ∧ Store.memo_above n r.2)
    (Store.copy_slot c m).
Proof.
  intros Hm. destruct c as [v|l]; simpl; [by apply above_ret|].
  eapply above_bind; [by apply above_copy_ints|]. intros [l' m'] [Hl' Hm'].
  by apply above_ret.
Qed.

Lemma above_copy_row l m :
  Store.memo_above n m →
  Store.above n (λ r, (n ≤ r.1)%nat ∧ Store.memo_above n r.2) (Store.copy_row l m).
Proof.
  intros Hm. unfold Store.copy_row.
  destruct (Store.copied m l) as [l'|] eqn:Hl.
  { apply above_ret. split; [by eapply copied_above|done]. }
  eapply above_bind; [apply above_load_row|]. intros cells _.
  eapply above_bind; [by apply above_alloc; constructor|]. intros l' Hl'.
  eapply (above_bind _ (λ r, Forall (Store.slot_above n) r.1 ∧ Store.memo_above n r.2)).
  { apply above_for_each; [split; [constructor|by constructor]|].
    intros c [cells' m'] _ [Hcells' Hm'].
    eapply above_bind; [by apply above_copy_slot|]. intros [c' m''] [Hc' Hm''].
    apply above_ret. split; [|done]. apply Forall_app. split; [done|by constructor]. }
  intros [cells' m'] [Hcells' Hm'].
  eapply above_bind; [by apply above_store|]. intros _ _. by apply above_ret.
Qed.

Lemma above_copy_grid l m :
  Store.memo_above n m →
  Store.above n (λ r, (n ≤ r.1)%nat ∧ Store.memo_above n r.2) (Store.copy_grid l m).
Proof.
  intros Hm. unfold Store.copy_grid.
  destruct (Store.copied m l) as [l'|] eqn:Hl.
  { apply above_ret. split; [by eapply copied_above|done]. }
  eapply above_bind; [apply above_load_grid|]. intros rws _.
  eapply above_bind; [by apply above_alloc; constructor|]. intros l' Hl'.
  eapply (above_bind _ (λ r, Forall (λ l, n ≤ l)%nat r.1 ∧ Store.memo_above n r.2)).
  { apply above_for_each; [split; [constructor|by constructor]|].
    intros rl [rws' m'] _ [Hrws' Hm'].
    eapply above_bind; [by apply above_copy_row|]. intros [rl' m''] [Hrl' Hm''].
    apply above_ret. split; [|done]. apply Forall_app. split; [done|by constructor]. }
  intros [rws' m'] [Hrws' Hm'].
  eapply above_bind; [by apply above_store|]. intros _ _. by apply above_ret.
Qed.

Lemma above_deepcopy self :
  Store.above n (λ cpy, n ≤ cpy)%nat (Store.deepcopy self).
Proof.
  unfold Store.deepcopy.
  eapply above_bind; [apply above_load_board|]. intros [[sz p] g] _.
  eapply above_bind; [by apply above_alloc|]. intros self' Hself'.
  eapply above_bind; [apply above_copy_grid; by repeat constructor|].
  intros [g' m'] [Hg' _].
  eapply above_bind; [by apply above_store|]. intros _ _. by apply above_ret.
Qed.

(** ** The loop of [DFS] writes to its own copies only *)

Lemma above_branch curr row col pos st :
  Store.above n (λ _, True) (Store.branch curr row col pos st).
Proof.
  destruct st as [stack count]. unfold Store.branch.
  eapply above_bind; [apply above_deepcopy|]. intros cpy Hcpy.
  eapply above_bind; [by apply above_update|]. intros _ _. by apply above_ret.
Qed.

Lemma above_expand curr st : Store.above n (λ _, True) (Store.expand curr st).
Proof.
  unfold Store.expand.
  eapply above_bind; [apply above_find_most_constrained_cell|]. intros [row col] _.
  eapply above_bind; [apply above_get_cell|]. intros [v|l] _; [apply above_raise|].
  eapply above_bind; [apply above_load_ints|]. intros items _.
  apply (above_for_each _ (λ _, True)); [done|]. intros pos st' _ _.
  apply above_branch.
Qed.

Lemma above_DFS_iter stack count :
  Store.above n (λ _, True) (Store.DFS_iter stack count).
Proof.
  destruct stack as [|curr stack]; simpl; [by apply above_ret|].
  eapply above_bind; [apply above_goal_test|]. intros [|] _; [by apply above_ret|].
  eapply above_bind; [apply above_failure_test|]. intros [|] _; simpl.
  - by apply above_ret.
  - eapply above_bind; [apply above_expand|]. intros [stack' count'] _.
    by apply above_ret.
Qed.

Lemma DFS_loop_keeps fuel stack count h out h' :
  Store.closed n h → Store.DFS_loop fuel stack count h = (out, h') →
  Store.keeps n h h'.
Proof.
  revert stack count h. induction fuel as [|fuel IH]; intros stack count h Hc; simpl.
  { intros [= <- <-]. apply keeps_refl. }
  destruct (Store.DFS_iter stack count h) as [[[stack' count'|r count']|e] h1] eqn:Hit;
    destruct (above_DFS_iter stack count _ _ _ Hc Hit) as (Hc1 & Hk1 & _).
  - intros Hloop. eapply keeps_trans; [done|]. by eapply IH.
  - by intros [= <- <-].
  - by intros [= <- <-].
Qed.

Lemma updates_keeps self calls h :
  (n ≤ self)%nat → Store.closed n h →
  Store.closed n (Store.updates self calls h) ∧
  Store.keeps n h (Store.updates self calls h).
Proof.
  intros Hself. revert h. unfold Store.updates.
  induction calls as [|[[r c] v] calls IH]; intros h Hc; simpl.
  { split; [done|apply keeps_refl]. }
  destruct (Store.update self r c v h) as [res h1] eqn:Hu.
  destruct (above_update n self r c v Hself _ _ _ Hc Hu) as (Hc1 & Hk1 & _).
  destruct (IH h1 Hc1) as [Hc2 Hk2]. split; [done|by eapply keeps_trans].
Qed.
End above_copy.

(** ** Reading a board from a heap that kept its objects *)

Lemma keeps_lookup h h' l o :
  Store.keeps (length h) h h' → h !! l = Some o → h' !! l = Some o.
Proof.
  intros [_ Hk] Ho. rewrite Hk; [done|]. by eapply lookup_lt_Some.
Qed.

Lemma read_cell_keeps h h' c x :
  Store.keeps (length h) h h' → Store.read_cell h c = Some x →
  Store.read_cell h' c = Some x.
Proof.
  intros Hk. destruct c as [v|l]; simpl; [done|].
  destruct (h !! l) as [o|] eqn:Ho; [|done].
  by rewrite (keeps_lookup _ _ _ _ Hk Ho).
Qed.

Lemma mapM_Some_impl {A B} (f g : A → option B) (l : list A) k :
  (∀ x y, f x = Some y → g x = Some y) → mapM f l = Some k → mapM g l = Some k.
Proof.
  intros Hfg. rewrite !mapM_Some. intros H. eapply Forall2_impl; [exact H|auto].
Qed.

Lemma read_row_keeps h h' rl rw :
  Store.keeps (length h) h h' → Store.read_row h rl = Some rw →
  Store.read_row h' rl = Some rw.
Proof.
  intros Hk. unfold Store.read_row.
  destruct (h !! rl) as [o|] eqn:Ho; [|done].
  rewrite (keeps_lookup _ _ _ _ Hk Ho). destruct o; try done.
  apply mapM_Some_impl. intros c x. by apply read_cell_keeps.
Qed.

Lemma snapshot_keeps h h' self B :
  Store.keeps (length h) h h' → Store.snapshot h self = Some B →
  Store.snapshot h' self = Some B.
Proof.
  intros Hk. unfold Store.snapshot.
  destruct (h !! self) as [o|] eqn:Ho; [|done].
  rewrite (keeps_lookup _ _ _ _ Hk Ho). destruct o as [| | |sz p g|]; try done.
  destruct (h !! g) as [o|] eqn:Hg; [|done].
  rewrite (keeps_lookup _ _ _ _ Hk Hg). destruct o as [| |rws| |]; try done.
  destruct (mapM (Store.read_row h) rws) as [rws'|] eqn:Hrws; [|done].
  erewrite mapM_Some_impl; [done| |exact Hrws].
  intros rl rw. by apply read_row_keeps.
Qed.

(** ** [copy.deepcopy] copies *)

Lemma M_bind_Ok {A B} (m : Store.M A) (f : A → Store.M B) h a h1 :
  m h = (Ok a, h1) → (m ≫= f) h = f a h1.
Proof. intros Hm. unfold mbind, Store.M_bind. by rewrite Hm. Qed.

Lemma load_Some h l o : h !! l = Some o → Store.load l h = (Ok o, h).
Proof. intros Ho. unfold Store.load. by rewrite Ho. Qed.

Lemma load_ints_Some h l items :
  h !! l = Some (Store.OInts items) → Store.load_ints l h = (Ok items, h).
Proof. intros Ho. unfold Store.load_ints. by rewrite (M_bind_Ok _ _ _ _ _ (load_Some _ _ _ Ho)). Qed.

Lemma load_row_Some h l cells :
  h !! l = Some (Store.ORow cells) → Store.load_row l h = (Ok cells, h).
Proof. intros Ho. unfold Store.load_row. by rewrite (M_bind_Ok _ _ _ _ _ (load_Some _ _ _ Ho)). Qed.

Lemma load_grid_Some h l rws :
  h !! l = Some (Store.OGrid rws) → Store.load_grid l h = (Ok rws, h).
Proof. intros Ho. unfold Store.load_grid. by rewrite (M_bind_Ok _ _ _ _ _ (load_Some _ _ _ Ho)). Qed.

Lemma load_board_Some h l sz p g :
  h !! l = Some (Store.OBoard sz p g) → Store.load_board l h = (Ok (sz, p, g), h).
Proof. intros Ho. unfold Store.load_board. by rewrite (M_bind_Ok _ _ _ _ _ (load_Some _ _ _ Ho)). Qed.

Lemma keeps_app h o : Store.keeps (length h) h (h ++ [o]).
Proof.
  split; [rewrite length_app; lia|]. intros l Hl. by apply lookup_app_l.
Qed.

Lemma keeps_insert n h l o : (n ≤ l)%nat → Store.keeps n h (<[l := o]> h).
Proof.
  intros Hl. split; [by rewrite length_insert|].
  intros l' Hl'. apply list_lookup_insert_ne. lia.
Qed.

Lemma keeps_length n h h' : Store.keeps n h h' → (length h ≤ length h')%nat.
Proof. by intros [? _]. Qed.

(** From the heap of the call to the heap so far, then on. *)
Lemma keeps_step h0 h h' :
  Store.keeps (length h0) h0 h → Store.keeps (length h) h h' →
  Store.keeps (length h0) h0 h'.
Proof.
  intros H0 H1. eapply keeps_trans; [done|].
  eapply keeps_weaken; [|done]. by eapply keeps_length.
Qed.

Lemma read_cell_Ref h l x :
  Store.read_cell h (Store.Ref l) = Some x ↔
  ∃ items, h !! l = Some (Store.OInts items) ∧ x = Cands items.
Proof.
  simpl. destruct (h !! l) as [[items| | | |]|]; naive_solver.
Qed.

Lemma read_row_Some h rl rw :
  Store.read_row h rl = Some rw ↔
  ∃ cells, h !! rl = Some (Store.ORow cells) ∧
    Forall2 (λ c x, Store.read_cell h c = Some x) cells rw.
Proof.
  unfold Store.read_row. destruct (h !! rl) as [[|cells| | |]|]; try naive_solver.
  rewrite mapM_Some. naive_solver.
Qed.

Lemma memo_ints_keeps h0 h h' m :
  Store.keeps (length h) h h' → memo_ints h0 h m → memo_ints h0 h' m.
Proof.
  intros Hk Hm l l' items Hl Hitems. eapply keeps_lookup; [done|]. by eapply Hm.
Qed.

Lemma memo_rows_keeps h0 h h' m :
  Store.keeps (length h) h h' → memo_rows h0 h m → memo_rows h0 h' m.
Proof.
  intros Hk Hm l l' rw Hl Hrw. eapply read_row_keeps; [done|]. by eapply Hm.
Qed.

Lemma copy_ints_ok h0 h m l items :
  Store.keeps (length h0) h0 h → memo_ints h0 h m →
  h0 !! l = Some (Store.OInts items) →
  ∃ l' m' h', Store.copy_ints l m h = (Ok (l', m'), h') ∧
    Store.keeps (length h) h h' ∧ h' !! l' = Some (Store.OInts items) ∧
    memo_ints h0 h' m' ∧ memo_grows h0 m m'.
Proof.
  intros Hk Hm Hl. unfold Store.copy_ints.
  destruct (Store.copied m l) as [l'|] eqn:Hcopied.
  { exists l', m, h. split_and!; [done|apply keeps_refl|by eapply Hm|done|].
    intros k k' Hkk. by left. }
  rewrite (M_bind_Ok _ _ _ _ _ (load_ints_Some _ _ _ (keeps_lookup _ _ _ _ Hk Hl))).
  exists (length h), ((l, length h) :: m), (h ++ [Store.OInts items]).
  split_and!; [done|apply keeps_app| | |].
  - by rewrite lookup_app_r, Nat.sub_diag.
  - intros k k' its. simpl. case_decide as Hkl.
    + intros [= <-] Hits. subst k. rewrite Hl in Hits. injection Hits as <-.
      by rewrite lookup_app_r, Nat.sub_diag.
    + intros Hkk Hits. apply lookup_app_l_Some. by eapply Hm.
  - intros k k'. simpl. case_decide as Hkl; [subst k; by eauto|by left].
Qed.

Lemma copy_slot_ok h0 h m c x :
  Store.keeps (length h0) h0 h → memo_ints h0 h m →
  Store.read_cell h0 c = Some x →
  ∃ c' m' h', Store.copy_slot c m h = (Ok (c', m'), h') ∧
    Store.keeps (length h) h h' ∧ Store.read_cell h' c' = Some x ∧
    memo_ints h0 h' m' ∧ memo_grows h0 m m'.
Proof.
  intros Hk Hm Hx. destruct c as [v|l].
  { exists (Store.Num v), m, h. split_and!; [done|apply keeps_refl|done..|].
    intros k k' Hkk. by left. }
  apply read_cell_Ref in Hx as (items & Hl & ->).
  destruct (copy_ints_ok h0 h m l items Hk Hm Hl) as (l' & m' & h' & Hc & Hk' & Hl' & Hm' & Hg).
  exists (Store.Ref l'), m', h'. simpl.
  rewrite (M_bind_Ok _ _ _ _ _ Hc). split_and!; [done..| |done|done].
  by rewrite Hl'.
Qed.

Lemma memo_grows_trans h0 m1 m2 m3 :
  memo_grows h0 m1 m2 → memo_grows h0 m2 m3 → memo_grows h0 m1 m3.
Proof.
  intros H12 H23 l l' Hl. destruct (H23 l l' Hl) as [Hl2|?]; [|by right]. by apply H12.
Qed.

(** The loop of [copy_row] over the cells. *)
Lemma copy_cells_ok h0 cells : ∀ rw acc accv m h,
  Store.keeps (length h0) h0 h → memo_ints h0 h m →
  Forall2 (λ c x, Store.read_cell h0 c = Some x) cells rw →
  Forall2 (λ c x, Store.read_cell h c = Some x) acc accv →
  ∃ cells' m' h',
    Store.for_each cells (λ c '(cells', m),
        '(c', m) ← Store.copy_slot c m; mret (cells' ++ [c'], m)) (acc, m) h
      = (Ok (cells', m'), h') ∧
    Store.keeps (length h) h h' ∧
    Forall2 (λ c x, Store.read_cell h' c = Some x) cells' (accv ++ rw) ∧
    memo_ints h0 h' m' ∧ memo_grows h0 m m'.
Proof.
  induction cells as [|c cells IH]; intros rw acc accv m h Hk Hm Hrw Hacc.
  { apply Forall2_nil_inv_l in Hrw as ->. exists acc, m, h. rewrite app_nil_r.
    split_and!; [done|apply keeps_refl|done..|]. intros k k' Hkk. by left. }
  apply Forall2_cons_inv_l in Hrw as (x & rw' & Hx & Hrw' & ->).
  destruct (copy_slot_ok h0 h m c x Hk Hm Hx) as (c' & m1 & h1 & Hc & Hk1 & Hc' & Hm1 & Hg1).
  assert (Forall2 (λ c x, Store.read_cell h1 c = Some x) (acc ++ [c']) (accv ++ [x])) as Hacc1.
  { apply Forall2_app; [|by repeat constructor].
    eapply Forall2_impl; [exact Hacc|]. intros ???. by eapply read_cell_keeps. }
  destruct (IH rw' (acc ++ [c']) (accv ++ [x]) m1 h1 (keeps_step _ _ _ Hk Hk1) Hm1 Hrw' Hacc1)
    as (cells' & m2 & h2 & Hloop & Hk2 & Hcells' & Hm2 & Hg2).
  exists cells', m2, h2. simpl.
  rewrite (M_bind_Ok _ _ _ _ _ (M_bind_Ok _ _ _ _ _ Hc)). simpl.
  split_and!; [done| |by rewrite <-app_assoc in Hcells'|done|by eapply memo_grows_trans].
  eapply keeps_trans; [done|]. eapply keeps_weaken; [|done]. by eapply keeps_length.
Qed.

Lemma read_cell_insert h l o c x :
  Store.read_cell h c = Some x →
  (∀ items, h !! l ≠ Some (Store.OInts items)) →
  Store.read_cell (<[l := o]> h) c = Some x.
Proof.
  intros Hx Hl. destruct c as [v|k]; [done|].
  apply read_cell_Ref in Hx as (items & Hk & ->). apply read_cell_Ref.
  exists items. split; [|done]. rewrite list_lookup_insert_ne; [done|].
  intros ->. by eapply Hl.
Qed.

Lemma read_row_insert h l o rl rw :
  Store.read_row h rl = Some rw →
  (∀ items, h !! l ≠ Some (Store.OInts items)) →
  (∀ cells, h !! l ≠ Some (Store.ORow cells)) →
  Store.read_row (<[l := o]> h) rl = Some rw.
Proof.
  intros (cells & Hrl & Hcells)%read_row_Some Hints Hrow. apply read_row_Some.
  exists cells. split.
  - rewrite list_lookup_insert_ne; [done|]. intros ->. by eapply Hrow.
  - eapply Forall2_impl; [exact Hcells|]. intros c x Hx. by apply read_cell_insert.
Qed.

Lemma copy_row_ok h0 h m rl rw :
  Store.keeps (length h0) h0 h → memo_ints h0 h m → memo_rows h0 h m →
  Store.read_row h0 rl = Some rw →
  ∃ rl' m' h', Store.copy_row rl m h = (Ok (rl', m'), h') ∧
    Store.keeps (length h) h h' ∧ Store.read_row h' rl' = Some rw ∧
    memo_ints h0 h' m' ∧ memo_rows h0 h' m'.
Proof.
  intros Hk Hmi Hmr Hrw. unfold Store.copy_row.
  destruct (Store.copied m rl) as [rl'|] eqn:Hcopied.
  { exists rl', m, h. split_and!; [done|apply keeps_refl|by eapply Hmr|done..]. }
  pose proof Hrw as (cells & Hrl & Hcells)%read_row_Some.
  rewrite (M_bind_Ok _ _ _ _ _ (load_row_Some _ _ _ (keeps_lookup _ _ _ _ Hk Hrl))).
  set (rl' := length h). set (h1 := h ++ [Store.ORow []]).
  assert (Store.alloc (Store.ORow []) h = (Ok rl', h1)) as Halloc by done.
  rewrite (M_bind_Ok _ _ _ _ _ Halloc).
  assert (Store.keeps (length h) h h1) as Hk1 by apply keeps_app.
  assert (h1 !! rl' = Some (Store.ORow [])) as Hrl1
    by (subst h1 rl'; by rewrite lookup_app_r, Nat.sub_diag).
  assert (memo_ints h0 h1 ((rl, rl') :: m)) as Hmi1.
  { intros k k' items. simpl. case_decide as Hkk.
    - subst k. intros _ Hitems. by rewrite Hrl in Hitems.
    - intros Hc Hitems. eapply keeps_lookup; [done|]. by eapply Hmi. }
  destruct (copy_cells_ok h0 cells rw [] [] ((rl, rl') :: m) h1
              (keeps_step _ _ _ Hk Hk1) Hmi1 Hcells ltac:(constructor))
    as (cells' & m2 & h2 & Hloop & Hk2 & Hcells' & Hmi2 & Hg).
  rewrite (M_bind_Ok _ _ _ _ _ Hloop). simpl.
  assert (h2 !! rl' = Some (Store.ORow [])) as Hrl2 by (by eapply keeps_lookup).
  assert (Store.keeps (length h) h (<[rl' := Store.ORow cells']> h2)) as Hk3.
  { eapply keeps_trans; [exact Hk1|]. eapply keeps_trans.
    - eapply keeps_weaken; [|exact Hk2]. by eapply keeps_length.
    - by apply keeps_insert. }
  exists rl', m2, (<[rl' := Store.ORow cells']> h2).
  split_and!; [done|done| | |].
  - apply read_row_Some. exists cells'. split.
    + apply list_lookup_insert_eq. by eapply lookup_lt_Some.
    + eapply Forall2_impl; [exact Hcells'|]. intros c x Hx.
      apply read_cell_insert; [done|]. intros items. by rewrite Hrl2.
  - intros k k' items Hc Hitems. rewrite list_lookup_insert_ne; [by eapply Hmi2|].
    intros <-. specialize (Hmi2 _ _ _ Hc Hitems). by rewrite Hrl2 in Hmi2.
  - intros k k' rw' Hc Hrw'. destruct (Hg _ _ Hc) as [Hc1|[items Hitems]].
    + simpl in Hc1. case_decide as Hkk.
      * subst k. injection Hc1 as <-. rewrite Hrw in Hrw'. injection Hrw' as <-.
        apply read_row_Some. exists cells'. split.
        -- apply list_lookup_insert_eq. by eapply lookup_lt_Some.
        -- eapply Forall2_impl; [exact Hcells'|]. intros c x Hx.
           apply read_cell_insert; [done|]. intros its. by rewrite Hrl2.
      * eapply read_row_keeps; [exact Hk3|]. by eapply Hmr.
    + apply read_row_Some in Hrw' as (? & Hk' & _). by rewrite Hitems in Hk'.
Qed.

(** The loop of [copy_grid] over the rows. *)
Lemma copy_rows_ok h0 rws : ∀ rows acc accv m h,
  Store.keeps (length h0) h0 h → memo_ints h0 h m → memo_rows h0 h m →
  Forall2 (λ rl rw, Store.read_row h0 rl = Some rw) rws rows →
  Forall2 (λ rl rw, Store.read_row h rl = Some rw) acc accv →
  ∃ rws' m' h',
    Store.for_each rws (λ rl '(rws', m),
        '(rl', m) ← Store.copy_row rl m; mret (rws' ++ [rl'], m)) (acc, m) h
      = (Ok (rws', m'), h') ∧
    Store.keeps (length h) h h' ∧
    Forall2 (λ rl rw, Store.read_row h' rl = Some rw) rws' (accv ++ rows).
Proof.
  induction rws as [|rl rws IH]; intros rows acc accv m h Hk Hmi Hmr Hrows Hacc.
  { apply Forall2_nil_inv_l in Hrows as ->. exists acc, m, h. rewrite app_nil_r.
    split_and!; [done|apply keeps_refl|done]. }
  apply Forall2_cons_inv_l in Hrows as (rw & rows' & Hrw & Hrows' & ->).
  destruct (copy_row_ok h0 h m rl rw Hk Hmi Hmr Hrw)
    as (rl' & m1 & h1 & Hc & Hk1 & Hrl' & Hmi1 & Hmr1).
  assert (Forall2 (λ rl rw, Store.read_row h1 rl = Some rw) (acc ++ [rl']) (accv ++ [rw]))
    as Hacc1.
  { apply Forall2_app; [|by repeat constructor].
    eapply Forall2_impl; [exact Hacc|]. intros ???. by eapply read_row_keeps. }
  destruct (IH rows' (acc ++ [rl']) (accv ++ [rw]) m1 h1
              (keeps_step _ _ _ Hk Hk1) Hmi1 Hmr1 Hrows' Hacc1)
    as (rws' & m2 & h2 & Hloop & Hk2 & Hrws').
  exists rws', m2, h2. simpl.
  rewrite (M_bind_Ok _ _ _ _ _ (M_bind_Ok _ _ _ _ _ Hc)). simpl.
  split_and!; [done| |by rewrite <-app_assoc in Hrws'].
  eapply keeps_trans; [done|]. eapply keeps_weaken; [|done]. by eapply keeps_length.
Qed.

(** On a heap where [self] reads as the board [B], [copy.deepcopy]
    returns a new reference that reads as [B] too. *)
Lemma deepcopy_ok h self B :
  Store.snapshot h self = Some B →
  ∃ h', Store.deepcopy self h = (Ok (length h), h') ∧
    Store.snapshot h' (length h) = Some B.
Proof.
  unfold Store.snapshot.
  destruct (h !! self) as [[| | |sz p g|]|] eqn:Hself; try done.
  destruct (h !! g) as [[| |rws| |]|] eqn:Hg; try done.
  destruct (mapM (Store.read_row h) rws) as [rows|] eqn:Hrows; [|done].
  intros [= <-]. apply mapM_Some in Hrows.
  unfold Store.deepcopy.
  rewrite (M_bind_Ok _ _ _ _ _ (load_board_Some _ _ _ _ _ Hself)).
  set (self' := length h). set (h1 := h ++ [Store.ONew]).
  assert (Store.alloc Store.ONew h = (Ok self', h1)) as Halloc by done.
  rewrite (M_bind_Ok _ _ _ _ _ Halloc).
  assert (Store.keeps (length h) h h1) as Hk1 by apply keeps_app.
  set (g' := length h1). set (h2 := h1 ++ [Store.OGrid []]).
  assert (Store.keeps (length h) h h2) as Hk2 by (eapply keeps_step; [done|apply keeps_app]).
  assert (h2 !! self' = Some Store.ONew) as Hself2.
  { subst h2 h1 self'. rewrite lookup_app_l by (rewrite length_app; simpl; lia).
    by rewrite lookup_app_r, Nat.sub_diag. }
  assert (h2 !! g' = Some (Store.OGrid [])) as Hg2
    by (subst h2 g'; by rewrite lookup_app_r, Nat.sub_diag).
  assert (self' ≠ g') as Hne by (subst self' g' h1; rewrite length_app; simpl; lia).
  assert (memo_ints h h2 [(g, g'); (self, self')]) as Hmi.
  { intros k k' items. simpl. repeat case_decide; subst; try done; intros _ Hk.
    - by rewrite Hg in Hk.
    - by rewrite Hself in Hk. }
  assert (memo_rows h h2 [(g, g'); (self, self')]) as Hmr.
  { intros k k' rw. simpl.
    repeat case_decide; subst; try done; intros _ (? & Hk & _)%read_row_Some.
    - by rewrite Hg in Hk.
    - by rewrite Hself in Hk. }
  destruct (copy_rows_ok h rws rows [] [] _ h2 Hk2 Hmi Hmr Hrows ltac:(constructor))
    as (rws' & m' & h3 & Hloop & Hk3 & Hrws').
  assert (Store.copy_grid g [(self, self')] h1
          = (Ok (g', m'), <[g' := Store.OGrid rws']> h3)) as Hcopy.
  { unfold Store.copy_grid.
    assert (Store.copied [(self, self')] g = None) as ->.
    { simpl. rewrite decide_False; [done|]. intros ->. by rewrite Hself in Hg. }
    rewrite (M_bind_Ok _ _ _ _ _ (load_grid_Some _ _ _ (keeps_lookup _ _ _ _ Hk1 Hg))).
    assert (Store.alloc (Store.OGrid []) h1 = (Ok g', h2)) as Halloc2 by done.
    rewrite (M_bind_Ok _ _ _ _ _ Halloc2).
    by rewrite (M_bind_Ok _ _ _ _ _ Hloop). }
  rewrite (M_bind_Ok _ _ _ _ _ Hcopy). simpl.
  exists (<[self' := Store.OBoard sz p g']> (<[g' := Store.OGrid rws']> h3)).
  split; [done|].
  assert (h3 !! self' = Some Store.ONew) as Hself3 by (by eapply keeps_lookup).
  assert (h3 !! g' = Some (Store.OGrid [])) as Hg3 by (by eapply keeps_lookup).
  rewrite list_lookup_insert_eq
    by (rewrite length_insert; by eapply lookup_lt_Some).
  rewrite list_lookup_insert_ne, list_lookup_insert_eq
    by (done || by eapply lookup_lt_Some).
  assert (mapM (Store.read_row
            (<[self' := Store.OBoard sz p g']> (<[g' := Store.OGrid rws']> h3))) rws'
          = Some rows) as ->; [|done].
  apply mapM_Some. eapply Forall2_impl; [exact Hrws'|]. intros rl rw Hrw.
  apply read_row_insert.
  - apply read_row_insert; [done|intros ?; by rewrite Hg3..].
  - intros ?. by rewrite list_lookup_insert_ne, Hself3.
  - intros ?. by rewrite list_lookup_insert_ne, Hself3.
Qed.

(** ** Isolation *)

Lemma snapshot_board h self B :
  Store.snapshot h self = Some B →
  ∃ g, h !! self = Some (Store.OBoard (size B) (num_nums_placed B) g).
Proof.
  unfold Store.snapshot. destruct (h !! self) as [[| | |sz p g|]|]; try done.
  destruct (h !! g) as [[| |rws| |]|]; try done.
  destruct (mapM _ rws); intros [= <-]. simpl. eauto.
Qed.

Lemma store_goal_test h self B :
  Store.snapshot h self = Some B →
  Store.goal_test self h = (Ok (goal_test B), h).
Proof.
  intros [g Hg]%snapshot_board. unfold Store.goal_test, Store.load_board, Store.load.
  unfold mbind, Store.M_bind. by rewrite Hg.
Qed.

(** A board that passes the goal test is handed back at the first pop;
    the heap is the one [DFS] was given. *)
Lemma store_DFS_goal fuel h state B :
  Store.snapshot h state = Some B → goal_test B = true →
  Store.DFS (S fuel) state h = (Store.Returned (Some state) 0, h).
Proof.
  intros Hsnap Hg. unfold Store.DFS. simpl.
  unfold mbind, Store.M_bind. by rewrite (store_goal_test _ _ _ Hsnap), Hg.
Qed.

(** [DFS] leaves every object it was given as it was. *)
Lemma store_DFS_keeps fuel state h out h' :
  Store.DFS fuel state h = (out, h') → Store.keeps (length h) h h'.
Proof. apply DFS_loop_keeps, closed_length. Qed.

(** C8.  For a board with all 81 cells assigned and [num_nums_placed]
    81, [DFS] returns the reference it was given at the first pop, with
    [count] 0 (no copy was made and pushed) and the heap, hence the
    board, left as it was. *)
Theorem DFS_complete_board fuel h state B :
  Store.snapshot h state = Some B →
  grid9 B → all_cells is_fixed B → num_nums_placed B = 81 →
  Store.DFS (S fuel) state h = (Store.Returned (Some state) 0, h).
Proof.
  intros Hsnap (Hs & _) _ Hn. apply (store_DFS_goal _ _ _ B Hsnap).
  apply bool_decide_eq_true. rewrite Hs, Hn. done.
Qed.

(** C9.  [copy.deepcopy] of a board gives a new board that reads as the
    original does, and after any calls of [update] on the copy the
    original still reads as before: the same cells, assigned numbers
    and candidate lists, and the same [num_nums_placed]. *)
Theorem deepcopy_isolates h self B calls :
  Store.snapshot h self = Some B →
  ∃ cpy h1, Store.deepcopy self h = (Ok cpy, h1) ∧
    Store.snapshot h1 cpy = Some B ∧
    Store.snapshot (Store.updates cpy calls h1) self = Some B.
Proof.
  intros Hsnap. destruct (deepcopy_ok h self B Hsnap) as (h1 & Hcopy & Hsnap1).
  exists (length h), h1. split_and!; [done..|].
  destruct (above_deepcopy (length h) self _ _ _ (closed_length h) Hcopy)
    as (Hc1 & Hk1 & Hcpy).
  destruct (updates_keeps (length h) (length h) calls h1 (Hcpy _ eq_refl) Hc1) as [_ Hk2].
  eapply snapshot_keeps; [|done]. by eapply keeps_trans.
Qed.

(** C10.  Whatever [DFS] comes to, the board it was given reads
    afterwards as it did at the call; a board that passes the goal test
    is the one returned, no object of the heap changed or added. *)
Theorem DFS_keeps_input fuel h state B out h' :
  Store.snapshot h state = Some B →
  Store.DFS fuel state h = (out, h') →
  Store.snapshot h' state = Some B ∧
  (goal_test B = true → fuel ≠ 0%nat →
   out = Store.Returned (Some state) 0 ∧ h' = h).
Proof.
  intros Hsnap Hdfs. split.
  - eapply snapshot_keeps; [|done]. by eapply store_DFS_keeps.
  - intros Hg Hfuel. destruct fuel as [|fuel]; [done|].
    rewrite (store_DFS_goal _ _ _ _ Hsnap Hg) in Hdfs. by injection Hdfs as <- <-.
Qed.

(** * The statements at sample boards *)

Lemma update_eliminates_witness :
  grid9 Board_init ∧ distinct_cands Board_init ∧
  ∃ b', update Board_init 0 1 7 = Ok b' ∧
    ∀ i j l, 0 ≤ i < 9 → 0 ≤ j < 9 → peerZ 0 1 i j →
      get_cell b' i j = Ok (Cands l) → 7 ∉ l.
Proof.
  assert (grid9 Board_init) as Hg by (apply (bool_decide_unpack _); vm_compute; exact I).
  assert (distinct_cands Board_init) as Hd
    by (apply (bool_decide_unpack _); vm_compute; exact I).
  split_and!; [done..|].
  apply (update_eliminates Board_init 0 1 7 Hg Hd); lia.
Defined.

Lemma find_most_constrained_cell_first_witness :
  board_inv (updated 4 4 7 Board_init) ∧
  cell_at (updated 4 4 7 Board_init) 0 0 = Some (Cands (seqZ 1 9)) ∧
  ∃ r c l,
    find_most_constrained_cell (updated 4 4 7 Board_init) = Ok (Z.of_nat r, Z.of_nat c) ∧
    cell_at (updated 4 4 7 Board_init) r c = Some (Cands l) ∧
    ∀ i j l', cell_at (updated 4 4 7 Board_init) i j = Some (Cands l') →
      (length l ≤ length l')%nat ∧
      (length l' = length l → (r, c) = (i, j) ∨ rm_lt (r, c) (i, j)).
Proof.
  assert (board_inv (updated 4 4 7 Board_init)) as Hinv
    by (apply (bool_decide_unpack _); vm_compute; exact I).
  assert (cell_at (updated 4 4 7 Board_init) 0 0 = Some (Cands (seqZ 1 9))) as Hc
    by (vm_compute; reflexivity).
  split_and!; [done..|].
  apply (find_most_constrained_cell_first _ Hinv). by exists 0%nat, 0%nat, (seqZ 1 9).
Defined.

Lemma num_nums_placed_counts_witness :
  seeded (updated 0 1 7 Board_init) ∧
  num_nums_placed (updated 0 1 7 Board_init) = fixed_count (updated 0 1 7 Board_init) ∧
  ∀ r c v l b', 0 ≤ r < 9 → 0 ≤ c < 9 →
    get_cell (updated 0 1 7 Board_init) r c = Ok (Cands l) →
    update (updated 0 1 7 Board_init) r c v = Ok b' →
    num_nums_placed b' = fixed_count b'.
Proof.
  assert (seeded (updated 0 1 7 Board_init)) as Hs.
  { apply (seeded_update Board_init 0 1 7 (seqZ 1 9)); [apply seeded_init|lia|lia|..];
      vm_compute; reflexivity. }
  split; [done|]. apply (num_nums_placed_counts _ Hs).
Defined.

Lemma DFS_row_twin_fails_witness :
  update Board_init 0 0 5 = Ok (updated 0 0 5 Board_init) ∧
  update (updated 0 0 5 Board_init) 0 1 5 = Ok (updated 0 1 5 (updated 0 0 5 Board_init)) ∧
  ∃ n count, ∀ fuel, (n ≤ fuel)%nat →
    DFS fuel (updated 0 1 5 (updated 0 0 5 Board_init)) = Returned None count.
Proof.
  assert (update Board_init 0 0 5 = Ok (updated 0 0 5 Board_init)) as H1
    by (vm_compute; reflexivity).
  assert (update (updated 0 0 5 Board_init) 0 1 5
          = Ok (updated 0 1 5 (updated 0 0 5 Board_init))) as H2
    by (vm_compute; reflexivity).
  split_and!; [done..|].
  apply (DFS_row_twin_fails 0 0 1 5 (updated 0 0 5 Board_init)
           (updated 0 1 5 (updated 0 0 5 Board_init))); [lia..|done|done].
Defined.

Lemma DFS_iter_branches_witness :
  board_ok Board_init ∧ goal_test Board_init = false ∧ failure_test Board_init = false ∧
  ∃ r c l children,
    find_most_constrained_cell Board_init = Ok (r, c) ∧
    get_cell Board_init r c = Ok (Cands l) ∧
    StronglySorted Z.lt l ∧ Forall digit l ∧
    Forall2 (λ v child, update (deepcopy Board_init) r c v = Ok child) l children ∧
    DFS_iter [Board_init] 0 = Continue (rev children ++ []) (0 + Z.of_nat (length children)).
Proof.
  assert (board_ok Board_init) as Hok
    by (apply (bool_decide_unpack _); vm_compute; exact I).
  split_and!; [done|reflexivity|reflexivity|].
  apply (DFS_iter_branches Board_init [] 0 Hok); reflexivity.
Defined.

Lemma failure_test_empty_cands_witness :
  all_cells (on_fixed digit) (mkBoard 9 1 [[Fixed 3; Cands []]]) ∧
  (failure_test (mkBoard 9 1 [[Fixed 3; Cands []]]) = true ↔
   ∃ i j, cell_at (mkBoard 9 1 [[Fixed 3; Cands []]]) i j = Some (Cands [])).
Proof.
  assert (all_cells (on_fixed digit) (mkBoard 9 1 [[Fixed 3; Cands []]])) as Hf
    by (apply (bool_decide_unpack _); vm_compute; exact I).
  split; [done|]. apply (failure_test_empty_cands _ Hf).
Defined.

Lemma DFS_complete_board_witness :
  Store.snapshot solved_heap 10%nat = Some solved_board ∧
  grid9 solved_board ∧ all_cells is_fixed solved_board ∧
  num_nums_placed solved_board = 81 ∧
  Store.DFS 1 10%nat solved_heap = (Store.Returned (Some 10%nat) 0, solved_heap).
Proof.
  assert (Store.snapshot solved_heap 10%nat = Some solved_board) as Hs
    by (vm_compute; reflexivity).
  assert (grid9 solved_board) as Hg by (apply (bool_decide_unpack _); vm_compute; exact I).
  assert (all_cells is_fixed solved_board) as Hf
    by (apply (bool_decide_unpack _); vm_compute; exact I).
  split_and!; [done..|reflexivity|].
  apply (DFS_complete_board 0 solved_heap 10%nat solved_board Hs Hg Hf). reflexivity.
Defined.

Lemma deepcopy_isolates_witness :
  Store.snapshot fresh_heap 91%nat = Some Board_init ∧
  ∃ cpy h1, Store.deepcopy 91%nat fresh_heap = (Ok cpy, h1) ∧
    Store.snapshot h1 cpy = Some Board_init ∧
    Store.snapshot (Store.updates cpy [(0, 1, 7); (4, 4, 7); (0, 1, 3)] h1) 91%nat
      = Some Board_init.
Proof.
  assert (Store.snapshot fresh_heap 91%nat = Some Board_init) as Hs
    by (vm_compute; reflexivity).
  split; [done|].
  apply (deepcopy_isolates fresh_heap 91%nat Board_init _ Hs).
Defined.

Lemma DFS_keeps_input_witness :
  Store.snapshot fresh_heap 91%nat = Some Board_init ∧
  Store.DFS 1 91%nat fresh_heap = (first_pass.1, first_pass.2) ∧
  Store.snapshot first_pass.2 91%nat = Some Board_init ∧
  (goal_test Board_init = true → 1%nat ≠ 0%nat →
   first_pass.1 = Store.Returned (Some 91%nat) 0 ∧ first_pass.2 = fresh_heap).
Proof.
  assert (Store.snapshot fresh_heap 91%nat = Some Board_init) as Hs
    by (vm_compute; reflexivity).
  assert (Store.DFS 1 91%nat fresh_heap = (first_pass.1, first_pass.2)) as Hd
    by (vm_compute; reflexivity).
  exact (conj Hs (conj Hd
           (DFS_keeps_input 1 fresh_heap 91%nat Board_init _ _ Hs Hd))).
Defined.

(** * Further properties of the code *)

(** ** [remove_if_exists] *)

Lemma remove_first_middle l1 l2 elem :
  elem ∉ l1 → remove_first elem (l1 ++ elem :: l2) = l1 ++ l2.
Proof.
  induction l1 as [|x l1 IH]; simpl; intros Hnin.
  - by rewrite decide_True.
  - apply not_elem_of_cons in Hnin as [Hne Hnin].
    rewrite decide_False by done. by rewrite IH.
Qed.

(** X1.  [remove_if_exists] takes out the first occurrence of the
    element and nothing else, leaves a list without the element as it
    is, and leaves an assigned number as it is. *)
Theorem remove_if_exists_first elem :
  (∀ l1 l2, elem ∉ l1 →
     remove_if_exists (Cands (l1 ++ elem :: l2)) elem = Cands (l1 ++ l2)) ∧
  (∀ l, elem ∉ l → remove_if_exists (Cands l) elem = Cands l) ∧
  (∀ v, remove_if_exists (Fixed v) elem = Fixed v).
Proof.
  split_and!.
  - intros l1 l2 Hnin. simpl. rewrite decide_True.
    + by rewrite remove_first_middle.
    + apply elem_of_app. right. apply list_elem_of_here.
  - intros l Hnin. simpl. by rewrite decide_False.
  - done.
Qed.

(** ** [Board.failure_test] *)

(** X2.  [failure_test] is true exactly when some cell is false as a
    Python value: the empty candidate list, or the assigned number 0. *)
Theorem failure_test_falsy b :
  failure_test b = true ↔
  ∃ i j, cell_at b i j = Some (Cands []) ∨ cell_at b i j = Some (Fixed 0).
Proof.
  rewrite failure_test_true. split.
  - intros (i & j & x & Hx & [-> | ->]%truthy_false); exists i, j; auto.
  - intros (i & j & [Hx|Hx]); [exists i, j, (Cands [])|exists i, j, (Fixed 0)]; by split.
Qed.

(** ** [Board.subgrid_coordinates] *)

Lemma subgrids_getitem k :
  0 ≤ k < 3 → getitem subgrids k = Ok [3 * k; 3 * k + 1; 3 * k + 2].
Proof.
  intros Hk. assert (k = 0 ∨ k = 1 ∨ k = 2) as [-> | [-> | ->]] by lia; reflexivity.
Qed.

Lemma subgrids_getitem_wrap k :
  -3 ≤ k < 0 → getitem subgrids k = getitem subgrids (k + 3).
Proof.
  intros Hk. assert (k = -3 ∨ k = -2 ∨ k = -1) as [-> | [-> | ->]] by lia; reflexivity.
Qed.

Lemma subgrids_getitem_out k :
  k < -3 ∨ 3 ≤ k → getitem subgrids k = @Raise (list Z) IndexError.
Proof.
  intros Hk. unfold getitem, index_of. simpl length.
  rewrite decide_False by lia. by rewrite decide_False by lia.
Qed.

(** X3.  For coordinates from 0 to 8, [subgrid_coordinates] returns the
    nine cells of the 3x3 block of [(row, col)], each once, column by
    column, the cell [(row, col)] among them. *)
Theorem subgrid_coordinates_block row col :
  0 ≤ row < 9 → 0 ≤ col < 9 →
  ∃ coords, subgrid_coordinates row col = Ok coords ∧
    coords = (c ← [3 * (col / 3); 3 * (col / 3) + 1; 3 * (col / 3) + 2];
              r ← [3 * (row / 3); 3 * (row / 3) + 1; 3 * (row / 3) + 2];
              [(r, c)]) ∧
    length coords = 9%nat ∧ NoDup coords ∧ (row, col) ∈ coords ∧
    ∀ i j, (i, j) ∈ coords ↔ (i / 3 = row / 3 ∧ j / 3 = col / 3).
Proof.
  intros Hrow Hcol. unfold subgrid_coordinates.
  assert (0 ≤ row / 3 < 3) as Ha by (split; [apply Z.div_pos|apply Z.div_lt_upper_bound]; lia).
  assert (0 ≤ col / 3 < 3) as Hb by (split; [apply Z.div_pos|apply Z.div_lt_upper_bound]; lia).
  rewrite (subgrids_getitem _ Hb), bind_Ok. simpl for_each.
  rewrite (subgrids_getitem _ Ha). simpl.
  eexists. split; [reflexivity|].
  assert (∀ i, i / 3 = row / 3 ↔
            i = 3 * (row / 3) ∨ i = 3 * (row / 3) + 1 ∨ i = 3 * (row / 3) + 2) as Hri
    by (intros i; pose proof (Z.div_mod i 3); pose proof (Z.mod_pos_bound i 3); lia).
  assert (∀ j, j / 3 = col / 3 ↔
            j = 3 * (col / 3) ∨ j = 3 * (col / 3) + 1 ∨ j = 3 * (col / 3) + 2) as Hcj
    by (intros j; pose proof (Z.div_mod j 3); pose proof (Z.mod_pos_bound j 3); lia).
  assert (∀ i j, (i, j) ∈
      [(3 * (row / 3), 3 * (col / 3)); (3 * (row / 3) + 1, 3 * (col / 3));
       (3 * (row / 3) + 2, 3 * (col / 3)); (3 * (row / 3), 3 * (col / 3) + 1);
       (3 * (row / 3) + 1, 3 * (col / 3) + 1); (3 * (row / 3) + 2, 3 * (col / 3) + 1);
       (3 * (row / 3), 3 * (col / 3) + 2); (3 * (row / 3) + 1, 3 * (col / 3) + 2);
       (3 * (row / 3) + 2, 3 * (col / 3) + 2)]
      ↔ i / 3 = row / 3 ∧ j / 3 = col / 3) as Hmem.
  { intros i j. rewrite Hri, Hcj, !elem_of_cons, elem_of_nil.
    split; [intros H; repeat destruct H as [H|H]; try done; injection H as -> ->; lia|].
    intros [[-> | [-> | ->]] [-> | [-> | ->]]]; tauto. }
  split_and!; [reflexivity|reflexivity| |by apply Hmem|exact Hmem].
  repeat (apply NoDup_cons; split;
    [rewrite ?elem_of_cons, elem_of_nil; intros H;
     repeat destruct H as [H|H]; try done; injection H; lia|]).
  apply NoDup_nil_2.
Qed.

Lemma subgrid_coordinates_block_witness :
  0 ≤ 4 < 9 ∧ 0 ≤ 7 < 9 ∧
  ∃ coords, subgrid_coordinates 4 7 = Ok coords ∧
    coords = (c ← [3 * (7 / 3); 3 * (7 / 3) + 1; 3 * (7 / 3) + 2];
              r ← [3 * (4 / 3); 3 * (4 / 3) + 1; 3 * (4 / 3) + 2];
              [(r, c)]) ∧
    length coords = 9%nat ∧ NoDup coords ∧ (4, 7) ∈ coords ∧
    ∀ i j, (i, j) ∈ coords ↔ (i / 3 = 4 / 3 ∧ j / 3 = 7 / 3).
Proof.
  split; [lia|]. split; [lia|]. apply (subgrid_coordinates_block 4 7); lia.
Defined.

Lemma div3_bounds x lo hi :
  3 * lo ≤ x < 3 * hi → lo ≤ x / 3 < hi.
Proof.
  intros Hx. pose proof (Z.div_mod x 3 ltac:(lia)).
  pose proof (Z.mod_pos_bound x 3 ltac:(lia)). lia.
Qed.

Lemma div3_out x :
  x < -9 ∨ 9 ≤ x → x / 3 < -3 ∨ 3 ≤ x / 3.
Proof.
  intros Hx. pose proof (Z.div_mod x 3 ltac:(lia)).
  pose proof (Z.mod_pos_bound x 3 ltac:(lia)). lia.
Qed.

Lemma subgrids_getitem_in k :
  -3 ≤ k < 3 → ∃ a b c, getitem subgrids k = Ok [a; b; c].
Proof.
  intros Hk. destruct (decide (0 ≤ k)).
  - rewrite subgrids_getitem by lia. eauto.
  - rewrite subgrids_getitem_wrap, subgrids_getitem by lia. eauto.
Qed.

(** X4.  [subgrid_coordinates] takes negative coordinates down to -9 as
    Python subscripts do, counting from the end, and raises
    [IndexError] for a row or a column below -9 or above 8. *)
Theorem subgrid_coordinates_bounds row col :
  (-9 ≤ row < 0 → subgrid_coordinates row col = subgrid_coordinates (row + 9) col) ∧
  (-9 ≤ col < 0 → subgrid_coordinates row col = subgrid_coordinates row (col + 9)) ∧
  (row < -9 ∨ 9 ≤ row ∨ col < -9 ∨ 9 ≤ col →
   subgrid_coordinates row col = Raise IndexError).
Proof.
  unfold subgrid_coordinates. split_and!.
  - intros Hrow. replace ((row + 9) / 3) with (row / 3 + 3)
      by (rewrite <-(Z.div_add row 3 3); [f_equal; lia|lia]).
    by rewrite (subgrids_getitem_wrap (row / 3)) by (apply div3_bounds; lia).
  - intros Hcol. replace ((col + 9) / 3) with (col / 3 + 3)
      by (rewrite <-(Z.div_add col 3 3); [f_equal; lia|lia]).
    by rewrite (subgrids_getitem_wrap (col / 3)) by (apply div3_bounds; lia).
  - intros Hout. destruct (decide (col < -9 ∨ 9 ≤ col)) as [Hcol|Hcol].
    { rewrite (subgrids_getitem_out _ (div3_out _ Hcol)). reflexivity. }
    assert (row < -9 ∨ 9 ≤ row) as Hrow by lia.
    destruct (subgrids_getitem_in (col / 3)) as (a & b & c & ->);
      [apply div3_bounds; lia|].
    rewrite bind_Ok. simpl.
    rewrite subgrids_getitem_out by (by apply div3_out). reflexivity.
Qed.

(** ** [Board.find_most_constrained_cell] *)

(** X5.  What the scan returns on any 9x9 board: when no candidate list
    has fewer than nine entries (a fresh board, a board with all cells
    assigned) it returns its default (0, 0), whatever that cell holds;
    otherwise it returns the first cell in row-major order among the
    shortest candidate lists. *)
Theorem find_most_constrained_cell_scan_result b :
  grid9 b →
  (find_most_constrained_cell b = Ok (0, 0) ∧
   ∀ i j l, cell_at b i j = Some (Cands l) → (9 ≤ length l)%nat) ∨
  (∃ r c l, find_most_constrained_cell b = Ok (Z.of_nat r, Z.of_nat c) ∧
     cell_at b r c = Some (Cands l) ∧ (length l < 9)%nat ∧
     ∀ i j l', cell_at b i j = Some (Cands l') →
       (length l ≤ length l')%nat ∧
       (length l' = length l → (r, c) = (i, j) ∨ rm_lt (r, c) (i, j))).
Proof.
  intros Hb.
  destruct (find_most_constrained_cell_spec b Hb) as [Hdefault|Hfound]; [by left|by right].
Qed.

Lemma find_most_constrained_cell_scan_result_witness :
  grid9 solved_board ∧
  ((find_most_constrained_cell solved_board = Ok (0, 0) ∧
    ∀ i j l, cell_at solved_board i j = Some (Cands l) → (9 ≤ length l)%nat) ∨
   (∃ r c l, find_most_constrained_cell solved_board = Ok (Z.of_nat r, Z.of_nat c) ∧
      cell_at solved_board r c = Some (Cands l) ∧ (length l < 9)%nat ∧
      ∀ i j l', cell_at solved_board i j = Some (Cands l') →
        (length l ≤ length l')%nat ∧
        (length l' = length l → (r, c) = (i, j) ∨ rm_lt (r, c) (i, j)))).
Proof.
  assert (grid9 solved_board) as Hg by (apply (bool_decide_unpack _); vm_compute; exact I).
  split; [done|]. apply (find_most_constrained_cell_scan_result solved_board Hg).
Defined.

(** X6.  On a 9x9 board with every cell assigned the scan finds no
    candidate list and returns (0, 0), the coordinates of an assigned
    cell. *)
Theorem find_most_constrained_cell_all_assigned b :
  grid9 b → all_cells is_fixed b →
  find_most_constrained_cell b = Ok (0, 0) ∧ ∃ v, get_cell b 0 0 = Ok (Fixed v).
Proof.
  intros Hb Hall.
  assert (∀ i j l, cell_at b i j = Some (Cands l) → False) as Hno.
  { intros i j l Hl. apply (proj1 (all_cells_at _ _) Hall) in Hl. done. }
  split.
  - destruct (find_most_constrained_cell_spec b Hb)
      as [[Hres _]|(r & c & l & _ & Hl & _)]; [done|]. by destruct (Hno _ _ _ Hl).
  - destruct (grid9_cell b 0 0 Hb) as [[v|l] Hx]; [lia..| |by destruct (Hno _ _ _ Hx)].
    exists v. by apply (get_cell_nat b 0 0).
Qed.

Lemma find_most_constrained_cell_all_assigned_witness :
  grid9 solved_board ∧ all_cells is_fixed solved_board ∧
  find_most_constrained_cell solved_board = Ok (0, 0) ∧
  ∃ v, get_cell solved_board 0 0 = Ok (Fixed v).
Proof.
  assert (grid9 solved_board) as Hg by (apply (bool_decide_unpack _); vm_compute; exact I).
  assert (all_cells is_fixed solved_board) as Hf
    by (apply (bool_decide_unpack _); vm_compute; exact I).
  split_and!; [done..| |]; apply (find_most_constrained_cell_all_assigned _ Hg Hf).
Defined.

(** ** [Board.update] *)

Lemma remove_first_other v l x : x ∈ l → x ≠ v → x ∈ remove_first v l.
Proof.
  intros Hx Hne. induction l as [|y l IH]; simpl; [done|].
  apply elem_of_cons in Hx as [->|Hx].
  - rewrite decide_False by done. apply list_elem_of_here.
  - case_decide; [done|]. apply list_elem_of_further. auto.
Qed.

Lemma iter_discard_other n v l x : x ∈ l → x ≠ v → x ∈ Nat.iter n (discard v) l.
Proof.
  intros Hx Hne. induction n as [|n IH]; simpl; [done|].
  unfold discard at 1. case_decide; [|done]. by apply remove_first_other.
Qed.

Lemma visit_count_not_peer r c i j :
  (r < 9)%nat → (c < 9)%nat → (i < 9)%nat → (j < 9)%nat →
  ¬ peer r c i j → visit_count r c i j = 0%nat.
Proof.
  intros Hr Hc Hi Hj Hnp. pose proof (visit_count_peer r c i j Hr Hc Hi Hj) as Hvp.
  destruct (visit_count r c i j) as [|n]; [done|].
  destruct Hnp. apply Hvp. lia.
Qed.

Lemma below9_nat r : 0 ≤ r < 9 → ∃ k, r = Z.of_nat k ∧ (k < 9)%nat.
Proof. intros Hr. exists (Z.to_nat r). lia. Qed.

(** X7.  With coordinates from 0 to 8, [update] on a 9x9 board never
    raises: it leaves the number in the cell, whatever the cell held,
    and [num_nums_placed] one higher; [size] and the shape of the grid
    stay. *)
Theorem update_assigns b r c v :
  grid9 b → 0 ≤ r < 9 → 0 ≤ c < 9 →
  ∃ b', update b r c v = Ok b' ∧ get_cell b' r c = Ok (Fixed v) ∧
    num_nums_placed b' = num_nums_placed b + 1 ∧ size b' = size b ∧ grid9 b'.
Proof.
  intros Hb (kr & -> & Hr)%below9_nat (kc & -> & Hc)%below9_nat.
  exists (updated kr kc v b). split_and!.
  - by apply update_updated.
  - apply get_cell_nat. rewrite cell_at_updated, decide_True by done.
    by destruct (grid9_cell b kr kc Hb Hr Hc) as [x ->].
  - apply updated_num.
  - apply updated_size.
  - by apply updated_grid9.
Qed.

Lemma update_assigns_witness :
  grid9 solved_board ∧ 0 ≤ 2 < 9 ∧ 0 ≤ 3 < 9 ∧
  ∃ b', update solved_board 2 3 5 = Ok b' ∧ get_cell b' 2 3 = Ok (Fixed 5) ∧
    num_nums_placed b' = num_nums_placed solved_board + 1 ∧
    size b' = size solved_board ∧ grid9 b'.
Proof.
  assert (grid9 solved_board) as Hg by (apply (bool_decide_unpack _); vm_compute; exact I).
  split_and!; [done|lia..|]. apply (update_assigns solved_board 2 3 5 Hg); lia.
Defined.

(** X8.  What [update(r, c, v)] does to the other cells: an assigned
    number stays; a candidate list loses nothing but [v] and keeps its
    order; and outside row [r], column [c] and the subgrid of [(r, c)]
    a candidate list stays as it is. *)
Theorem update_other_cells b r c v b' i j :
  grid9 b → 0 ≤ r < 9 → 0 ≤ c < 9 → update b r c v = Ok b' →
  0 ≤ i < 9 → 0 ≤ j < 9 → (i, j) ≠ (r, c) →
  (∀ w, get_cell b i j = Ok (Fixed w) → get_cell b' i j = Ok (Fixed w)) ∧
  (∀ l, get_cell b i j = Ok (Cands l) →
     ∃ l', get_cell b' i j = Ok (Cands l') ∧ l' `sublist_of` l ∧
       (∀ x, x ∈ l → x ≠ v → x ∈ l') ∧ (¬ peerZ r c i j → l' = l)).
Proof.
  intros Hb Hr Hc Hu Hi Hj Hne.
  rewrite (update_inv_Ok _ _ _ _ _ Hb Hr Hc Hu).
  destruct (below9_nat _ Hr) as (kr & -> & Hkr), (below9_nat _ Hc) as (kc & -> & Hkc).
  destruct (below9_nat _ Hi) as (ki & -> & Hki), (below9_nat _ Hj) as (kj & -> & Hkj).
  rewrite !Nat2Z.id.
  assert ((kr, kc) ≠ (ki, kj)) as Hne' by (intros [= -> ->]; done).
  split.
  - intros w Hw%get_cell_Ok; [|lia..]. rewrite !Nat2Z.id in Hw.
    apply get_cell_nat. by apply cell_at_updated_Fixed.
  - intros l Hl%get_cell_Ok; [|lia..]. rewrite !Nat2Z.id in Hl.
    eexists. split_and!.
    + apply get_cell_nat. by apply cell_at_updated_Cands.
    + apply iter_discard_sublist.
    + intros x Hx Hxv. by apply iter_discard_other.
    + intros Hnp. rewrite visit_count_not_peer; [done..|].
      intros Hp. apply Hnp. apply peerZ_nat; [lia..|]. by rewrite !Nat2Z.id.
Qed.

Lemma update_other_cells_witness :
  grid9 Board_init ∧ 0 ≤ 0 < 9 ∧ 0 ≤ 1 < 9 ∧
  update Board_init 0 1 7 = Ok (updated 0 1 7 Board_init) ∧
  0 ≤ 4 < 9 ∧ 0 ≤ 4 < 9 ∧ (4, 4) ≠ (0, 1) ∧
  (∀ w, get_cell Board_init 4 4 = Ok (Fixed w) →
     get_cell (updated 0 1 7 Board_init) 4 4 = Ok (Fixed w)) ∧
  (∀ l, get_cell Board_init 4 4 = Ok (Cands l) →
     ∃ l', get_cell (updated 0 1 7 Board_init) 4 4 = Ok (Cands l') ∧ l' `sublist_of` l ∧
       (∀ x, x ∈ l → x ≠ 7 → x ∈ l') ∧ (¬ peerZ 0 1 4 4 → l' = l)).
Proof.
  assert (grid9 Board_init) as Hg by (apply (bool_decide_unpack _); vm_compute; exact I).
  assert (update Board_init 0 1 7 = Ok (updated 0 1 7 Board_init)) as Hu
    by (vm_compute; reflexivity).
  split; [exact Hg|]. split; [lia|]. split; [lia|]. split; [exact Hu|].
  split; [lia|]. split; [lia|]. split; [by intros [= ? ?]|].
  apply (update_other_cells Board_init 0 1 7 _ 4 4 Hg); [lia|lia|exact Hu|lia|lia|].
  by intros [= ? ?].
Defined.

(** X9.  [update] with coordinates from 0 to 8 and a number from 1 to 9
    keeps the invariant of the data model: candidate lists ascending,
    without repeats and within 1..9, assigned numbers within 1..9, and
    no candidate list naming a number assigned in its row, column or
    subgrid. *)
Theorem update_keeps_board_inv b r c v b' :
  board_inv b → 0 ≤ r < 9 → 0 ≤ c < 9 → 1 ≤ v ≤ 9 →
  update b r c v = Ok b' → board_inv b'.
Proof.
  intros Hinv Hr Hc Hv Hu.
  rewrite (update_inv_Ok _ _ _ _ _ (proj1 Hinv) Hr Hc Hu).
  apply updated_inv; [done|lia..|done].
Qed.

Lemma update_keeps_board_inv_witness :
  board_inv Board_init ∧ 0 ≤ 0 < 9 ∧ 0 ≤ 1 < 9 ∧ 1 ≤ 7 ≤ 9 ∧
  update Board_init 0 1 7 = Ok (updated 0 1 7 Board_init) ∧
  board_inv (updated 0 1 7 Board_init).
Proof.
  assert (board_inv Board_init) as Hinv
    by (apply (bool_decide_unpack _); vm_compute; exact I).
  assert (update Board_init 0 1 7 = Ok (updated 0 1 7 Board_init)) as Hu
    by (vm_compute; reflexivity).
  split_and!; [done|lia..|done|].
  apply (update_keeps_board_inv Board_init 0 1 7 _ Hinv); (lia || done).
Defined.

Lemma index_of_out len i :
  i < - Z.of_nat len ∨ Z.of_nat len ≤ i → index_of len i = Raise IndexError.
Proof.
  intros Hi. unfold index_of. rewrite decide_False by lia. by rewrite decide_False by lia.
Qed.

Lemma index_of_in len i :
  - Z.of_nat len ≤ i < Z.of_nat len → ∃ k, index_of len i = Ok k ∧ (k < len)%nat.
Proof.
  intros Hi. unfold index_of. case_decide.
  - exists (Z.to_nat i). split; [done|lia].
  - rewrite decide_True by lia. exists (Z.to_nat (Z.of_nat len + i)). split; [done|lia].
Qed.

(** X10.  [update] on a 9x9 board raises [IndexError] when the row or
    the column is below -9 or above 8. *)
Theorem update_out_of_range b r c v :
  grid9 b → r < -9 ∨ 9 ≤ r ∨ c < -9 ∨ 9 ≤ c →
  update b r c v = Raise IndexError.
Proof.
  intros Hb Hout. unfold update, getitem.
  pose proof Hb as (_ & Hlen & _). rewrite Hlen.
  destruct (decide (r < -9 ∨ 9 ≤ r)) as [Hr|Hr].
  { by rewrite index_of_out by (simpl; lia). }
  destruct (index_of_in 9 r) as (k & -> & Hk); [simpl; lia|]. rewrite bind_Ok.
  destruct (lookup_lt_is_Some_2 (rows b) k) as [rw Hrw]; [lia|]. rewrite Hrw, bind_Ok.
  assert (setitem rw c (Fixed v) = Raise IndexError) as ->; [|reflexivity].
  unfold setitem. rewrite (grid9_row _ _ _ Hb Hrw).
  by rewrite index_of_out by (simpl; lia).
Qed.

Lemma update_out_of_range_witness :
  grid9 Board_init ∧ (9 < -9 ∨ 9 ≤ 9 ∨ 0 < -9 ∨ 9 ≤ 0) ∧
  update Board_init 9 0 5 = Raise IndexError.
Proof.
  assert (grid9 Board_init) as Hg by (apply (bool_decide_unpack _); vm_compute; exact I).
  split_and!; [done|lia|]. apply (update_out_of_range Board_init 9 0 5 Hg). lia.
Defined.

(** ** Seeding a board *)

Lemma seed_from b moves :
  board_inv b → Forall move_ok moves →
  ∃ b', for_each moves (λ '(row, col, v) b, update b row col v) b = Ok b' ∧
    board_inv b' ∧ num_nums_placed b' = num_nums_placed b + Z.of_nat (length moves).
Proof.
  intros Hinv Hmoves. revert b Hinv.
  induction Hmoves as [|[[r c] v] moves (Hr & Hc & Hv) _ IH]; intros b Hinv; simpl.
  { exists b. split_and!; [done..|lia]. }
  simpl in Hr, Hc, Hv.
  destruct (below9_nat _ Hr) as (kr & -> & Hkr), (below9_nat _ Hc) as (kc & -> & Hkc).
  rewrite update_updated, bind_Ok by (done || apply Hinv).
  destruct (IH (updated kr kc v b)) as (b' & Hb' & Hinv' & Hnum); [by apply updated_inv|].
  exists b'. split_and!; [done..|]. rewrite Hnum, updated_num. lia.
Qed.

(** X11.  A fresh board seeded with any moves that have coordinates from
    0 to 8 and numbers from 1 to 9 is built without an exception,
    satisfies the invariant of the data model, and has counted every
    move in [num_nums_placed], repeated cells included. *)
Theorem seed_board_inv moves :
  Forall move_ok moves →
  ∃ b, seed_board moves = Ok b ∧ board_inv b ∧
    num_nums_placed b = Z.of_nat (length moves).
Proof.
  intros Hmoves. destruct (seed_from Board_init moves Board_init_inv Hmoves)
    as (b & Hb & Hinv & Hnum).
  exists b. split_and!; [done..|]. rewrite Hnum. reflexivity.
Qed.

Lemma seed_board_inv_witness :
  Forall move_ok [(0, 1, 7); (0, 7, 1); (0, 1, 7)] ∧
  ∃ b, seed_board [(0, 1, 7); (0, 7, 1); (0, 1, 7)] = Ok b ∧ board_inv b ∧
    num_nums_placed b = Z.of_nat (length [(0, 1, 7); (0, 7, 1); (0, 1, 7)]).
Proof.
  assert (Forall move_ok [(0, 1, 7); (0, 7, 1); (0, 1, 7)]) as Hm
    by (apply (bool_decide_unpack _); vm_compute; exact I).
  split; [done|]. apply (seed_board_inv _ Hm).
Defined.

(** ** [DFS] on boards of the data model *)

(** One pass of the loop on a stack of boards of the data model: it
    returns the top board, or goes on with a stack of boards made from
    the top one by [update] at one of its candidates. *)
Lemma DFS_iter_ok (P : Board → Prop) stack count :
  (∀ b, P b → board_ok b) →
  (∀ b r c l x, P b → cell_at b r c = Some (Cands l) → x ∈ l → P (updated r c x b)) →
  Forall P stack →
  (∃ r, DFS_iter stack count = Return r count ∧ ∀ res, r = Some res → P res) ∨
  (∃ stack' count', DFS_iter stack count = Continue stack' count' ∧ Forall P stack').
Proof.
  intros Hok Hchild Hstack. destruct Hstack as [|curr rest Hcurr Hrest].
  { left. exists None. by split. }
  destruct (goal_test curr) eqn:Hg.
  { left. exists (Some curr). rewrite DFS_iter_goal by done. split; [done|].
    by intros ? [= <-]. }
  right. destruct (failure_test curr) eqn:Hf.
  { exists rest, count. by rewrite DFS_iter_failure. }
  destruct (DFS_iter_children curr rest count (Hok _ Hcurr) Hg Hf)
    as (r & c & l & _ & Hl & ->).
  eexists _, _. split; [done|]. apply Forall_app. split; [|done].
  apply Forall_rev, Forall_fmap, Forall_forall. intros x Hx. simpl. by eapply Hchild.
Qed.

Lemma DFS_loop_ok (P : Board → Prop) fuel stack count :
  (∀ b, P b → board_ok b) →
  (∀ b r c l x, P b → cell_at b r c = Some (Cands l) → x ∈ l → P (updated r c x b)) →
  Forall P stack →
  (∀ e, DFS_loop fuel stack count ≠ Raised e) ∧
  (∀ res count', DFS_loop fuel stack count = Returned (Some res) count' → P res).
Proof.
  intros Hok Hchild. revert stack count.
  induction fuel as [|fuel IH]; intros stack count Hstack; simpl; [done|].
  destruct (DFS_iter_ok P stack count Hok Hchild Hstack)
    as [(r & -> & Hr)|(stack' & count' & -> & Hstack')].
  - split; [done|]. intros res count' [= -> ->]. by apply Hr.
  - by apply IH.
Qed.

Lemma board_ok_child b r c l x :
  board_ok b → cell_at b r c = Some (Cands l) → x ∈ l → board_ok (updated r c x b).
Proof.
  intros Hok Hl Hx. eapply updated_ok; [done..|].
  destruct (board_inv_cands _ _ _ _ (proj1 Hok) Hl) as [_ Hd].
  rewrite Forall_forall in Hd. auto.
Qed.

Lemma todo_child b r c l x :
  grid9 b → cell_at b r c = Some (Cands l) → (todo (updated r c x b) < todo b)%nat.
Proof.
  intros Hb Hl. unfold todo. rewrite fixed_count_updated, Hl.
  pose proof (fixed_count_le _ (updated_grid9 r c x b Hb)) as Hle.
  rewrite fixed_count_updated, Hl in Hle. lia.
Qed.

(** The search below a board of the data model ends: with a returned
    board, or with the rest of the stack as it was. *)
Lemma DFS_subtree_ends k b rest count :
  board_ok b → (todo b < k)%nat →
  ∃ n, (∃ res count', ∀ fuel,
          DFS_loop (n + fuel) (b :: rest) count = Returned (Some res) count') ∨
       (∃ count', ∀ fuel,
          DFS_loop (n + fuel) (b :: rest) count = DFS_loop fuel rest count').
Proof.
  revert b rest count. induction k as [|k IH]; intros b rest count Hok Hk; [lia|].
  destruct (goal_test b) eqn:Hg.
  { exists 1%nat. left. exists b, count. intros fuel. simpl. by rewrite DFS_iter_goal. }
  destruct (failure_test b) eqn:Hf.
  { exists 1%nat. right. exists count. intros fuel. simpl. by rewrite DFS_iter_failure. }
  destruct (DFS_iter_children b rest count Hok Hg Hf) as (i & j & l & _ & Hl & Hit).
  set (cs := (λ x, updated i j x b) <$> l) in *.
  assert (Forall (λ ch, board_ok ch ∧ (todo ch < k)%nat) (rev cs)) as Hall.
  { apply Forall_rev, Forall_fmap, Forall_forall. intros x Hx. simpl.
    split; [by eapply board_ok_child|].
    pose proof (todo_child b i j l x (proj1 (proj1 Hok)) Hl). lia. }
  assert (∀ count0, ∃ n,
            (∃ res count', ∀ fuel,
               DFS_loop (n + fuel) (rev cs ++ rest) count0 = Returned (Some res) count') ∨
            (∃ count', ∀ fuel,
               DFS_loop (n + fuel) (rev cs ++ rest) count0 = DFS_loop fuel rest count'))
    as Hchildren.
  { clear Hit. induction Hall as [|ch chs [Hch Hlt] _ IHchs]; intros count0.
    { exists 0%nat. right. by exists count0. }
    destruct (IH ch (chs ++ rest) count0 Hch Hlt)
      as (n1 & [(res & count1 & H1)|(count1 & H1)]).
    - exists n1. left. by exists res, count1.
    - destruct (IHchs count1) as (n2 & [(res & count2 & H2)|(count2 & H2)]).
      + exists (n1 + n2)%nat. left. exists res, count2. intros fuel.
        by rewrite <-Nat.add_assoc, <-app_comm_cons, H1, H2.
      + exists (n1 + n2)%nat. right. exists count2. intros fuel.
        by rewrite <-Nat.add_assoc, <-app_comm_cons, H1, H2. }
  destruct (Hchildren (count + Z.of_nat (length l)))
    as (n & [(res & count' & Hn)|(count' & Hn)]).
  - exists (S n). left. exists res, count'. intros fuel. simpl. by rewrite Hit, Hn.
  - exists (S n). right. exists count'. intros fuel. simpl. by rewrite Hit, Hn.
Qed.

(** X12.  On a board of the data model [DFS] ends without an exception:
    with enough fuel it returns, either [None] or a board that passes
    the goal test, and more fuel changes nothing. *)
Theorem DFS_terminates b :
  board_ok b →
  ∃ n r count, (∀ fuel, (n ≤ fuel)%nat → DFS fuel b = Returned r count) ∧
    ∀ res, r = Some res → goal_test res = true.
Proof.
  intros Hok.
  destruct (DFS_subtree_ends (S (todo b)) b [] 0 Hok (Nat.lt_succ_diag_r _))
    as (n & [(res & count & Hn)|(count & Hn)]).
  - exists n, (Some res), count. split.
    + intros fuel Hfuel. unfold DFS. simpl Stack_new.
      replace fuel with (n + (fuel - n))%nat by lia. apply Hn.
    + intros ? [= <-]. eapply DFS_loop_Some. apply (Hn 0%nat).
  - exists (S n), None, count. split; [|done].
    intros fuel Hfuel. unfold DFS. simpl Stack_new.
    replace fuel with (n + S (fuel - S n))%nat by lia. by rewrite Hn.
Qed.

Lemma DFS_terminates_witness :
  board_ok Board_init ∧
  ∃ n r count, (∀ fuel, (n ≤ fuel)%nat → DFS fuel Board_init = Returned r count) ∧
    ∀ res, r = Some res → goal_test res = true.
Proof.
  assert (board_ok Board_init) as Hok
    by (apply (bool_decide_unpack _); vm_compute; exact I).
  split; [exact Hok|]. apply (DFS_terminates Board_init Hok).
Defined.

(** ** What [DFS] returns *)

Lemma consistent_child b r c l x :
  board_inv b → consistent b → cell_at b r c = Some (Cands l) → x ∈ l →
  consistent (updated r c x b).
Proof.
  intros Hinv Hcons Hl Hx i1 j1 i2 j2 w H1 H2 Hp.
  apply cell_at_updated_inv in H1
    as [[[= <- <-] Hw1]|[Hne1 [(? & [= <-] & H1)|(? & [=] & _)]]];
  apply cell_at_updated_inv in H2
    as [[[= <- <-] Hw2]|[Hne2 [(? & [= <-] & H2)|(? & [=] & _)]]].
  - done.
  - exfalso. injection Hw1 as ->.
    apply (board_inv_clash b i2 j2 r c x l Hinv H2 Hl); [|done].
    unfold peer in *. destruct Hp as [->|[->|[-> ->]]]; auto.
  - exfalso. injection Hw2 as ->.
    by apply (board_inv_clash b i1 j1 r c x l Hinv H1 Hl).
  - by apply (Hcons i1 j1 i2 j2 w).
Qed.

Lemma extends_child b0 b r c l x :
  extends b0 b → cell_at b r c = Some (Cands l) → extends b0 (updated r c x b).
Proof.
  intros Hext Hl i j w Hw. specialize (Hext _ _ _ Hw).
  apply cell_at_updated_Fixed; [done|]. intros [= -> ->]. by rewrite Hl in Hext.
Qed.

Lemma goal_complete b : board_ok b → goal_test b = true → complete b.
Proof.
  intros [Hinv Hn] Hg i j Hi Hj. pose proof Hinv as (Hb & _).
  apply bool_decide_eq_true in Hg. destruct Hb as (Hs & _). rewrite Hs, Hn in Hg.
  destruct (fixed_count_cases b (proj1 Hinv)) as [[_ Hfull]|[Hlt _]]; [|lia].
  destruct (Hfull i j Hi Hj) as [w Hw]. exists w. split; [done|].
  by eapply board_inv_fixed.
Qed.

(** X13.  A board [DFS] returns for a board of the data model without
    repeated numbers is a solution: all 81 cells hold a number from 1 to
    9, no row, column or subgrid holds a number twice, and the numbers
    of the given board are in their places. *)
Theorem DFS_sound fuel b res count :
  board_ok b → consistent b →
  DFS fuel b = Returned (Some res) count →
  complete res ∧ consistent res ∧ extends b res.
Proof.
  intros Hok Hcons Hres.
  set (P := λ b', board_ok b' ∧ consistent b' ∧ extends b b').
  assert (P res) as (Hok' & Hcons' & Hext').
  { refine (proj2 (DFS_loop_ok P fuel [b] 0 _ _ _) res count Hres).
    - by intros b' [? _].
    - intros b' r c l x (Hb' & Hc' & He') Hl Hx. split_and!.
      + by eapply board_ok_child.
      + by eapply consistent_child; [apply Hb'|..].
      + by eapply extends_child.
    - apply Forall_cons. split; [|constructor]. subst P. simpl.
      split_and!; [done|done|]. by intros i j w. }
  split_and!; [|done..]. apply goal_complete; [done|]. by eapply DFS_loop_Some.
Qed.

Lemma consistent_check b :
  grid9 b → Forall (λ p, Forall (differ_at b p) cells_rm) cells_rm → consistent b.
Proof.
  intros Hb Hall i j i' j' w H1 H2 Hp. rewrite Forall_forall in Hall.
  assert ((i, j) ∈ cells_rm) as Hij by (by eapply elem_of_cells_rm, cell_at_lt).
  assert ((i', j') ∈ cells_rm) as Hij' by (by eapply elem_of_cells_rm, cell_at_lt).
  specialize (Hall _ Hij). rewrite Forall_forall in Hall. specialize (Hall _ Hij').
  unfold differ_at in Hall. simpl in Hall. rewrite H1, H2 in Hall. auto.
Qed.

Lemma DFS_sound_witness :
  board_ok first_game ∧ consistent first_game ∧
  DFS 100 first_game = Returned (Some solved_board) 58 ∧
  complete solved_board ∧ consistent solved_board ∧ extends first_game solved_board.
Proof.
  assert (board_ok first_game) as Hok
    by (apply (bool_decide_unpack _); vm_compute; exact I).
  assert (consistent first_game) as Hcons.
  { apply consistent_check; [apply Hok|].
    apply (bool_decide_unpack _). vm_compute. exact I. }
  assert (DFS 100 first_game = Returned (Some solved_board) 58) as Hres
    by (vm_compute; reflexivity).
  split; [exact Hok|]. split; [exact Hcons|]. split; [exact Hres|].
  apply (DFS_sound 100 first_game solved_board 58 Hok Hcons Hres).
Defined.

(** X14.  On a 9x9 board with every cell assigned a number other than 0
    but [num_nums_placed] not 81 (a cell seeded twice, say), [DFS]
    raises [TypeError]: the board is no goal and no failure, and the
    cell at (0, 0) that the scan returns holds a number, which the
    loop over the possibilities cannot iterate. *)
Theorem DFS_miscounted_raises fuel b :
  grid9 b → all_cells is_fixed b → all_cells (on_fixed (λ v, v ≠ 0)) b →
  num_nums_placed b ≠ 81 →
  DFS (S fuel) b = Raised TypeError.
Proof.
  intros Hb Hfix Hnz Hn.
  assert (goal_test b = false) as Hg.
  { apply bool_decide_eq_false. destruct Hb as (-> & _). lia. }
  assert (failure_test b = false) as Hf.
  { apply not_true_is_false. intros (i & j & x & Hx & Hfalsy)%failure_test_true.
    apply truthy_false in Hfalsy as [-> | ->].
    - by apply (proj1 (all_cells_at _ _) Hfix) in Hx.
    - by apply (proj1 (all_cells_at _ _) Hnz) in Hx. }
  assert (find_most_constrained_cell b = Ok (0, 0)) as Hmcc.
  { destruct (find_most_constrained_cell_spec b Hb)
      as [[Hres _]|(r & c & l & _ & Hl & _)]; [done|].
    by apply (proj1 (all_cells_at _ _) Hfix) in Hl. }
  destruct (grid9_cell b 0 0 Hb) as [[v|l] Hx]; [lia..| |].
  2:{ by apply (proj1 (all_cells_at _ _) Hfix) in Hx. }
  unfold DFS. simpl. rewrite DFS_iter_expand by done.
  pose proof (get_cell_nat b 0 0 _ Hx) as Hgc. change (Z.of_nat 0) with 0 in Hgc.
  unfold expand. rewrite Hmcc, bind_Ok. cbv beta iota.
  by rewrite Hgc, bind_Ok.
Qed.

Lemma DFS_miscounted_raises_witness :
  grid9 (mkBoard 9 82 (rows solved_board)) ∧
  all_cells is_fixed (mkBoard 9 82 (rows solved_board)) ∧
  all_cells (on_fixed (λ v, v ≠ 0)) (mkBoard 9 82 (rows solved_board)) ∧
  num_nums_placed (mkBoard 9 82 (rows solved_board)) ≠ 81 ∧
  DFS 1 (mkBoard 9 82 (rows solved_board)) = Raised TypeError.
Proof.
  assert (grid9 (mkBoard 9 82 (rows solved_board))) as Hg
    by (apply (bool_decide_unpack _); vm_compute; exact I).
  assert (all_cells is_fixed (mkBoard 9 82 (rows solved_board))) as Hf
    by (apply (bool_decide_unpack _); vm_compute; exact I).
  assert (all_cells (on_fixed (λ v, v ≠ 0)) (mkBoard 9 82 (rows solved_board))) as Hz
    by (apply (bool_decide_unpack _); vm_compute; exact I).
  assert (num_nums_placed (mkBoard 9 82 (rows solved_board)) ≠ 81) as Hn by (simpl; lia).
  split; [exact Hg|]. split; [exact Hf|]. split; [exact Hz|]. split; [exact Hn|].
  apply (DFS_miscounted_raises 0 _ Hg Hf Hz Hn).
Defined.

(** ** A puzzle with a solution *)

Lemma peer_sym r c i j : peer r c i j → peer i j r c.
Proof. unfold peer. naive_solver. Qed.

Lemma cands_full_at b i j l w :
  grid9 b → cands_full b → cell_at b i j = Some (Cands l) → digit w → w ∉ l →
  ∃ i' j', peer i j i' j' ∧ cell_at b i' j' = Some (Fixed w).
Proof.
  intros Hb Hfull Hl Hw Hnot. unfold cands_full in Hfull.
  rewrite Forall_forall in Hfull.
  destruct (cell_at_lt _ _ _ _ Hb Hl) as [Hi Hj].
  specialize (Hfull (i, j) (proj2 (elem_of_cells_rm i j) (conj Hi Hj))).
  rewrite Forall_forall in Hfull. specialize (Hfull w).
  unfold offered in Hfull. simpl in Hfull. rewrite Hl in Hfull.
  destruct Hfull as [?|Hex]; [apply elem_of_seqZ; unfold digit in Hw; lia|done|].
  apply Exists_exists in Hex as ([i' j'] & _ & Hp & Hc). by exists i', j'.
Qed.

Lemma cands_full_intro b :
  (∀ i j l w, cell_at b i j = Some (Cands l) → digit w → w ∉ l →
     ∃ i' j', peer i j i' j' ∧ cell_at b i' j' = Some (Fixed w)) →
  grid9 b → cands_full b.
Proof.
  intros H Hb. apply Forall_forall. intros [i j] _. apply Forall_forall. intros w Hw.
  apply elem_of_seqZ in Hw. unfold offered. simpl.
  destruct (cell_at b i j) as [[v|l]|] eqn:Hl; [done| |done].
  destruct (decide (w ∈ l)) as [|Hnot]; [by left|right].
  destruct (H i j l w Hl) as (i' & j' & Hp & Hc); [unfold digit; lia|done|].
  apply Exists_exists. exists (i', j'). split; [|done].
  by eapply elem_of_cells_rm, cell_at_lt.
Qed.

Lemma cell_at_updated_here r c v b x :
  cell_at b r c = Some x → cell_at (updated r c v b) r c = Some (Fixed v).
Proof. intros Hx. by rewrite cell_at_updated, decide_True, Hx. Qed.

(** Assigning a cell that holds a candidate list keeps the candidate
    lists full. *)
Lemma cands_full_child b r c l x :
  grid9 b → cands_full b → cell_at b r c = Some (Cands l) →
  cands_full (updated r c x b).
Proof.
  intros Hb Hfull Hl. apply cands_full_intro; [|by apply updated_grid9].
  destruct (cell_at_lt _ _ _ _ Hb Hl) as [Hr Hc].
  intros i j l' w Hl' Hw Hnot.
  apply cell_at_updated_inv in Hl'
    as [[_ [=]]|[Hne [(? & [=] & _)|(l0 & [= ->] & Hl0)]]].
  destruct (cell_at_lt _ _ _ _ Hb Hl0) as [Hi Hj].
  destruct (decide (w ∈ l0)) as [Hin|Hout].
  - destruct (decide (w = x)) as [->|Hwx].
    2:{ destruct Hnot. by apply iter_discard_other. }
    exists r, c. split; [|by eapply cell_at_updated_here].
    apply peer_sym, visit_count_peer; [done..|].
    destruct (visit_count r c i j); [done|lia].
  - destruct (cands_full_at b i j l0 w Hb Hfull Hl0 Hw Hout) as (i' & j' & Hp & Hc').
    exists i', j'. split; [done|]. apply cell_at_updated_Fixed; [done|].
    intros [= <- <-]. by rewrite Hl in Hc'.
Qed.

Lemma admits_of_extends b s :
  grid9 b → cands_full b → complete s → consistent s → extends b s → admits b s.
Proof.
  intros Hb Hfull Hcomp Hcons Hext i j.
  destruct (cell_at b i j) as [[v|l]|] eqn:Hl; [by apply Hext| |done].
  destruct (cell_at_lt _ _ _ _ Hb Hl) as [Hi Hj].
  destruct (Hcomp i j Hi Hj) as (w & Hw & Hd). exists w. split; [done|].
  destruct (decide (w ∈ l)) as [|Hnot]; [done|exfalso].
  destruct (cands_full_at b i j l w Hb Hfull Hl Hd Hnot) as (i' & j' & Hp & Hc').
  pose proof (Hcons i j i' j' w Hw (Hext _ _ _ Hc') Hp) as [= <- <-].
  by rewrite Hl in Hc'.
Qed.

Lemma admits_child b s r c l w :
  grid9 b → consistent s → admits b s →
  cell_at b r c = Some (Cands l) → cell_at s r c = Some (Fixed w) →
  admits (updated r c w b) s.
Proof.
  intros Hb Hcons Hadm Hl Hw i j.
  destruct (cell_at_lt _ _ _ _ Hb Hl) as [Hr Hc].
  destruct (cell_at (updated r c w b) i j) as [x|] eqn:Hx; [|done].
  apply cell_at_updated_inv in Hx
    as [[[= <- <-] ->]|[Hne [(w' & -> & Hw')|(l0 & -> & Hl0)]]]; [done| |].
  - specialize (Hadm i j). by rewrite Hw' in Hadm.
  - specialize (Hadm i j). rewrite Hl0 in Hadm. destruct Hadm as (w0 & Hw0 & Hin).
    destruct (cell_at_lt _ _ _ _ Hb Hl0) as [Hi Hj].
    exists w0. split; [done|].
    destruct (decide (w0 = w)) as [->|Hne0]; [|by apply iter_discard_other].
    destruct (visit_count r c i j) eqn:Hvc; [done|exfalso].
    apply Hne, (Hcons r c i j w Hw Hw0).
    apply visit_count_peer; [done..|lia].
Qed.

Lemma admits_no_failure b s : board_ok b → admits b s → failure_test b = false.
Proof.
  intros [Hinv _] Hadm. apply not_true_is_false.
  intros (i & j & x & Hx & [-> | ->]%truthy_false)%failure_test_true.
  - specialize (Hadm i j). rewrite Hx in Hadm. destruct Hadm as (w & _ & Hin).
    by apply elem_of_nil in Hin.
  - apply (board_inv_fixed _ _ _ _ Hinv) in Hx. unfold digit in Hx. lia.
Qed.

(** The search below a board that admits a full grid without repeated
    numbers returns a board. *)
Lemma DFS_subtree_finds s k b rest count :
  consistent s → board_ok b → admits b s → (todo b < k)%nat →
  ∃ n res count', ∀ fuel,
    DFS_loop (n + fuel) (b :: rest) count = Returned (Some res) count'.
Proof.
  intros Hcons. revert b rest count.
  induction k as [|k IH]; intros b rest count Hok Hadm Hk; [lia|].
  destruct (goal_test b) eqn:Hg.
  { exists 1%nat, b, count. intros fuel. simpl. by rewrite DFS_iter_goal. }
  pose proof (admits_no_failure b s Hok Hadm) as Hf.
  pose proof Hok as [(Hb & _) _].
  destruct (DFS_iter_children b rest count Hok Hg Hf) as (i & j & l & _ & Hl & Hit).
  set (cs := (λ x, updated i j x b) <$> l) in *.
  assert (Forall board_ok (rev cs)) as Hall.
  { apply Forall_rev, Forall_fmap, Forall_forall. intros x Hx. simpl.
    by eapply board_ok_child. }
  assert (Exists (λ ch, (todo ch < k)%nat ∧ admits ch s) (rev cs)) as Hgood.
  { pose proof (Hadm i j) as Hij. rewrite Hl in Hij. destruct Hij as (w & Hw & Hin).
    apply Exists_exists. exists (updated i j w b). split_and!.
    - apply list_elem_of_In, (proj1 (in_rev _ _)), list_elem_of_In, list_elem_of_fmap.
      by exists w.
    - pose proof (todo_child b i j l w Hb Hl). lia.
    - by eapply admits_child. }
  assert (∀ count0, ∃ n res count', ∀ fuel,
            DFS_loop (n + fuel) (rev cs ++ rest) count0 = Returned (Some res) count')
    as Hchildren.
  { clear Hit. induction Hall as [|ch chs Hch _ IHchs]; intros count0.
    { by apply Exists_nil in Hgood. }
    apply Exists_cons in Hgood as [[Hlt Hadm']|Hgood].
    { apply (IH ch (chs ++ rest) count0 Hch Hadm' Hlt). }
    destruct (DFS_subtree_ends (S (todo ch)) ch (chs ++ rest) count0 Hch
                (Nat.lt_succ_diag_r _))
      as (n1 & [(res & count1 & H1)|(count1 & H1)]).
    - by exists n1, res, count1.
    - destruct (IHchs Hgood count1) as (n2 & res & count2 & H2).
      exists (n1 + n2)%nat, res, count2. intros fuel.
      by rewrite <-Nat.add_assoc, <-app_comm_cons, H1, H2. }
  destruct (Hchildren (count + Z.of_nat (length l))) as (n & res & count' & Hn).
  exists (S n), res, count'. intros fuel. simpl. by rewrite Hit, Hn.
Qed.

Lemma extends_consistent b s : extends b s → consistent s → consistent b.
Proof. intros Hext Hcons i j i' j' w H1 H2. apply (Hcons i j i' j' w); auto. Qed.

Lemma extends_check b b' : grid9 b → Forall (kept_at b b') cells_rm → extends b b'.
Proof.
  intros Hb Hall i j w Hw. rewrite Forall_forall in Hall.
  assert ((i, j) ∈ cells_rm) as Hij by (by eapply elem_of_cells_rm, cell_at_lt).
  specialize (Hall _ Hij). unfold kept_at in Hall. simpl in Hall. by rewrite Hw in Hall.
Qed.

(** X15.  Completeness of [DFS]: on a board of the data model whose
    candidate lists hold every number that the cell's row, column and
    subgrid leave free, if some full grid without repeated numbers has
    the numbers of the board, [DFS] returns a board, and that board is
    such a grid. *)
Theorem DFS_finds_solution b s :
  board_ok b → cands_full b →
  complete s → consistent s → extends b s →
  ∃ n res count,
    (∀ fuel, (n ≤ fuel)%nat → DFS fuel b = Returned (Some res) count) ∧
    complete res ∧ consistent res ∧ extends b res.
Proof.
  intros Hok Hfull Hcomp Hcons Hext. pose proof Hok as [(Hb & _) _].
  pose proof (admits_of_extends b s Hb Hfull Hcomp Hcons Hext) as Hadm.
  destruct (DFS_subtree_finds s (S (todo b)) b [] 0 Hcons Hok Hadm
              (Nat.lt_succ_diag_r _)) as (n & res & count & Hn).
  assert (DFS n b = Returned (Some res) count) as Hres.
  { unfold DFS. simpl Stack_new. rewrite <-(Hn 0%nat). f_equal. lia. }
  exists n, res, count. split.
  { intros fuel Hfuel. unfold DFS. simpl Stack_new.
    replace fuel with (n + (fuel - n))%nat by lia. apply Hn. }
  set (P := λ b', board_ok b' ∧ consistent b' ∧ extends b b').
  assert (P res) as (Hok' & Hcons' & Hext').
  { refine (proj2 (DFS_loop_ok P n [b] 0 _ _ _) res count Hres).
    - by intros b' [? _].
    - intros b' r c l x (Hb' & Hc' & He') Hl Hx. split_and!.
      + by eapply board_ok_child.
      + by eapply consistent_child; [apply Hb'|..].
      + by eapply extends_child.
    - apply Forall_cons. split; [|constructor]. subst P. simpl.
      split_and!; [done|by eapply extends_consistent|by intros ???]. }
  split_and!; [|done..]. apply goal_complete; [done|].
  eapply DFS_loop_Some. apply Hres.
Qed.

Lemma DFS_finds_solution_witness :
  board_ok first_game ∧ cands_full first_game ∧
  complete solved_board ∧ consistent solved_board ∧ extends first_game solved_board ∧
  ∃ n res count,
    (∀ fuel, (n ≤ fuel)%nat → DFS fuel first_game = Returned (Some res) count) ∧
    complete res ∧ consistent res ∧ extends first_game res.
Proof.
  assert (board_ok first_game) as Hok
    by (apply (bool_decide_unpack _); vm_compute; exact I).
  assert (cands_full first_game) as Hfull
    by (apply (bool_decide_unpack _); vm_compute; exact I).
  assert (board_ok solved_board) as Hok'
    by (apply (bool_decide_unpack _); vm_compute; exact I).
  assert (complete solved_board) as Hcomp
    by (apply goal_complete; [exact Hok'|reflexivity]).
  assert (consistent solved_board) as Hcons.
  { apply consistent_check; [apply Hok'|].
    apply (bool_decide_unpack _). vm_compute. exact I. }
  assert (extends first_game solved_board) as Hext.
  { apply extends_check; [apply Hok|].
    apply (bool_decide_unpack _). vm_compute. exact I. }
  split; [exact Hok|]. split; [exact Hfull|]. split; [exact Hcomp|].
  split; [exact Hcons|]. split; [exact Hext|].
  apply (DFS_finds_solution first_game solved_board Hok Hfull Hcomp Hcons Hext).
Defined.
(** ** Puzzles as [test_dfs_or_bfs] sets them up *)

Lemma extends_trans b1 b2 b3 : extends b1 b2 → extends b2 b3 → extends b1 b3.
Proof. intros H1 H2 i j w Hw. by apply H2, H1. Qed.

Lemma Board_init_full : cands_full Board_init.
Proof. apply (bool_decide_unpack _). vm_compute. exact I. Qed.

Lemma seed_from_ok b moves :
  board_ok b → cands_full b → Forall move_ok moves → NoDup (moves.*1) →
  Forall (λ m, ∃ l, cell_at b (Z.to_nat m.1.1) (Z.to_nat m.1.2) = Some (Cands l)) moves →
  ∃ b', for_each moves (λ '(row, col, v) b, update b row col v) b = Ok b' ∧
    board_ok b' ∧ cands_full b' ∧ extends b b' ∧
    Forall (λ m, cell_at b' (Z.to_nat m.1.1) (Z.to_nat m.1.2) = Some (Fixed m.2)) moves.
Proof.
  intros Hok Hfull Hmoves. revert b Hok Hfull.
  induction Hmoves as [|[[r c] v] moves (Hr & Hc & Hv) Hmoves IH];
    intros b Hok Hfull Hnd Hfree; simpl.
  { exists b. split_and!; [done..|by intros ???|constructor]. }
  simpl in Hr, Hc, Hv. pose proof Hok as [(Hb & _) _].
  apply NoDup_cons in Hnd as [Hnew Hnd]. simpl in Hnew.
  apply Forall_cons in Hfree as [[l Hl] Hfree]. simpl in Hl.
  assert (update b r c v = Ok (updated (Z.to_nat r) (Z.to_nat c) v b)) as ->.
  { rewrite <-(Z2Nat.id r) at 1 by lia. rewrite <-(Z2Nat.id c) at 1 by lia.
    apply update_updated; [done|lia..]. }
  rewrite bind_Ok. set (b1 := updated (Z.to_nat r) (Z.to_nat c) v b).
  destruct (IH b1) as (b' & Hb' & Hok' & Hfull' & Hext & Hset).
  - by eapply updated_ok.
  - by eapply cands_full_child.
  - done.
  - rewrite Forall_forall in Hfree, Hmoves. apply Forall_forall.
    intros [[r' c'] v'] Hm. destruct (Hfree _ Hm) as [l' Hl'].
    destruct (Hmoves _ Hm) as (Hr' & Hc' & _). simpl in *.
    eexists. apply cell_at_updated_Cands; [done|]. intros [= Hrr Hcc].
    apply Hnew, list_elem_of_fmap. exists (r', c', v'). split; [|done]. simpl.
    f_equal; lia.
  - exists b'. split_and!; [done..| |].
    + eapply extends_trans; [|done]. by eapply extends_child; [intros ???|].
    + apply Forall_cons. split; [|done]. simpl. apply Hext.
      by eapply cell_at_updated_here.
Qed.

(** X16.  A fresh board seeded with moves that have coordinates from 0
    to 8 and numbers from 1 to 9, no two of them for the same cell, is a
    board of the data model as [DFS] wants it: the invariant holds,
    [num_nums_placed] counts the assigned cells, every candidate list
    holds each number that its row, column and subgrid leave free, and
    each move's number is in its cell. *)
Theorem seed_board_ok moves :
  Forall move_ok moves → NoDup (moves.*1) →
  ∃ b, seed_board moves = Ok b ∧ board_ok b ∧ cands_full b ∧
    ∀ r c v, (r, c, v) ∈ moves → get_cell b r c = Ok (Fixed v).
Proof.
  intros Hmoves Hnd.
  destruct (seed_from_ok Board_init moves Board_init_ok Board_init_full Hmoves Hnd)
    as (b & Hb & Hok & Hfull & _ & Hset).
  { rewrite Forall_forall in Hmoves. apply Forall_forall.
    intros [[r c] v] (Hr & Hc & _)%Hmoves. simpl in *.
    eexists. apply cell_at_Board_init; lia. }
  exists b. split_and!; [done..|]. intros r c v Hm.
  rewrite Forall_forall in Hset, Hmoves.
  pose proof (Hset _ Hm) as Hcell. destruct (Hmoves _ Hm) as (Hr & Hc & _).
  simpl in *. apply get_cell_nat in Hcell. by rewrite !Z2Nat.id in Hcell by lia.
Qed.

Lemma seed_board_ok_witness :
  Forall move_ok first_moves ∧ NoDup (first_moves.*1) ∧
  ∃ b, seed_board first_moves = Ok b ∧ board_ok b ∧ cands_full b ∧
    ∀ r c v, (r, c, v) ∈ first_moves → get_cell b r c = Ok (Fixed v).
Proof.
  assert (Forall move_ok first_moves) as Hm
    by (apply (bool_decide_unpack _); vm_compute; exact I).
  assert (NoDup (first_moves.*1)) as Hnd
    by (apply (bool_decide_unpack _); vm_compute; exact I).
  split; [exact Hm|]. split; [exact Hnd|]. apply (seed_board_ok first_moves Hm Hnd).
Defined.

(** * The two layers agree *)

(** ** Methods that only read *)

Lemma M_bind_Raise {A B} (m : Store.M A) (f : A → Store.M B) h e h1 :
  m h = (Raise e, h1) → (m ≫= f) h = (Raise e, h1).
Proof. intros Hm. unfold mbind, Store.M_bind. by rewrite Hm. Qed.

Lemma M_bind_pure {A B} (m : Store.M A) (f : A → Store.M B) h r :
  m h = (r, h) →
  (m ≫= f) h = match r with Ok a => f a h | Raise e => (Raise e, h) end.
Proof. intros Hm. unfold mbind, Store.M_bind. rewrite Hm. by destruct r. Qed.

Lemma snapshot_Some h self B :
  Store.snapshot h self = Some B ↔
  ∃ g rws, h !! self = Some (Store.OBoard (size B) (num_nums_placed B) g) ∧
    h !! g = Some (Store.OGrid rws) ∧
    Forall2 (λ rl rw, Store.read_row h rl = Some rw) rws (rows B).
Proof.
  unfold Store.snapshot. split.
  - destruct (h !! self) as [[| | |sz p g|]|]; try done.
    destruct (h !! g) as [[| |rws| |]|] eqn:Hg; try done.
    destruct (mapM _ rws) as [rs|] eqn:Hrs; intros [= <-]. simpl.
    exists g, rws. split_and!; [done..|]. by apply mapM_Some.
  - intros (g & rws & -> & -> & Hrs). apply mapM_Some in Hrs. rewrite Hrs. simpl.
    by destruct B.
Qed.

Lemma getitem_Forall2 {A B} (R : A → B → Prop) (l : list A) (k : list B) i :
  Forall2 R l k →
  match getitem k i with
  | Ok y => ∃ x, getitem l i = Ok x ∧ R x y
  | Raise e => getitem l i = Raise e
  end.
Proof.
  intros HR. unfold getitem. rewrite (Forall2_length _ _ _ HR).
  destruct (index_of (length k) i) as [n|e]; simpl; [|done].
  destruct (k !! n) as [y|] eqn:Hy.
  - destruct (Forall2_lookup_r _ _ _ _ _ HR Hy) as (x & Hx & Hxy).
    exists x. by rewrite Hx.
  - apply lookup_ge_None in Hy. rewrite <-(Forall2_length _ _ _ HR) in Hy.
    apply lookup_ge_None in Hy. by rewrite Hy.
Qed.

Lemma store_get_size h self B :
  Store.snapshot h self = Some B → Store.get_size self h = (Ok (size B), h).
Proof.
  intros (g & Hself)%snapshot_board. unfold Store.get_size.
  by rewrite (M_bind_Ok _ _ _ _ _ (load_board_Some _ _ _ _ _ Hself)).
Qed.

Lemma store_get_row h self B i :
  Store.snapshot h self = Some B →
  match getitem (rows B) i with
  | Ok rw => ∃ rl, Store.get_row self i h = (Ok rl, h) ∧ Store.read_row h rl = Some rw
  | Raise e => Store.get_row self i h = (Raise e, h)
  end.
Proof.
  intros (g & rws & Hself & Hg & Hrows)%snapshot_Some. unfold Store.get_row.
  rewrite (M_bind_Ok _ _ _ _ _ (load_board_Some _ _ _ _ _ Hself)). cbv beta iota.
  rewrite (M_bind_Ok _ _ _ _ _ (load_grid_Some _ _ _ Hg)). unfold Store.lift.
  pose proof (getitem_Forall2 _ rws (rows B) i Hrows) as Hi.
  destruct (getitem (rows B) i) as [rw|e].
  - destruct Hi as (rl & -> & Hrl). by exists rl.
  - by rewrite Hi.
Qed.

Lemma store_get_cell h self B i j :
  Store.snapshot h self = Some B →
  match get_cell B i j with
  | Ok x => ∃ c, Store.get_cell self i j h = (Ok c, h) ∧ Store.read_cell h c = Some x
  | Raise e => Store.get_cell self i j h = (Raise e, h)
  end.
Proof.
  intros Hsnap. unfold get_cell, Store.get_cell.
  pose proof (store_get_row h self B i Hsnap) as Hi.
  destruct (getitem (rows B) i) as [rw|e]; simpl.
  2:{ by rewrite (M_bind_Raise _ _ _ _ _ Hi). }
  destruct Hi as (rl & Hrl & (cells & Hcells & Hrw)%read_row_Some).
  rewrite (M_bind_Ok _ _ _ _ _ Hrl).
  rewrite (M_bind_Ok _ _ _ _ _ (load_row_Some _ _ _ Hcells)). unfold Store.lift.
  pose proof (getitem_Forall2 _ cells rw j Hrw) as Hj.
  destruct (getitem rw j) as [x|e].
  - destruct Hj as (c & -> & Hc). by exists c.
  - by rewrite Hj.
Qed.

Lemma store_for_each_pure {A S} (xs : list A) (body : A → S → Store.M S)
    (vbody : A → S → result S) h s :
  (∀ x s, body x s h = (vbody x s, h)) →
  Store.for_each xs body s h = (for_each xs vbody s, h).
Proof.
  intros Hbody. revert s. induction xs as [|x xs IH]; intros s; simpl; [done|].
  rewrite (M_bind_pure _ _ _ _ (Hbody x s)). destruct (vbody x s); simpl; [apply IH|done].
Qed.

Lemma store_mcc_visit h self B i j st :
  Store.snapshot h self = Some B →
  Store.mcc_visit self i j st h = (mcc_visit B i j st, h).
Proof.
  intros Hsnap. destruct st as [[mini row] col]. unfold Store.mcc_visit, mcc_visit.
  pose proof (store_get_cell h self B i j Hsnap) as Hc.
  destruct (get_cell B i j) as [x|e]; simpl.
  2:{ by rewrite (M_bind_Raise _ _ _ _ _ Hc). }
  destruct Hc as (c & Hc & Hx). rewrite (M_bind_Ok _ _ _ _ _ Hc).
  destruct c as [v|l].
  - simpl in Hx. by injection Hx as <-.
  - apply read_cell_Ref in Hx as (items & Hl & ->).
    rewrite (M_bind_Ok _ _ _ _ _ (load_ints_Some _ _ _ Hl)). by case_decide.
Qed.

Lemma store_find_most_constrained_cell h self B :
  Store.snapshot h self = Some B →
  Store.find_most_constrained_cell self h = (find_most_constrained_cell B, h).
Proof.
  intros Hsnap. unfold Store.find_most_constrained_cell, find_most_constrained_cell.
  rewrite (M_bind_Ok _ _ _ _ _ (store_get_size _ _ _ Hsnap)).
  rewrite (M_bind_pure _ _ _ (for_each (range (size B)) (λ i st,
             for_each (range (size B)) (λ j st, mcc_visit B i j st) st) (size B, 0, 0))).
  - destruct (for_each _ _ _) as [[[mini row] col]|e]; by simpl.
  - apply store_for_each_pure. intros i st. apply store_for_each_pure.
    intros j st'. by apply store_mcc_visit.
Qed.

Lemma store_falsy h c x :
  Store.read_cell h c = Some x → Store.falsy c h = (Ok (negb (truthy x)), h).
Proof.
  destruct c as [v|l].
  - intros [= <-]. simpl. by rewrite negb_involutive.
  - intros (items & Hl & ->)%read_cell_Ref. unfold Store.falsy.
    rewrite (M_bind_Ok _ _ _ _ _ (load_ints_Some _ _ _ Hl)). simpl.
    by rewrite negb_involutive.
Qed.

Lemma store_failure_row h cells rw found :
  Forall2 (λ c x, Store.read_cell h c = Some x) cells rw →
  Store.for_each cells (λ c found,
      if found : bool then mret true else Store.falsy c) found h
  = (Ok (found || existsb (λ c, negb (truthy c)) rw), h).
Proof.
  intros Hrw. revert found.
  induction Hrw as [|c x cells rw Hx _ IH]; intros found; simpl.
  { by rewrite orb_false_r. }
  destruct found; simpl.
  - rewrite (M_bind_Ok _ _ h true h) by done. by rewrite IH.
  - rewrite (M_bind_Ok _ _ _ _ _ (store_falsy _ _ _ Hx)). by rewrite IH.
Qed.

Lemma store_failure_test h self B :
  Store.snapshot h self = Some B →
  Store.failure_test self h = (Ok (failure_test B), h).
Proof.
  intros (g & rws & Hself & Hg & Hrows)%snapshot_Some.
  unfold Store.failure_test, failure_test.
  rewrite (M_bind_Ok _ _ _ _ _ (load_board_Some _ _ _ _ _ Hself)). cbv beta iota.
  rewrite (M_bind_Ok _ _ _ _ _ (load_grid_Some _ _ _ Hg)).
  clear Hself Hg. destruct B as [sz p rs]. simpl in *.
  assert (∀ found,
    Store.for_each rws (λ rl found,
      if found : bool then mret true
      else
        cells ← Store.load_row rl;
        Store.for_each cells (λ c found,
          if found : bool then mret true else Store.falsy c) false) found h
    = (Ok (found || existsb (λ row, existsb (λ c, negb (truthy c)) row) rs), h))
    as Hloop; [|apply (Hloop false)].
  induction Hrows as [|rl rw rws rs (cells & Hcells & Hrw)%read_row_Some _ IH];
    intros found; simpl.
  { by rewrite orb_false_r. }
  destruct found; simpl.
  - rewrite (M_bind_Ok _ _ h true h) by done. by rewrite IH.
  - erewrite M_bind_Ok; [apply IH|].
    rewrite (M_bind_Ok _ _ _ _ _ (load_row_Some _ _ _ Hcells)).
    apply (store_failure_row _ _ _ false Hrw).
Qed.
(** ** Lists reached once *)

Lemma omap_lookup_inj (cells : list Store.slot) (b b' : nat) l :
  NoDup (omap slot_ref cells) →
  cells !! b = Some (Store.Ref l) → cells !! b' = Some (Store.Ref l) → b = b'.
Proof.
  revert b b'. induction cells as [|c cells IH]; intros b b' Hnd Hb Hb'; [done|].
  assert (∀ k : nat, cells !! k = Some (Store.Ref l) → l ∈ omap slot_ref cells) as Hin.
  { intros k Hk. apply list_elem_of_omap. exists (Store.Ref l).
    split; [by eapply list_elem_of_lookup_2|done]. }
  destruct b as [|b], b' as [|b']; simpl in *.
  - done.
  - injection Hb as ->. simpl in Hnd. apply NoDup_cons in Hnd as [Hnot _].
    destruct Hnot. eauto.
  - injection Hb' as ->. simpl in Hnd. apply NoDup_cons in Hnd as [Hnot _].
    destruct Hnot. eauto.
  - f_equal. apply IH; [|done..].
    destruct (slot_ref c); [by apply NoDup_cons in Hnd as [_ ?]|done].
Qed.

Lemma bind_lookup_inj {A B} (f : A → list B) (l : list A) (a a' : nat) x x' y :
  NoDup (l ≫= f) → l !! a = Some x → l !! a' = Some x' → y ∈ f x → y ∈ f x' →
  a = a'.
Proof.
  revert a a'. induction l as [|z l IH]; intros a a' Hnd Ha Ha' Hy Hy'; [done|].
  rewrite bind_cons in Hnd. apply NoDup_app in Hnd as (_ & Hdisj & Hnd).
  assert (∀ (k : nat) w, l !! k = Some w → y ∈ f w → y ∈ l ≫= f) as Hin.
  { intros k w Hk Hw. apply list_elem_of_bind. exists w.
    split; [done|by eapply list_elem_of_lookup_2]. }
  destruct a as [|a], a' as [|a']; simpl in *.
  - done.
  - injection Ha as ->. destruct (Hdisj y Hy). eauto.
  - injection Ha' as ->. destruct (Hdisj y Hy'). eauto.
  - f_equal. by apply IH.
Qed.

Lemma bind_lookup_NoDup {A B} (f : A → list B) (l : list A) (a : nat) x :
  NoDup (l ≫= f) → l !! a = Some x → NoDup (f x).
Proof.
  revert a. induction l as [|z l IH]; intros a Hnd Ha; [done|].
  rewrite bind_cons in Hnd. apply NoDup_app in Hnd as (Hz & _ & Hnd).
  destruct a as [|a]; simpl in *; [by injection Ha as ->|by eapply IH].
Qed.

Lemma bind_ext_all {A B} (f g : A → list B) (l : list A) :
  (∀ x, f x = g x) → l ≫= f = l ≫= g.
Proof. intros H. induction l as [|x l IH]; [done|]. by rewrite !bind_cons, H, IH. Qed.

Lemma bind_sublist {A B} (f g : A → list B) (l : list A) :
  (∀ x, f x `sublist_of` g x) → l ≫= f `sublist_of` l ≫= g.
Proof.
  intros H. induction l as [|x l IH]; [done|]. rewrite !bind_cons. by apply sublist_app.
Qed.

Lemma omap_insert_sublist (cells : list Store.slot) (k : nat) v :
  omap slot_ref (<[k := Store.Num v]> cells) `sublist_of` omap slot_ref cells.
Proof.
  revert k. induction cells as [|c cells IH]; intros k; [done|].
  destruct k as [|k]; simpl.
  - destruct (slot_ref c); [by apply sublist_cons|done].
  - destruct (slot_ref c); [by apply sublist_skip|done].
Qed.

Lemma row_refs_insert h (l : nat) o rl :
  (∀ cells, h !! l ≠ Some (Store.ORow cells)) → (∀ cells, o ≠ Store.ORow cells) →
  row_refs (<[l := o]> h) rl = row_refs h rl.
Proof.
  intros Hl Ho. unfold row_refs. destruct (decide (rl = l)) as [->|Hne].
  - destruct (h !! l) as [o'|] eqn:Hl'.
    + rewrite list_lookup_insert_eq by (by eapply lookup_lt_Some).
      destruct o as [its|cs|rs|sz p gg|]; [|exfalso; exact (Ho _ eq_refl)|..];
        (destruct o' as [its'|cs'|rs'|sz' p' gg'|]; [|exfalso; exact (Hl _ eq_refl)|..];
         done).
    + rewrite list_insert_ge by (by apply lookup_ge_None). by rewrite Hl'.
  - by rewrite list_lookup_insert_ne.
Qed.

Lemma stands_for_Some h self B :
  stands_for h self B ↔
  ∃ g rws, h !! self = Some (Store.OBoard (size B) (num_nums_placed B) g) ∧
    h !! g = Some (Store.OGrid rws) ∧
    Forall2 (λ rl rw, Store.read_row h rl = Some rw) rws (rows B) ∧
    NoDup rws ∧ NoDup (rws ≫= row_refs h).
Proof.
  unfold stands_for, unshared. rewrite snapshot_Some. split.
  - intros [(g & rws & Hself & Hg & Hrows) Hun]. rewrite Hself, Hg in Hun. naive_solver.
  - intros (g & rws & Hself & Hg & Hrows & Hnd). rewrite Hself, Hg. naive_solver.
Qed.

Lemma unshared_at h (rws : list nat) (a a' b b' : nat) rl rl' cells cells' l :
  NoDup (rws ≫= row_refs h) →
  rws !! a = Some rl → h !! rl = Some (Store.ORow cells) →
  cells !! b = Some (Store.Ref l) →
  rws !! a' = Some rl' → h !! rl' = Some (Store.ORow cells') →
  cells' !! b' = Some (Store.Ref l) →
  a = a' ∧ b = b'.
Proof.
  intros Hnd Ha Hrl Hb Ha' Hrl' Hb'.
  assert (∀ r cs (k : nat), h !! r = Some (Store.ORow cs) →
            cs !! k = Some (Store.Ref l) → l ∈ row_refs h r) as Hin.
  { intros r cs k Hr Hk. unfold row_refs. rewrite Hr. apply list_elem_of_omap.
    exists (Store.Ref l). split; [by eapply list_elem_of_lookup_2|done]. }
  assert (a = a') as <- by (eapply (bind_lookup_inj (row_refs h)); eauto).
  split; [done|]. assert (rl' = rl) as -> by congruence.
  assert (cells' = cells) as -> by congruence.
  eapply omap_lookup_inj; [|done..].
  pose proof (bind_lookup_NoDup _ _ _ _ Hnd Ha) as Hr. unfold row_refs in Hr.
  by rewrite Hrl in Hr.
Qed.

(** ** Writing to the lists of a board *)

Section heap_board.
Context (h : list Store.obj) (self : nat) (B : Board) (g : nat) (rws : list nat).
Context (Hself : h !! self = Some (Store.OBoard (size B) (num_nums_placed B) g)).
Context (Hg : h !! g = Some (Store.OGrid rws)).
Context (Hrows : Forall2 (λ rl rw, Store.read_row h rl = Some rw) rws (rows B)).
Context (Hnd : NoDup rws) (Hrefs : NoDup (rws ≫= row_refs h)).

Lemma store_get_row_at i :
  match getitem (rows B) i with
  | Ok rw => ∃ (ki : nat) rl cells,
      rws !! ki = Some rl ∧ rows B !! ki = Some rw ∧
      h !! rl = Some (Store.ORow cells) ∧
      Forall2 (λ c x, Store.read_cell h c = Some x) cells rw ∧
      (∀ y, setitem (rows B) i y = Ok (<[ki := y]> (rows B))) ∧
      Store.get_row self i h = (Ok rl, h)
  | Raise e => Store.get_row self i h = (Raise e, h)
  end.
Proof.
  unfold Store.get_row.
  rewrite (M_bind_Ok _ _ _ _ _ (load_board_Some _ _ _ _ _ Hself)). cbv beta iota.
  rewrite (M_bind_Ok _ _ _ _ _ (load_grid_Some _ _ _ Hg)). unfold Store.lift.
  unfold getitem, setitem. rewrite (Forall2_length _ _ _ Hrows).
  destruct (index_of (length (rows B)) i) as [ki|e]; simpl; [|done].
  destruct (rows B !! ki) as [rw|] eqn:Hrw.
  - destruct (Forall2_lookup_r _ _ _ _ _ Hrows Hrw)
      as (rl & Hrl & (cells & Hcells & Hrel)%read_row_Some).
    exists ki, rl, cells. by rewrite Hrl.
  - apply lookup_ge_None in Hrw. rewrite <-(Forall2_length _ _ _ Hrows) in Hrw.
    apply lookup_ge_None in Hrw. by rewrite Hrw.
Qed.

Lemma store_get_cell_at i j :
  match get_cell B i j with
  | Ok x => ∃ (ki kj : nat) rl rw cells c,
      rws !! ki = Some rl ∧ rows B !! ki = Some rw ∧
      h !! rl = Some (Store.ORow cells) ∧ cells !! kj = Some c ∧ rw !! kj = Some x ∧
      Store.read_cell h c = Some x ∧
      getitem (rows B) i = Ok rw ∧
      (∀ y, setitem rw j y = Ok (<[kj := y]> rw)) ∧
      (∀ y, setitem (rows B) i y = Ok (<[ki := y]> (rows B))) ∧
      Store.get_cell self i j h = (Ok c, h)
  | Raise e => Store.get_cell self i j h = (Raise e, h)
  end.
Proof.
  unfold get_cell, Store.get_cell. pose proof (store_get_row_at i) as Hi.
  destruct (getitem (rows B) i) as [rw|e]; simpl.
  2:{ by rewrite (M_bind_Raise _ _ _ _ _ Hi). }
  destruct Hi as (ki & rl & cells & Hki & Hrw & Hrl & Hrel & Hset & Hget).
  rewrite (M_bind_Ok _ _ _ _ _ Hget).
  rewrite (M_bind_Ok _ _ _ _ _ (load_row_Some _ _ _ Hrl)). unfold Store.lift.
  unfold getitem, setitem. rewrite (Forall2_length _ _ _ Hrel).
  destruct (index_of (length rw) j) as [kj|e] eqn:Hidx; simpl; [|done].
  destruct (rw !! kj) as [x|] eqn:Hx.
  - destruct (Forall2_lookup_r _ _ _ _ _ Hrel Hx) as (c & Hc & Hread).
    exists ki, kj, rl, rw, cells, c. rewrite Hc. split_and!; try done.
    intros y. by rewrite Hidx.
  - apply lookup_ge_None in Hx. rewrite <-(Forall2_length _ _ _ Hrel) in Hx.
    apply lookup_ge_None in Hx. by rewrite Hx.
Qed.

(** [lst.remove(elem)] on the candidate list of one cell. *)
Lemma store_ints_stands (ki kj : nat) rl rw cells l items items' :
  rws !! ki = Some rl → rows B !! ki = Some rw →
  h !! rl = Some (Store.ORow cells) → cells !! kj = Some (Store.Ref l) →
  h !! l = Some (Store.OInts items) →
  stands_for (<[l := Store.OInts items']> h) self
    (mkBoard (size B) (num_nums_placed B)
       (<[ki := <[kj := Cands items']> rw]> (rows B))).
Proof.
  intros Hki Hrw Hrl Hkj Hl. set (h' := <[l := Store.OInts items']> h).
  assert (∀ k o, h !! k = Some o → (∀ its, o ≠ Store.OInts its) → h' !! k = Some o)
    as Hother.
  { intros k o Hk Ho. subst h'. rewrite list_lookup_insert_ne; [done|].
    intros ->. rewrite Hl in Hk. injection Hk as <-. by eapply Ho. }
  assert (h' !! l = Some (Store.OInts items')) as Hl'
    by (apply list_lookup_insert_eq; by eapply lookup_lt_Some).
  apply stands_for_Some. exists g, rws. simpl. split_and!.
  - by apply Hother.
  - by apply Hother.
  - apply Forall2_same_length_lookup_2.
    { rewrite length_insert. by eapply Forall2_length. }
    intros a rl_a rw_a Ha Hrwa.
    destruct (Forall2_lookup_l _ _ _ _ _ Hrows Ha)
      as (rw0 & Hrw0 & (cells_a & Hca & Hcells)%read_row_Some).
    apply read_row_Some. exists cells_a. split; [by apply Hother|].
    apply list_lookup_insert_Some in Hrwa as [(<- & <- & _)|(Hna & Hrwa)].
    + assert (rw0 = rw) as -> by congruence.
      assert (rl_a = rl) as -> by congruence.
      assert (cells_a = cells) as -> by congruence.
      apply Forall2_same_length_lookup_2.
      { rewrite length_insert. by eapply Forall2_length. }
      intros b c x Hc Hx.
      apply list_lookup_insert_Some in Hx as [(<- & <- & _)|(Hnb & Hx)].
      * rewrite Hkj in Hc. injection Hc as <-. simpl. by rewrite Hl'.
      * pose proof (Forall2_lookup_lr _ _ _ _ _ _ Hcells Hc Hx) as Hread.
        destruct c as [w|l2]; [done|].
        apply read_cell_Ref in Hread as (its & Hl2 & ->). apply read_cell_Ref.
        exists its. split; [|done]. subst h'. rewrite list_lookup_insert_ne; [done|].
        intros <-. apply Hnb.
        by destruct (unshared_at h rws ki ki kj b rl rl cells cells l).
    + assert (rw0 = rw_a) as -> by congruence.
      apply Forall2_same_length_lookup_2; [by eapply Forall2_length|].
      intros b c x Hc Hx.
      pose proof (Forall2_lookup_lr _ _ _ _ _ _ Hcells Hc Hx) as Hread.
      destruct c as [w|l2]; [done|].
      apply read_cell_Ref in Hread as (its & Hl2 & ->). apply read_cell_Ref.
      exists its. split; [|done]. subst h'. rewrite list_lookup_insert_ne; [done|].
      intros <-. apply Hna.
      by destruct (unshared_at h rws ki a kj b rl rl_a cells cells_a l).
  - done.
  - erewrite bind_ext_all; [exact Hrefs|]. intros r.
    apply row_refs_insert; [intros ?; by rewrite Hl|done].
Qed.

(** [self.rows[row][column] = assignment] *)
Lemma store_row_stands (ki kj : nat) rl rw cells v :
  rws !! ki = Some rl → rows B !! ki = Some rw →
  h !! rl = Some (Store.ORow cells) →
  stands_for (<[rl := Store.ORow (<[kj := Store.Num v]> cells)]> h) self
    (mkBoard (size B) (num_nums_placed B)
       (<[ki := <[kj := Fixed v]> rw]> (rows B))).
Proof.
  intros Hki Hrw Hrl. set (h' := <[rl := _]> h).
  assert (∀ k o, h !! k = Some o → (∀ cs, o ≠ Store.ORow cs) → h' !! k = Some o)
    as Hother.
  { intros k o Hk Ho. subst h'. rewrite list_lookup_insert_ne; [done|].
    intros ->. rewrite Hrl in Hk. injection Hk as <-. by eapply Ho. }
  assert (h' !! rl = Some (Store.ORow (<[kj := Store.Num v]> cells))) as Hrl'
    by (apply list_lookup_insert_eq; by eapply lookup_lt_Some).
  assert (∀ c x, Store.read_cell h c = Some x → Store.read_cell h' c = Some x) as Hread.
  { intros c x Hc. apply read_cell_insert; [done|]. intros its. by rewrite Hrl. }
  apply stands_for_Some. exists g, rws. simpl. split_and!.
  - by apply Hother.
  - by apply Hother.
  - apply Forall2_same_length_lookup_2.
    { rewrite length_insert. by eapply Forall2_length. }
    intros a rl_a rw_a Ha Hrwa.
    destruct (Forall2_lookup_l _ _ _ _ _ Hrows Ha)
      as (rw0 & Hrw0 & (cells_a & Hca & Hcells)%read_row_Some).
    apply read_row_Some.
    apply list_lookup_insert_Some in Hrwa as [(<- & <- & _)|(Hna & Hrwa)].
    + assert (rw0 = rw) as -> by congruence.
      assert (rl_a = rl) as -> by congruence.
      assert (cells_a = cells) as -> by congruence.
      eexists. split; [exact Hrl'|]. apply Forall2_insert; [|done].
      eapply Forall2_impl; [exact Hcells|]. auto.
    + assert (rw0 = rw_a) as -> by congruence.
      exists cells_a. split.
      * subst h'. rewrite list_lookup_insert_ne; [done|]. intros <-.
        apply Hna. exact (NoDup_lookup _ _ _ _ Hnd Hki Ha).
      * eapply Forall2_impl; [exact Hcells|]. auto.
  - done.
  - eapply sublist_NoDup; [exact Hrefs|]. apply bind_sublist. intros r.
    unfold row_refs. destruct (decide (r = rl)) as [->|Hne].
    + rewrite Hrl', Hrl. apply omap_insert_sublist.
    + subst h'. by rewrite list_lookup_insert_ne.
Qed.

(** [self.num_nums_placed += 1] *)
Lemma store_board_stands p' :
  stands_for (<[self := Store.OBoard (size B) p' g]> h) self
    (mkBoard (size B) p' (rows B)).
Proof.
  set (h' := <[self := _]> h).
  assert (self ≠ g) as Hne by (intros ->; by rewrite Hself in Hg).
  apply stands_for_Some. exists g, rws. simpl. split_and!.
  - apply list_lookup_insert_eq. by eapply lookup_lt_Some.
  - subst h'. by rewrite list_lookup_insert_ne.
  - eapply Forall2_impl; [exact Hrows|]. intros rl rw Hrw.
    apply read_row_insert; [done|intros ?; by rewrite Hself..].
  - done.
  - erewrite bind_ext_all; [exact Hrefs|]. intros r.
    apply row_refs_insert; [intros ?; by rewrite Hself|done].
Qed.

End heap_board.
(** ** [update] on the heap and on values *)

Lemma refines_bind self (m : Store.M unit) (k : unit → Store.M unit) f f' :
  refines self m f → (∀ u, refines self (k u) f') →
  refines self (m ≫= k) (λ B, f B ≫= f').
Proof.
  intros Hm Hk h B Hst. specialize (Hm h B Hst). destruct (f B) as [B1|e]; simpl.
  - destruct Hm as (h1 & Hm & Hst1). rewrite (M_bind_Ok _ _ _ _ _ Hm).
    apply (Hk () h1 B1 Hst1).
  - destruct Hm as (h1 & Hm). exists h1. by rewrite (M_bind_Raise _ _ _ _ _ Hm).
Qed.

Lemma refines_for_each {A} self (xs : list A) (body : A → unit → Store.M unit)
    (vbody : A → Board → result Board) u :
  (∀ x u, refines self (body x u) (vbody x)) →
  refines self (Store.for_each xs body u) (for_each xs vbody).
Proof.
  intros Hbody. revert u. induction xs as [|x xs IH]; intros [] h B Hst; simpl.
  { by exists h. }
  pose proof (Hbody x () h B Hst) as Hx. destruct (vbody x B) as [B1|e]; simpl.
  - destruct Hx as (h1 & Hx & Hst1). rewrite (M_bind_Ok _ _ _ _ _ Hx).
    apply (IH () h1 B1 Hst1).
  - destruct Hx as (h1 & Hx). exists h1. by rewrite (M_bind_Raise _ _ _ _ _ Hx).
Qed.

Lemma Board_eta B : mkBoard (size B) (num_nums_placed B) (rows B) = B.
Proof. by destruct B. Qed.

Lemma refines_remove_at self i j v :
  refines self (Store.remove_at self i j v) (remove_at i j v).
Proof.
  intros h B Hst. pose proof Hst as (g & rws & Hself & Hg & Hrows & Hnd & Hrefs)%stands_for_Some.
  pose proof (store_get_cell_at h self B g rws Hself Hg Hrows i j) as Hc.
  unfold remove_at, Store.remove_at. unfold get_cell in Hc.
  destruct (getitem (rows B) i) as [rw|e]; simpl in *.
  2:{ exists h. by rewrite (M_bind_Raise _ _ _ _ _ Hc). }
  destruct (getitem rw j) as [x|e]; simpl in *.
  2:{ exists h. by rewrite (M_bind_Raise _ _ _ _ _ Hc). }
  destruct Hc as (ki & kj & rl & rw' & cells & c & Hki & Hrw & Hrl & Hkj & Hx & Hread
                  & [= <-] & Hset1 & Hset2 & Hget).
  rewrite Hset1, bind_Ok, Hset2, bind_Ok. rewrite (M_bind_Ok _ _ _ _ _ Hget).
  destruct c as [w|l].
  - simpl in Hread. injection Hread as <-. simpl. exists h. split; [done|].
    rewrite (list_insert_id rw) by done. rewrite list_insert_id by done.
    by rewrite Board_eta.
  - apply read_cell_Ref in Hread as (items & Hl & ->). unfold Store.remove_if_exists.
    rewrite (M_bind_Ok _ _ _ _ _ (load_ints_Some _ _ _ Hl)). simpl.
    case_decide.
    + eexists. split; [done|]. by eapply store_ints_stands.
    + exists h. split; [done|].
      rewrite (list_insert_id rw) by done. rewrite list_insert_id by done.
      by rewrite Board_eta.
Qed.

(** [Board.update] does to the objects of a board that shares no list
    what [update] does to the board as a value, and raises when it
    raises. *)
Lemma refines_update self row column assignment :
  refines self (Store.update self row column assignment)
    (λ B, update B row column assignment).
Proof.
  intros h B Hst.
  pose proof Hst as (g & rws & Hself & Hg & Hrows & Hnd & Hrefs)%stands_for_Some.
  pose proof (store_get_row_at h self B g rws Hself Hg Hrows row) as Hrow.
  unfold update, Store.update.
  destruct (getitem (rows B) row) as [rw|e]; simpl.
  2:{ exists h. by rewrite (M_bind_Raise _ _ _ _ _ Hrow). }
  destruct Hrow as (ki & rl & cells & Hki & Hrw & Hrl & Hrel & Hset & Hget).
  rewrite (M_bind_Ok _ _ _ _ _ Hget).
  rewrite (M_bind_Ok _ _ _ _ _ (load_row_Some _ _ _ Hrl)).
  assert (index_of (length cells) column = index_of (length rw) column) as Hidx
    by (by rewrite (Forall2_length _ _ _ Hrel)).
  destruct (index_of (length rw) column) as [kj|e] eqn:Hkj.
  2:{ assert (setitem rw column (Fixed assignment) = Raise e) as ->
        by (unfold setitem; by rewrite Hkj).
      assert (setitem cells column (Store.Num assignment) = Raise e) as ->
        by (unfold setitem; by rewrite Hidx).
      simpl. exists h. by rewrite (M_bind_Raise _ _ h e h). }
  assert (setitem rw column (Fixed assignment) = Ok (<[kj := Fixed assignment]> rw))
    as -> by (unfold setitem; by rewrite Hkj).
  assert (setitem cells column (Store.Num assignment)
          = Ok (<[kj := Store.Num assignment]> cells))
    as -> by (unfold setitem; by rewrite Hidx).
  rewrite (M_bind_Ok _ _ h (<[kj := Store.Num assignment]> cells) h) by done.
  rewrite bind_Ok, Hset, bind_Ok.
  set (h1 := <[rl := Store.ORow (<[kj := Store.Num assignment]> cells)]> h).
  rewrite (M_bind_Ok _ _ h () h1) by done.
  pose proof (store_row_stands h self B g rws Hself Hg Hrows Hnd Hrefs
                ki kj rl rw cells assignment Hki Hrw Hrl) as Hst1.
  fold h1 in Hst1.
  pose proof Hst1 as (g1 & rws1 & Hself1 & Hg1 & Hrows1 & Hnd1 & Hrefs1)%stands_for_Some.
  simpl in Hself1, Hrows1.
  rewrite (M_bind_Ok _ _ _ _ _ (load_board_Some _ _ _ _ _ Hself1)). cbv beta iota.
  set (h2 := <[self := Store.OBoard (size B) (num_nums_placed B + 1) g1]> h1).
  rewrite (M_bind_Ok _ _ h1 () h2) by done.
  pose proof (store_board_stands h1 self
                (mkBoard (size B) (num_nums_placed B)
                   (<[ki := <[kj := Fixed assignment]> rw]> (rows B)))
                g1 rws1 Hself1 Hg1 Hrows1 Hnd1 Hrefs1
                (num_nums_placed B + 1)) as Hst2.
  fold h2 in Hst2. simpl in Hst2.
  rewrite (M_bind_Ok _ _ _ _ _ (store_get_size _ _ _ (proj1 Hst2))). simpl.
  set (b1 := mkBoard (size B) (num_nums_placed B + 1)
               (<[ki := <[kj := Fixed assignment]> rw]> (rows B))) in *.
  pose proof (refines_for_each self (range (size B))
                (λ i _, _ ← Store.remove_at self row i assignment;
                        Store.remove_at self i column assignment)
                (λ i b, b' ← remove_at row i assignment b;
                        remove_at i column assignment b') ()) as Hloop.
  specialize (Hloop (λ i u, refines_bind self _ _ _ _
                       (refines_remove_at self row i assignment)
                       (λ _, refines_remove_at self i column assignment)) h2 b1 Hst2).
  destruct (for_each (range (size B)) _ b1) as [b2|e]; simpl.
  2:{ destruct Hloop as (h3 & Hloop). exists h3.
      by rewrite (M_bind_Raise _ _ _ _ _ Hloop). }
  destruct Hloop as (h3 & Hloop & Hst3). rewrite (M_bind_Ok _ _ _ _ _ Hloop).
  unfold Store.lift.
  destruct (subgrid_coordinates row column) as [coords|e]; simpl.
  2:{ exists h3. by rewrite (M_bind_Raise _ _ h3 e h3). }
  rewrite (M_bind_Ok _ _ h3 coords h3) by done.
  apply (refines_for_each self coords
           (λ '(i, j) _, Store.remove_at self i j assignment)
           (λ '(i, j) b, remove_at i j assignment b) ()); [|done].
  intros [i j] u. apply refines_remove_at.
Qed.
(** ** [copy.deepcopy] of a board that shares no list *)

Lemma M_bind_inv {A B} (m : Store.M A) (f : A → Store.M B) h b h' :
  (m ≫= f) h = (Ok b, h') → ∃ a h1, m h = (Ok a, h1) ∧ f a h1 = (Ok b, h').
Proof. unfold mbind, Store.M_bind. destruct (m h) as [[a|e] h1]; [eauto|done]. Qed.

Lemma load_inv l h o h1 : Store.load l h = (Ok o, h1) → h1 = h ∧ h !! l = Some o.
Proof. unfold Store.load. destruct (h !! l); [|done]. by intros [= <- <-]. Qed.

Lemma load_ints_inv l h items h1 :
  Store.load_ints l h = (Ok items, h1) → h1 = h ∧ h !! l = Some (Store.OInts items).
Proof.
  unfold Store.load_ints. intros (o & h2 & [-> Ho]%load_inv & Hrest)%M_bind_inv.
  destruct o; try done. by injection Hrest as <- <-.
Qed.

Lemma load_row_inv l h cells h1 :
  Store.load_row l h = (Ok cells, h1) → h1 = h ∧ h !! l = Some (Store.ORow cells).
Proof.
  unfold Store.load_row. intros (o & h2 & [-> Ho]%load_inv & Hrest)%M_bind_inv.
  destruct o; try done. by injection Hrest as <- <-.
Qed.

Lemma load_grid_inv l h rws h1 :
  Store.load_grid l h = (Ok rws, h1) → h1 = h ∧ h !! l = Some (Store.OGrid rws).
Proof.
  unfold Store.load_grid. intros (o & h2 & [-> Ho]%load_inv & Hrest)%M_bind_inv.
  destruct o; try done. by injection Hrest as <- <-.
Qed.

Lemma copy_ints_fresh l m h l' m' h' :
  Store.copied m l = None → Store.copy_ints l m h = (Ok (l', m'), h') →
  l' = length h ∧ m' = (l, l') :: m ∧ ∃ o, h' = h ++ [o].
Proof.
  intros Hc. unfold Store.copy_ints. rewrite Hc.
  intros (items & h1 & [-> Hl]%load_ints_inv & Hrest)%M_bind_inv.
  apply M_bind_inv in Hrest as (l1 & h1 & Halloc & Hret).
  unfold Store.alloc in Halloc. injection Halloc as <- <-.
  injection Hret as <- <- <-. eauto.
Qed.

Lemma copy_cells_fresh cells : ∀ acc m h cells' m' h',
  NoDup (omap slot_ref cells) →
  (∀ l, l ∈ omap slot_ref cells → Store.copied m l = None) →
  Store.for_each cells (λ c '(cells', m),
      '(c', m) ← Store.copy_slot c m; mret (cells' ++ [c'], m)) (acc, m) h
    = (Ok (cells', m'), h') →
  ∃ new ext, cells' = acc ++ new ∧ h' = h ++ ext ∧
    Forall (λ l, length h ≤ l < length h')%nat (omap slot_ref new) ∧
    NoDup (omap slot_ref new) ∧
    ∀ k, Store.copied m k = None → k ∉ omap slot_ref cells →
         Store.copied m' k = None.
Proof.
  induction cells as [|c cells IH]; intros acc m h cells' m' h' Hnd Hmiss Hrun.
  { simpl in Hrun. injection Hrun as <- <- <-. exists [], []. rewrite !app_nil_r.
    split_and!; [done..|constructor|constructor|done]. }
  simpl in Hrun. apply M_bind_inv in Hrun as ([acc1 m1] & h1 & Hstep & Hrun).
  apply M_bind_inv in Hstep as ([c1 m1'] & h1' & Hslot & Hret).
  injection Hret as <- <- <-.
  destruct c as [v|l]; simpl in Hslot.
  - injection Hslot as <- <- <-.
    destruct (IH _ _ _ _ _ _ Hnd Hmiss Hrun) as (new & ext & -> & -> & Hb & Hn & Hm).
    exists (Store.Num v :: new), ext. rewrite <-app_assoc. by split_and!.
  - apply M_bind_inv in Hslot as ([l1 m2] & h2 & Hints & Hret).
    injection Hret as <- <- <-.
    simpl in Hnd. apply NoDup_cons in Hnd as [Hl Hnd].
    apply copy_ints_fresh in Hints as (-> & -> & o & ->);
      [|apply Hmiss; simpl; apply list_elem_of_here].
    assert (∀ l2, l2 ∈ omap slot_ref cells →
              Store.copied ((l, length h) :: m) l2 = None) as Hmiss'.
    { intros l2 Hl2. simpl. rewrite decide_False by (intros ->; done).
      apply Hmiss. simpl. by apply list_elem_of_further. }
    destruct (IH _ _ _ _ _ _ Hnd Hmiss' Hrun)
      as (new & ext & -> & -> & Hb & Hn & Hm).
    exists (Store.Ref (length h) :: new), (o :: ext). rewrite <-!app_assoc. simpl.
    split_and!; [done|done| | |].
    + constructor; [rewrite !length_app; simpl; lia|].
      eapply Forall_impl; [exact Hb|]. intros l0. rewrite !length_app. simpl. lia.
    + apply NoDup_cons. split; [|done]. intros Hin. rewrite Forall_forall in Hb.
      specialize (Hb _ Hin). rewrite !length_app in Hb. simpl in Hb. lia.
    + intros k Hk Hnot. simpl in Hnot. apply not_elem_of_cons in Hnot as [Hkl Hnot].
      apply Hm; [|done]. simpl. by rewrite decide_False.
Qed.

Lemma copy_row_fresh rl m h rl' m' h' :
  Store.copied m rl = None → NoDup (row_refs h rl) →
  (∀ l, l ∈ row_refs h rl → Store.copied m l = None ∧ l ≠ rl) →
  Store.copy_row rl m h = (Ok (rl', m'), h') →
  rl' = length h ∧ (∃ ext, h' = h ++ ext) ∧
  NoDup (row_refs h' rl') ∧
  Forall (λ l, length h < l < length h')%nat (row_refs h' rl') ∧
  (length h < length h')%nat ∧
  ∀ k, Store.copied m k = None → k ≠ rl → k ∉ row_refs h rl →
       Store.copied m' k = None.
Proof.
  intros Hc Hnd Hmiss. unfold Store.copy_row. rewrite Hc.
  intros (cells & h1 & [-> Hrl]%load_row_inv & Hrun)%M_bind_inv.
  apply M_bind_inv in Hrun as (rl0 & h1 & Halloc & Hrun).
  unfold Store.alloc in Halloc. injection Halloc as <- <-.
  apply M_bind_inv in Hrun as ([cells' m2] & h2 & Hloop & Hrun).
  apply M_bind_inv in Hrun as ([] & h3 & Hstore & Hret).
  unfold Store.store in Hstore. injection Hstore as <-. injection Hret as <- <- <-.
  unfold row_refs in Hnd, Hmiss. rewrite Hrl in Hnd, Hmiss.
  apply copy_cells_fresh in Hloop as (new & ext & -> & -> & Hb & Hn & Hm); [|done|].
  2:{ intros l Hl. destruct (Hmiss _ Hl) as [Hcl Hne]. simpl.
      by rewrite decide_False by done. }
  simpl app.
  assert (<[length h := Store.ORow new]> ((h ++ [Store.ORow []]) ++ ext)
          = h ++ Store.ORow new :: ext) as ->.
  { rewrite <-app_assoc. simpl. rewrite insert_app_r_alt by lia.
    by rewrite Nat.sub_diag. }
  assert (row_refs (h ++ Store.ORow new :: ext) (length h) = omap slot_ref new) as ->.
  { unfold row_refs. by rewrite lookup_app_r, Nat.sub_diag by lia. }
  split_and!; [done|by eauto|done| |rewrite length_app; simpl; lia|].
  - eapply Forall_impl; [exact Hb|]. intros l. rewrite !length_app. simpl. lia.
  - intros k Hk Hne Hnot. unfold row_refs in Hnot. rewrite Hrl in Hnot.
    apply Hm; [|done]. simpl. by rewrite decide_False.
Qed.

Lemma bind_ext_in {A B} (f g : A → list B) (l : list A) :
  (∀ x, x ∈ l → f x = g x) → l ≫= f = l ≫= g.
Proof.
  intros H. induction l as [|x l IH]; [done|]. rewrite !bind_cons.
  rewrite H by apply list_elem_of_here. rewrite IH; [done|].
  intros y Hy. apply H. by apply list_elem_of_further.
Qed.

Lemma row_refs_app h ext rl : (rl < length h)%nat → row_refs (h ++ ext) rl = row_refs h rl.
Proof. intros Hrl. unfold row_refs. by rewrite lookup_app_l. Qed.

Lemma copy_rows_fresh rws : ∀ acc m h rws' m' h',
  NoDup rws → NoDup (rws ≫= row_refs h) →
  Forall (λ rl, (rl < length h)%nat ∧ Store.copied m rl = None ∧
                rl ∉ rws ≫= row_refs h) rws →
  Forall (λ l, Store.copied m l = None) (rws ≫= row_refs h) →
  NoDup acc → NoDup (acc ≫= row_refs h) →
  Forall (λ l, (l < length h)%nat) acc →
  Forall (λ l, (l < length h)%nat) (acc ≫= row_refs h) →
  Store.for_each rws (λ rl '(rws', m),
      '(rl', m) ← Store.copy_row rl m; mret (rws' ++ [rl'], m)) (acc, m) h
    = (Ok (rws', m'), h') →
  NoDup rws' ∧ NoDup (rws' ≫= row_refs h') ∧ ∃ ext, h' = h ++ ext.
Proof.
  induction rws as [|rl rws IH];
    intros acc m h rws' m' h' Hnd Hrefs Hrws Hmiss Hacc Haccr Hlt Hltr Hrun.
  { simpl in Hrun. injection Hrun as <- <- <-. split_and!; [done..|].
    exists []. by rewrite app_nil_r. }
  simpl in Hrun. apply M_bind_inv in Hrun as ([acc1 m1] & h1 & Hstep & Hrun).
  apply M_bind_inv in Hstep as ([rl1 m1'] & h1' & Hrow & Hret).
  injection Hret as <- <- <-.
  apply NoDup_cons in Hnd as [Hrl Hnd]. rewrite bind_cons in Hrefs, Hmiss.
  apply NoDup_app in Hrefs as (Hrefs1 & Hdisj & Hrefs).
  apply Forall_cons in Hrws as [(Hrllt & Hrlc & Hrlnot) Hrws].
  apply Forall_app in Hmiss as [Hmiss1 Hmiss].
  rewrite bind_cons in Hrlnot. apply not_elem_of_app in Hrlnot as [Hrlnot1 Hrlnot2].
  rewrite Forall_forall in Hmiss1.
  apply copy_row_fresh in Hrow as (-> & (ext1 & ->) & Hn1 & Hb1 & Hlen & Hm); [|done..|].
  2:{ intros l Hl. split; [by apply Hmiss1|]. intros ->. done. }
  assert (rws ≫= row_refs (h ++ ext1) = rws ≫= row_refs h) as Hsame.
  { apply bind_ext_in. intros r Hr. apply row_refs_app.
    rewrite Forall_forall in Hrws. by destruct (Hrws _ Hr). }
  assert (acc ≫= row_refs (h ++ ext1) = acc ≫= row_refs h) as Hsame'.
  { apply bind_ext_in. intros r Hr. apply row_refs_app.
    rewrite Forall_forall in Hlt. auto. }
  apply IH in Hrun as (Hnd' & Hrefs' & ext2 & ->).
  - split_and!; [done..|]. exists (ext1 ++ ext2). by rewrite app_assoc.
  - done.
  - by rewrite Hsame.
  - rewrite Hsame. rewrite Forall_forall in Hrws. apply Forall_forall.
    intros r Hr. destruct (Hrws _ Hr) as (Hrlt & Hrc & Hrnot).
    rewrite bind_cons in Hrnot. apply not_elem_of_app in Hrnot as [Hrnot1 Hrnot2].
    split_and!; [rewrite length_app; lia| |done].
    apply Hm; [done| |done]. intros ->. done.
  - rewrite Hsame. rewrite Forall_forall in Hmiss. apply Forall_forall.
    intros l Hl. apply Hm; [by apply Hmiss| |].
    + intros ->. done.
    + intros Hl1. by apply (Hdisj l).
  - apply NoDup_app. split_and!; [done| |apply NoDup_singleton].
    intros x Hx ->%list_elem_of_singleton. rewrite Forall_forall in Hlt.
    specialize (Hlt _ Hx). lia.
  - rewrite bind_app, bind_singleton, Hsame'. apply NoDup_app. split_and!; [done| |done].
    intros x Hx Hx'. rewrite Forall_forall in Hltr, Hb1.
    specialize (Hltr _ Hx). specialize (Hb1 _ Hx'). lia.
  - apply Forall_app. split.
    + eapply Forall_impl; [exact Hlt|]. intros x. simpl. lia.
    + repeat constructor. done.
  - rewrite bind_app, bind_singleton, Hsame'. apply Forall_app. split.
    + eapply Forall_impl; [exact Hltr|]. intros x. simpl. lia.
    + eapply Forall_impl; [exact Hb1|]. intros x. simpl. lia.
Qed.
Lemma rows_typed h rws rows :
  Forall2 (λ rl rw, Store.read_row h rl = Some rw) rws rows →
  Forall (λ rl, (rl < length h)%nat ∧ (∃ cells, h !! rl = Some (Store.ORow cells)) ∧
                Forall (λ l, ∃ items, h !! l = Some (Store.OInts items))
                  (row_refs h rl)) rws.
Proof.
  intros H. apply Forall_forall. intros rl Hrl.
  apply list_elem_of_lookup in Hrl as [a Ha].
  destruct (Forall2_lookup_l _ _ _ _ _ H Ha)
    as (rw & _ & (cells & Hc & Hrel)%read_row_Some).
  split_and!; [by eapply lookup_lt_Some|by eauto|].
  unfold row_refs. rewrite Hc. apply Forall_forall.
  intros l (c & Hin & Hl)%list_elem_of_omap.
  destruct c as [|l0]; [done|]. injection Hl as ->.
  apply list_elem_of_lookup in Hin as [b Hb].
  destruct (Forall2_lookup_l _ _ _ _ _ Hrel Hb) as (x & _ & Hread).
  apply read_cell_Ref in Hread as (items & ? & _). eauto.
Qed.

(** The copy of a board that shares no list shares no list. *)
Lemma deepcopy_unshared h self B cpy h' :
  stands_for h self B → Store.deepcopy self h = (Ok cpy, h') → unshared h' cpy.
Proof.
  intros (g & rws & Hself & Hg & Hrows & Hnd & Hrefs)%stands_for_Some.
  pose proof (rows_typed _ _ _ Hrows) as Htyped. rewrite Forall_forall in Htyped.
  assert (self ≠ g) as Hsg by (intros ->; by rewrite Hself in Hg).
  unfold Store.deepcopy.
  rewrite (M_bind_Ok _ _ _ _ _ (load_board_Some _ _ _ _ _ Hself)). cbv beta iota.
  intros (self' & h1 & Halloc & Hrun)%M_bind_inv.
  unfold Store.alloc in Halloc. injection Halloc as <- <-.
  apply M_bind_inv in Hrun as ([g' m'] & h2 & Hgrid & Hrun).
  apply M_bind_inv in Hrun as ([] & h3 & Hstore & Hret).
  unfold Store.store in Hstore. injection Hstore as <-. injection Hret as <- <-.
  unfold Store.copy_grid in Hgrid.
  assert (Store.copied [(self, length h)] g = None) as Hcop
    by (simpl; by rewrite decide_False).
  rewrite Hcop in Hgrid.
  apply M_bind_inv in Hgrid as (rws0 & hx & [-> Hg1]%load_grid_inv & Hgrid).
  rewrite lookup_app_l, Hg in Hg1 by (by eapply lookup_lt_Some). injection Hg1 as <-.
  apply M_bind_inv in Hgrid as (g0 & h1' & Halloc2 & Hgrid).
  unfold Store.alloc in Halloc2. injection Halloc2 as <- <-.
  apply M_bind_inv in Hgrid as ([rws' m2] & h4 & Hloop & Hgrid).
  apply M_bind_inv in Hgrid as ([] & h5 & Hstore2 & Hret2).
  unfold Store.store in Hstore2. injection Hstore2 as <-. injection Hret2 as <- <- <-.
  set (hs := (h ++ [Store.ONew]) ++ [Store.OGrid []]) in *.
  assert (length hs = S (S (length h))) as Hlen
    by (subst hs; rewrite !length_app; simpl; lia).
  assert (rws ≫= row_refs hs = rws ≫= row_refs h) as Hsame.
  { apply bind_ext_in. intros r Hr. subst hs. rewrite <-app_assoc.
    apply row_refs_app. by destruct (Htyped _ Hr). }
  apply copy_rows_fresh in Hloop as (Hnd' & Hrefs' & ext & ->);
    [|done|by rewrite Hsame| | |constructor..].
  - assert ((hs ++ ext) !! length h = Some Store.ONew) as Hnew.
    { subst hs. rewrite lookup_app_l by lia. rewrite lookup_app_l by (rewrite length_app; simpl; lia).
      by rewrite lookup_app_r, Nat.sub_diag. }
    assert ((hs ++ ext) !! length (h ++ [Store.ONew]) = Some (Store.OGrid [])) as Hgrid.
    { subst hs. rewrite lookup_app_l by (rewrite !length_app; simpl; lia).
      by rewrite lookup_app_r, Nat.sub_diag. }
    assert (length h ≠ length (h ++ [Store.ONew])) as Hne
      by (rewrite length_app; simpl; lia).
    unfold unshared.
    rewrite list_lookup_insert_eq by (rewrite length_insert; by eapply lookup_lt_Some).
    rewrite list_lookup_insert_ne by done.
    rewrite list_lookup_insert_eq by (by eapply lookup_lt_Some).
    split; [done|]. erewrite bind_ext_all; [exact Hrefs'|]. intros r.
    rewrite row_refs_insert; [|intros ?; by rewrite list_lookup_insert_ne, Hnew|done].
    apply row_refs_insert; [intros ?; by rewrite Hgrid|done].
  - rewrite Hsame. apply Forall_forall. intros r Hr.
    destruct (Htyped _ Hr) as (Hlt & (cells & Hcells) & Hints).
    split_and!; [lia| |].
    + simpl. rewrite !decide_False; [done|intros ->; congruence..].
    + intros (r' & Hin & Hr')%list_elem_of_bind.
      destruct (Htyped _ Hr') as (_ & _ & Hints'). rewrite Forall_forall in Hints'.
      destruct (Hints' _ Hin) as [items Hitems]. congruence.
  - rewrite Hsame. apply Forall_forall. intros l (r & Hin & Hr)%list_elem_of_bind.
    destruct (Htyped _ Hr) as (_ & _ & Hints). rewrite Forall_forall in Hints.
    destruct (Hints _ Hin) as [items Hitems].
    simpl. rewrite !decide_False; [done|intros ->; congruence..].
Qed.

Lemma unshared_keeps h h' self B :
  Store.keeps (length h) h h' → stands_for h self B → unshared h' self.
Proof.
  intros Hk (g & rws & Hself & Hg & Hrows & Hnd & Hrefs)%stands_for_Some.
  pose proof (rows_typed _ _ _ Hrows) as Htyped. rewrite Forall_forall in Htyped.
  unfold unshared.
  rewrite (keeps_lookup _ _ _ _ Hk Hself), (keeps_lookup _ _ _ _ Hk Hg).
  split; [done|]. erewrite bind_ext_in; [exact Hrefs|]. intros r Hr.
  destruct (Htyped _ Hr) as (_ & (cells & Hcells) & _). unfold row_refs.
  by rewrite (keeps_lookup _ _ _ _ Hk Hcells), Hcells.
Qed.

Lemma stands_for_keeps h h' self B :
  Store.keeps (length h) h h' → stands_for h self B → stands_for h' self B.
Proof.
  intros Hk Hst. split; [|by eapply unshared_keeps].
  eapply snapshot_keeps; [done|apply Hst].
Qed.

Lemma stack_rel_keeps h h' stack vstack :
  Store.keeps (length h) h h' → stack_rel h stack vstack → stack_rel h' stack vstack.
Proof.
  intros Hk Hrel. eapply Forall2_impl; [exact Hrel|]. intros l B.
  by apply stands_for_keeps.
Qed.

(** ** [DFS] on the heap and on values *)

Lemma store_branch h stack (vstack : Stack) curr Bc row col pos count :
  stack_rel h stack vstack → stands_for h curr Bc →
  match branch Bc row col pos (vstack, count) with
  | Ok (vstack', count') => ∃ stack' h',
      Store.branch curr row col pos (stack, count) h = (Ok (stack', count'), h') ∧
      Store.keeps (length h) h h' ∧ stack_rel h' stack' vstack'
  | Raise e => ∃ h', Store.branch curr row col pos (stack, count) h = (Raise e, h')
  end.
Proof.
  intros Hstack Hcurr. unfold branch, Store.branch, deepcopy.
  destruct (deepcopy_ok h curr Bc (proj1 Hcurr)) as (h1 & Hcopy & Hsnap).
  pose proof (deepcopy_unshared _ _ _ _ _ Hcurr Hcopy) as Hun.
  destruct (above_deepcopy (length h) curr h _ _ (closed_length h) Hcopy)
    as (Hclosed & Hk1 & _).
  rewrite (M_bind_Ok _ _ _ _ _ Hcopy).
  pose proof (refines_update (length h) row col pos h1 Bc (conj Hsnap Hun)) as Hupd.
  cbv beta in Hupd. destruct (update Bc row col pos) as [B'|e]; simpl.
  - destruct Hupd as (h2 & Hupd & Hst2). rewrite (M_bind_Ok _ _ _ _ _ Hupd).
    destruct (above_update (length h) (length h) row col pos (le_n _) h1 _ _ Hclosed Hupd)
      as (_ & Hk2 & _).
    exists (length h :: stack), h2. unfold push.
    assert (Store.keeps (length h) h h2) as Hk by (by eapply keeps_trans).
    split_and!; [done|done|].
    apply Forall2_cons. split; [done|]. by eapply stack_rel_keeps.
  - destruct Hupd as (h2 & Hupd). exists h2. by rewrite (M_bind_Raise _ _ _ _ _ Hupd).
Qed.

Lemma store_branches items : ∀ h stack (vstack : Stack) curr Bc row col count,
  stack_rel h stack vstack → stands_for h curr Bc →
  match for_each items (branch Bc row col) (vstack, count) with
  | Ok (vstack', count') => ∃ stack' h',
      Store.for_each items (Store.branch curr row col) (stack, count) h
        = (Ok (stack', count'), h') ∧
      Store.keeps (length h) h h' ∧ stack_rel h' stack' vstack'
  | Raise e => ∃ h',
      Store.for_each items (Store.branch curr row col) (stack, count) h = (Raise e, h')
  end.
Proof.
  induction items as [|pos items IH]; intros h stack vstack curr Bc row col count Hstack Hcurr.
  { simpl. exists stack, h. split_and!; [done|apply keeps_refl|done]. }
  cbn [for_each Store.for_each].
  pose proof (store_branch h stack vstack curr Bc row col pos count Hstack Hcurr) as Hb.
  destruct (branch Bc row col pos (vstack, count)) as [[vstack1 count1]|e].
  - destruct Hb as (stack1 & h1 & Hb & Hk1 & Hstack1).
    rewrite (M_bind_Ok _ _ _ _ _ Hb), bind_Ok.
    specialize (IH h1 stack1 vstack1 curr Bc row col count1 Hstack1
                  (stands_for_keeps _ _ _ _ Hk1 Hcurr)).
    destruct (for_each items (branch Bc row col) (vstack1, count1))
      as [[vstack2 count2]|e].
    + destruct IH as (stack2 & h2 & IH & Hk2 & Hstack2). exists stack2, h2.
      split_and!; [done| |done]. eapply keeps_trans; [done|].
      eapply keeps_weaken; [|done]. by eapply keeps_length.
    + done.
  - destruct Hb as (h1 & Hb). exists h1. by rewrite (M_bind_Raise _ _ _ _ _ Hb).
Qed.

Lemma store_expand h stack (vstack : Stack) curr Bc count :
  stack_rel h stack vstack → stands_for h curr Bc →
  match expand Bc (vstack, count) with
  | Ok (vstack', count') => ∃ stack' h',
      Store.expand curr (stack, count) h = (Ok (stack', count'), h') ∧
      stack_rel h' stack' vstack'
  | Raise e => ∃ h', Store.expand curr (stack, count) h = (Raise e, h')
  end.
Proof.
  intros Hstack Hcurr. unfold expand, Store.expand.
  rewrite (M_bind_pure _ _ _ _ (store_find_most_constrained_cell _ _ _ (proj1 Hcurr))).
  destruct (find_most_constrained_cell Bc) as [[row col]|e]; simpl; [|by exists h].
  pose proof (store_get_cell h curr Bc row col (proj1 Hcurr)) as Hc.
  destruct (get_cell Bc row col) as [x|e]; simpl.
  2:{ exists h. by rewrite (M_bind_Raise _ _ _ _ _ Hc). }
  destruct Hc as (c & Hc & Hread). rewrite (M_bind_Ok _ _ _ _ _ Hc).
  destruct c as [v|l].
  - simpl in Hread. injection Hread as <-. by exists h.
  - apply read_cell_Ref in Hread as (items & Hl & ->).
    rewrite (M_bind_Ok _ _ _ _ _ (load_ints_Some _ _ _ Hl)).
    pose proof (store_branches items h stack vstack curr Bc row col count Hstack Hcurr)
      as Hloop.
    destruct (for_each items (branch Bc row col) (vstack, count)) as [[vs' c']|e]; [|done].
    destruct Hloop as (stack' & h' & Hloop & _ & Hrel). by exists stack', h'.
Qed.
(** X17.  On a heap where [self] reads as the board [B], the methods
    that only read return what the functions on values return for [B]
    and leave the heap as it is: [find_most_constrained_cell] with its
    exceptions, [failure_test] and [goal_test]. *)
Theorem store_reads_agree h self B :
  Store.snapshot h self = Some B →
  Store.find_most_constrained_cell self h = (find_most_constrained_cell B, h) ∧
  Store.failure_test self h = (Ok (failure_test B), h) ∧
  Store.goal_test self h = (Ok (goal_test B), h).
Proof.
  intros Hsnap. split_and!.
  - by apply store_find_most_constrained_cell.
  - by apply store_failure_test.
  - by apply store_goal_test.
Qed.

Lemma store_reads_agree_witness :
  Store.snapshot fresh_heap 91 = Some Board_init ∧
  Store.find_most_constrained_cell 91 fresh_heap
    = (find_most_constrained_cell Board_init, fresh_heap) ∧
  Store.failure_test 91 fresh_heap = (Ok (failure_test Board_init), fresh_heap) ∧
  Store.goal_test 91 fresh_heap = (Ok (goal_test Board_init), fresh_heap).
Proof.
  assert (Store.snapshot fresh_heap 91 = Some Board_init) as Hs
    by (vm_compute; reflexivity).
  split; [exact Hs|]. apply (store_reads_agree fresh_heap 91%nat Board_init Hs).
Defined.

(** X18.  [Board.update] on the objects of a board that shares no list
    does what [update] does to the board as a value: when [update]
    returns a board, the method returns and the reference reads as that
    board, still sharing no list; when [update] raises, the method
    raises the same exception. *)
Theorem store_update_agrees h self B row column assignment :
  stands_for h self B →
  match update B row column assignment with
  | Ok B' => ∃ h',
      Store.update self row column assignment h = (Ok (), h') ∧ stands_for h' self B'
  | Raise e => ∃ h', Store.update self row column assignment h = (Raise e, h')
  end.
Proof. apply refines_update. Qed.

Lemma store_update_agrees_witness :
  stands_for fresh_heap 91 Board_init ∧
  match update Board_init 0 1 7 with
  | Ok B' => ∃ h', Store.update 91 0 1 7 fresh_heap = (Ok (), h') ∧ stands_for h' 91 B'
  | Raise e => ∃ h', Store.update 91 0 1 7 fresh_heap = (Raise e, h')
  end.
Proof.
  assert (stands_for fresh_heap 91 Board_init) as Hs
    by (apply (bool_decide_unpack _); vm_compute; exact I).
  split; [exact Hs|]. apply (store_update_agrees fresh_heap 91%nat Board_init 0 1 7 Hs).
Defined.

(** X20.  [copy.deepcopy] of a board that shares no list returns a new
    reference that reads as the same board and shares no list, neither
    within itself nor with the original, which reads as before. *)
Theorem deepcopy_stands h self B :
  stands_for h self B →
  ∃ h', Store.deepcopy self h = (Ok (length h), h') ∧
    stands_for h' (length h) B ∧ stands_for h' self B ∧
    Store.keeps (length h) h h'.
Proof.
  intros Hst. destruct (deepcopy_ok h self B (proj1 Hst)) as (h' & Hcopy & Hsnap).
  destruct (above_deepcopy (length h) self h _ _ (closed_length h) Hcopy)
    as (_ & Hk & _).
  exists h'. split_and!; [done| |by eapply stands_for_keeps|done].
  split; [done|]. by eapply deepcopy_unshared.
Qed.

Lemma deepcopy_stands_witness :
  stands_for fresh_heap 91 Board_init ∧
  ∃ h', Store.deepcopy 91 fresh_heap = (Ok (length fresh_heap), h') ∧
    stands_for h' (length fresh_heap) Board_init ∧ stands_for h' 91 Board_init ∧
    Store.keeps (length fresh_heap) fresh_heap h'.
Proof.
  assert (stands_for fresh_heap 91 Board_init) as Hs
    by (apply (bool_decide_unpack _); vm_compute; exact I).
  split; [exact Hs|]. apply (deepcopy_stands fresh_heap 91%nat Board_init Hs).
Defined.
Lemma store_DFS_iter h stack (vstack : Stack) count :
  stack_rel h stack vstack →
  match DFS_iter vstack count with
  | Continue vstack' count' => ∃ stack' h',
      Store.DFS_iter stack count h = (Ok (Store.Continue stack' count'), h') ∧
      stack_rel h' stack' vstack'
  | Return None count' =>
      Store.DFS_iter stack count h = (Ok (Store.Return None count'), h)
  | Return (Some R) count' => ∃ l,
      Store.DFS_iter stack count h = (Ok (Store.Return (Some l) count'), h) ∧
      stands_for h l R
  | Throw e => ∃ h', Store.DFS_iter stack count h = (Raise e, h')
  end.
Proof.
  intros Hrel. destruct Hrel as [|curr Bc stack vstack Hcurr Hrel]; [done|].
  unfold DFS_iter. cbn [is_empty pop bool_decide decide_rel]. simpl.
  rewrite (M_bind_Ok _ _ _ _ _ (store_goal_test _ _ _ (proj1 Hcurr))).
  destruct (goal_test Bc); [by exists curr|].
  rewrite (M_bind_Ok _ _ _ _ _ (store_failure_test _ _ _ (proj1 Hcurr))).
  destruct (failure_test Bc); simpl; [by exists stack, h|].
  pose proof (store_expand h stack vstack curr Bc count Hrel Hcurr) as He.
  match type of He with
  | context [expand Bc ?st] =>
      destruct (expand Bc st) as [[vs' c']|e]; cbv beta iota in He |- *
  end.
  - destruct He as (stack' & h' & He & Hrel'). rewrite (M_bind_Ok _ _ _ _ _ He).
    by exists stack', h'.
  - destruct He as (h' & He). exists h'. by rewrite (M_bind_Raise _ _ _ _ _ He).
Qed.

Lemma store_DFS_loop fuel : ∀ h stack (vstack : Stack) count,
  stack_rel h stack vstack →
  agrees (Store.DFS_loop fuel stack count h) (DFS_loop fuel vstack count).
Proof.
  induction fuel as [|fuel IH]; intros h stack vstack count Hrel; [done|].
  cbn [DFS_loop Store.DFS_loop].
  pose proof (store_DFS_iter h stack vstack count Hrel) as Hit.
  destruct (DFS_iter vstack count) as [vs' c'|[R|] c'|e].
  - destruct Hit as (stack' & h' & -> & Hrel'). by apply IH.
  - destruct Hit as (l & -> & Hl). by split.
  - by rewrite Hit.
  - destruct Hit as (h' & ->). done.
Qed.

(** X19.  [DFS] on the objects of the heap comes to what [DFS] on
    values comes to, for a board that shares no list: the same
    exception or the same end of the fuel, the same [count], [None] for
    [None], and for a returned board a reference that reads as that
    board. *)
Theorem store_DFS_agrees fuel h state B :
  stands_for h state B → agrees (Store.DFS fuel state h) (DFS fuel B).
Proof.
  intros Hst. unfold Store.DFS, DFS. apply store_DFS_loop.
  by apply Forall2_cons.
Qed.

Lemma store_DFS_agrees_witness :
  stands_for fresh_heap 91 Board_init ∧
  agrees (Store.DFS 3 91 fresh_heap) (DFS 3 Board_init).
Proof.
  assert (stands_for fresh_heap 91 Board_init) as Hs
    by (apply (bool_decide_unpack _); vm_compute; exact I).
  split; [exact Hs|]. apply (store_DFS_agrees 3 fresh_heap 91%nat Board_init Hs).
Defined.

(** ** [Board.__init__] on the heap *)

Lemma keeps_app_ext h ext : Store.keeps (length h) h (h ++ ext).
Proof.
  split; [rewrite length_app; lia|]. intros l Hl. by apply lookup_app_l.
Qed.

(** The loop of [new_row]: one new list of the numbers 1 to 9 per
    cell. *)
Lemma new_cells_loop (ks : list Z) : ∀ acc h,
  ∃ new ext,
    Store.for_each ks (λ _ cells,
        l ← Store.alloc (Store.OInts (seqZ 1 9)); mret (cells ++ [Store.Ref l])) acc h
      = (Ok (acc ++ new), h ++ ext) ∧
    length new = length ks ∧
    Forall (λ c, Store.read_cell (h ++ ext) c = Some (Cands (seqZ 1 9))) new ∧
    Forall (λ l, length h ≤ l < length (h ++ ext))%nat (omap slot_ref new) ∧
    NoDup (omap slot_ref new).
Proof.
  induction ks as [|k ks IH]; intros acc h.
  { exists [], []. rewrite !app_nil_r. split_and!; [done..|constructor|constructor|constructor]. }
  destruct (IH (acc ++ [Store.Ref (length h)]) (h ++ [Store.OInts (seqZ 1 9)]))
    as (new & ext & Hloop & Hlen & Hread & Hb & Hn).
  exists (Store.Ref (length h) :: new), (Store.OInts (seqZ 1 9) :: ext).
  rewrite <-!app_assoc in *. simpl in *.
  split_and!.
  - by rewrite (M_bind_Ok _ _ h (acc ++ [Store.Ref (length h)])
                  (h ++ [Store.OInts (seqZ 1 9)])) by done.
  - by rewrite Hlen.
  - constructor; [|done]. simpl. by rewrite lookup_app_r, Nat.sub_diag by lia.
  - constructor; [rewrite length_app; simpl; lia|].
    eapply Forall_impl; [exact Hb|]. intros l. rewrite !length_app. simpl. lia.
  - apply NoDup_cons. split; [|done]. intros Hin. rewrite Forall_forall in Hb.
    specialize (Hb _ Hin). rewrite !length_app in Hb. simpl in Hb. lia.
Qed.

Lemma store_new_row h :
  ∃ rl ext,
    Store.new_row 9 h = (Ok rl, h ++ ext) ∧ (length h ≤ rl < length (h ++ ext))%nat ∧
    Store.read_row (h ++ ext) rl = Some (replicate 9 (Cands (seqZ 1 9))) ∧
    Forall (λ l, length h ≤ l < length (h ++ ext))%nat (row_refs (h ++ ext) rl) ∧
    NoDup (row_refs (h ++ ext) rl).
Proof.
  destruct (new_cells_loop (range 9) [] h) as (new & ext & Hloop & Hlen & Hread & Hb & Hn).
  rewrite app_nil_l in Hloop. change (length (range 9)) with 9%nat in Hlen.
  exists (length (h ++ ext)), (ext ++ [Store.ORow new]).
  unfold Store.new_row. rewrite (M_bind_Ok _ _ _ _ _ Hloop).
  rewrite !app_assoc.
  assert (((h ++ ext) ++ [Store.ORow new]) !! length (h ++ ext) = Some (Store.ORow new))
    as Hrl by (by rewrite lookup_app_r, Nat.sub_diag by lia).
  assert (row_refs ((h ++ ext) ++ [Store.ORow new]) (length (h ++ ext))
          = omap slot_ref new) as Hrefs by (unfold row_refs; by rewrite Hrl).
  split; [done|]. split; [rewrite !length_app; simpl; lia|]. split; [|split].
  - apply read_row_Some. exists new. split; [done|].
    apply Forall2_replicate_r; [done|].
    eapply Forall_impl; [exact Hread|]. intros c Hc.
    eapply read_cell_keeps; [apply keeps_app_ext|done].
  - rewrite Hrefs. eapply Forall_impl; [exact Hb|]. intros l.
    rewrite !length_app. simpl. lia.
  - by rewrite Hrefs.
Qed.

(** The loop of [Board.__init__] over the rows. *)
Lemma new_rows_loop (ks : list Z) : ∀ acc h,
  Forall (λ rl, Store.read_row h rl = Some (replicate 9 (Cands (seqZ 1 9)))) acc →
  NoDup acc → NoDup (acc ≫= row_refs h) →
  Forall (λ l, l < length h)%nat acc →
  Forall (λ l, l < length h)%nat (acc ≫= row_refs h) →
  ∃ rws ext,
    Store.for_each ks (λ _ rws, l ← Store.new_row 9; mret (rws ++ [l])) acc h
      = (Ok rws, h ++ ext) ∧
    length rws = (length acc + length ks)%nat ∧
    Forall (λ rl, Store.read_row (h ++ ext) rl
                  = Some (replicate 9 (Cands (seqZ 1 9)))) rws ∧
    NoDup rws ∧ NoDup (rws ≫= row_refs (h ++ ext)).
Proof.
  induction ks as [|k ks IH]; intros acc h Hread Hnd Hrefs Hlt Hltr.
  { exists acc, []. rewrite !app_nil_r. split_and!; [done|simpl; lia|done..]. }
  destruct (store_new_row h) as (rl & ext1 & Hrow & Hrl & Hrd1 & Hb1 & Hn1).
  assert (acc ≫= row_refs (h ++ ext1) = acc ≫= row_refs h) as Hsame.
  { apply bind_ext_in. intros r Hr. apply row_refs_app.
    rewrite Forall_forall in Hlt. auto. }
  destruct (IH (acc ++ [rl]) (h ++ ext1)) as (rws & ext2 & Hloop & Hlen & Hrd & Hnd' & Hrefs').
  - apply Forall_app. split; [|by repeat constructor].
    eapply Forall_impl; [exact Hread|]. intros r Hr.
    eapply read_row_keeps; [apply keeps_app_ext|done].
  - apply NoDup_app. split_and!; [done| |apply NoDup_singleton].
    intros x Hx ->%list_elem_of_singleton. rewrite Forall_forall in Hlt.
    specialize (Hlt _ Hx). lia.
  - rewrite bind_app, bind_singleton, Hsame. apply NoDup_app. split_and!; [done| |done].
    intros x Hx Hx'. rewrite Forall_forall in Hltr, Hb1.
    specialize (Hltr _ Hx). specialize (Hb1 _ Hx'). lia.
  - apply Forall_app. split; [|repeat constructor; lia].
    eapply Forall_impl; [exact Hlt|]. intros x. rewrite length_app. simpl. lia.
  - rewrite bind_app, bind_singleton, Hsame. apply Forall_app. split.
    + eapply Forall_impl; [exact Hltr|]. intros x. rewrite length_app. simpl. lia.
    + eapply Forall_impl; [exact Hb1|]. intros x. simpl. lia.
  - exists rws, (ext1 ++ ext2). rewrite app_assoc. split_and!; [|..|done|done|done].
    + cbn [Store.for_each].
      by rewrite (M_bind_Ok _ _ h (acc ++ [rl]) (h ++ ext1))
        by (by rewrite (M_bind_Ok _ _ _ _ _ Hrow)).
    + rewrite Hlen, length_app. simpl. lia.
Qed.

(** [Board()] on any heap: a new board that reads as the fresh board of
    the value layer and shares no list; the objects there were stay as
    they are. *)
Lemma store_Board_new h :
  ∃ self h', Store.Board_new h = (Ok self, h') ∧
    stands_for h' self Board_init ∧ Store.keeps (length h) h h'.
Proof.
  destruct (new_rows_loop (range 9) [] h) as (rws & ext & Hloop & Hlen & Hrd & Hnd & Hrefs);
    [constructor..|].
  change (length [] + length (range 9))%nat with 9%nat in Hlen.
  unfold Store.Board_new. cbv zeta.
  rewrite (M_bind_Ok _ _ _ _ _ Hloop).
  set (h1 := h ++ ext) in *. set (g := length h1).
  set (h2 := h1 ++ [Store.OGrid rws]).
  rewrite (M_bind_Ok _ _ h1 g h2) by done.
  exists (length h2), (h2 ++ [Store.OBoard 9 0 g]). split; [done|].
  assert (Store.keeps (length h1) h1 (h2 ++ [Store.OBoard 9 0 g])) as Hk1.
  { subst h2. rewrite <-app_assoc. apply keeps_app_ext. }
  split.
  - apply stands_for_Some. exists g, rws. split_and!.
    + by rewrite lookup_app_r, Nat.sub_diag by lia.
    + subst h2 g. rewrite lookup_app_l by (rewrite length_app; simpl; lia).
      by rewrite lookup_app_r, Nat.sub_diag by lia.
    + change (rows Board_init) with (replicate 9 (replicate 9 (Cands (seqZ 1 9)))).
      apply Forall2_replicate_r; [done|].
      eapply Forall_impl; [exact Hrd|]. intros rl Hrl.
      eapply read_row_keeps; [exact Hk1|done].
    + done.
    + erewrite bind_ext_in; [exact Hrefs|]. intros r Hr.
      rewrite Forall_forall in Hrd. specialize (Hrd _ Hr).
      apply read_row_Some in Hrd as (cells & Hc & _).
      subst h2. rewrite <-app_assoc. apply row_refs_app. by eapply lookup_lt_Some.
  - eapply keeps_trans; [apply keeps_app_ext|].
    eapply keeps_weaken; [|exact Hk1]. subst h1. rewrite length_app. lia.
Qed.
(** X21.  [Board()] on any heap returns a new board that reads as the
    fresh board of the value layer, with nine row lists and 81 candidate
    lists that are all different objects; the objects there were stay
    as they are. *)
Theorem Board_new_stands h :
  ∃ self h', Store.Board_new h = (Ok self, h') ∧
    stands_for h' self Board_init ∧ Store.keeps (length h) h h'.
Proof. apply store_Board_new. Qed.

(** ** The script *)

(** The assigned numbers of a seeded board are those of the board
    before and those of the moves. *)
Lemma seed_from_fixed moves : ∀ b b',
  grid9 b → Forall move_ok moves →
  for_each moves (λ '(row, col, v) b, update b row col v) b = Ok b' →
  ∀ i j w, cell_at b' i j = Some (Fixed w) →
    cell_at b i j = Some (Fixed w) ∨ (Z.of_nat i, Z.of_nat j, w) ∈ moves.
Proof.
  induction moves as [|[[r c] v] moves IH]; intros b b' Hb Hmoves Hrun i j w Hw.
  { injection Hrun as <-. by left. }
  apply Forall_cons in Hmoves as [(Hr & Hc & _) Hmoves]. simpl in Hr, Hc.
  cbn [for_each] in Hrun.
  assert (update b r c v = Ok (updated (Z.to_nat r) (Z.to_nat c) v b)) as Hu.
  { rewrite <-(Z2Nat.id r) at 1 by lia. rewrite <-(Z2Nat.id c) at 1 by lia.
    apply update_updated; [done|lia..]. }
  rewrite Hu, bind_Ok in Hrun.
  destruct (IH _ _ (updated_grid9 _ _ _ _ Hb) Hmoves Hrun i j w Hw) as [Hw1|Hin].
  - apply cell_at_updated_inv in Hw1
      as [[[= <- <-] [= ->]]|[_ [(w' & [= <-] & Hw')|(l & [=] & _)]]].
    + right. rewrite !Z2Nat.id by lia. apply list_elem_of_here.
    + by left.
  - right. by apply list_elem_of_further.
Qed.

Lemma DFS_solution b s :
  board_ok b → cands_full b →
  complete s → consistent s → extends b s →
  ∃ n res count,
    (∀ fuel, (n ≤ fuel)%nat → DFS fuel b = Returned (Some res) count) ∧
    complete res ∧ consistent res ∧ extends b res.
Proof.
  intros Hok Hfull Hcomp Hcons Hext. pose proof Hok as [(Hb & _) _].
  pose proof (admits_of_extends b s Hb Hfull Hcomp Hcons Hext) as Hadm.
  destruct (DFS_subtree_finds s (S (todo b)) b [] 0 Hcons Hok Hadm
              (Nat.lt_succ_diag_r _)) as (n & res & count & Hn).
  assert (DFS n b = Returned (Some res) count) as Hres.
  { unfold DFS. simpl Stack_new. rewrite <-(Hn 0%nat). f_equal. lia. }
  exists n, res, count. split.
  { intros fuel Hfuel. unfold DFS. simpl Stack_new.
    replace fuel with (n + (fuel - n))%nat by lia. apply Hn. }
  set (P := λ b', board_ok b' ∧ consistent b' ∧ extends b b').
  assert (P res) as (Hok' & Hcons' & Hext').
  { refine (proj2 (DFS_loop_ok P n [b] 0 _ _ _) res count Hres).
    - by intros b' [? _].
    - intros b' r c l x (Hb' & Hc' & He') Hl Hx. split_and!.
      + by eapply board_ok_child.
      + by eapply consistent_child; [apply Hb'|..].
      + by eapply extends_child.
    - apply Forall_cons. split; [|constructor]. subst P. simpl.
      split_and!; [done|by eapply extends_consistent|by intros ???]. }
  split_and!; [|done..]. apply goal_complete; [done|].
  eapply DFS_loop_Some. apply Hres.
Qed.

(** X22.  The script on a puzzle that has a solution: for moves with
    coordinates from 0 to 8 and numbers from 1 to 9, no two for the
    same cell, such that some full grid without repeated numbers has
    the number of every move in its cell, [Board()], the updates and
    [DFS] run without an exception on any heap, and [DFS] returns a
    reference to a board that is such a grid. *)
Theorem test_dfs_solves h moves s :
  Forall move_ok moves → NoDup (moves.*1) →
  complete s → consistent s →
  (∀ r c v, (r, c, v) ∈ moves → get_cell s r c = Ok (Fixed v)) →
  ∃ n count R,
    complete R ∧ consistent R ∧
    (∀ r c v, (r, c, v) ∈ moves → get_cell R r c = Ok (Fixed v)) ∧
    ∀ fuel, (n ≤ fuel)%nat → ∃ l h',
      test_dfs fuel moves h = (Store.Returned (Some l) count, h') ∧
      Store.snapshot h' l = Some R.
Proof.
  intros Hmoves Hnd Hcomp Hcons Hs.
  destruct (store_Board_new h) as (self & h1 & Hnew & Hst1 & _).
  destruct (seed_from_ok Board_init moves Board_init_ok Board_init_full Hmoves Hnd)
    as (B & Hseed & Hok & Hfull & _ & Hset).
  { rewrite Forall_forall in Hmoves. apply Forall_forall.
    intros [[r c] v] (Hr & Hc & _)%Hmoves. simpl in *.
    eexists. apply cell_at_Board_init; lia. }
  assert (extends B s) as Hext.
  { intros i j w Hw.
    destruct (seed_from_fixed moves _ _ (proj1 Board_init_inv) Hmoves Hseed i j w Hw)
      as [Hw0|Hin].
    - destruct (cell_at_lt _ _ _ _ (proj1 Board_init_inv) Hw0).
      by rewrite cell_at_Board_init in Hw0.
    - apply Hs, get_cell_Ok in Hin; [|lia..]. by rewrite !Nat2Z.id in Hin. }
  destruct (DFS_solution B s Hok Hfull Hcomp Hcons Hext)
    as (n & R & count & Hrun & HcompR & HconsR & HextR).
  pose proof (refines_for_each self moves
                (λ '(row, col, v) _, Store.update self row col v)
                (λ '(row, col, v) b, update b row col v) ()) as Hloop.
  specialize (Hloop (λ '(row, col, v) u, refines_update self row col v) h1 Board_init Hst1).
  rewrite Hseed in Hloop. destruct Hloop as (h2 & Hloop & Hst2).
  exists n, count, R. split_and!; [done..| |].
  - intros r c v Hin. rewrite Forall_forall in Hset, Hmoves.
    pose proof (Hset _ Hin) as Hcell. destruct (Hmoves _ Hin) as (Hr & Hc & _).
    simpl in *. apply HextR, get_cell_nat in Hcell.
    by rewrite !Z2Nat.id in Hcell by lia.
  - intros fuel Hfuel. unfold test_dfs, test_setup.
    rewrite (M_bind_Ok _ _ _ _ _ Hnew), (M_bind_Ok _ _ _ _ _ Hloop).
    cbn [mret Store.M_ret].
    assert (stack_rel h2 [self] [B]) as Hrel
      by (apply Forall2_cons; split; [exact Hst2|constructor]).
    pose proof (store_DFS_loop fuel h2 [self] [B] 0 Hrel) as Hag.
    pose proof (Hrun fuel Hfuel) as Hv. unfold DFS in Hv. simpl Stack_new in Hv.
    unfold agrees in Hag. rewrite Hv in Hag.
    unfold Store.DFS.
    destruct (Store.DFS_loop fuel [self] 0 h2) as [[[l|] count'| |] h'];
      cbn [fst snd] in Hag; try (exfalso; exact Hag).
    destruct Hag as [-> Hl]. exists l, h'. split; [reflexivity|apply Hl].
Qed.

Lemma test_dfs_solves_witness :
  Forall move_ok first_moves ∧ NoDup (first_moves.*1) ∧
  complete solved_board ∧ consistent solved_board ∧
  (∀ r c v, (r, c, v) ∈ first_moves → get_cell solved_board r c = Ok (Fixed v)) ∧
  ∃ n count R,
    complete R ∧ consistent R ∧
    (∀ r c v, (r, c, v) ∈ first_moves → get_cell R r c = Ok (Fixed v)) ∧
    ∀ fuel, (n ≤ fuel)%nat → ∃ l h',
      test_dfs fuel first_moves [] = (Store.Returned (Some l) count, h') ∧
      Store.snapshot h' l = Some R.
Proof.
  assert (Forall move_ok first_moves) as Hm
    by (apply (bool_decide_unpack _); vm_compute; exact I).
  assert (NoDup (first_moves.*1)) as Hnd
    by (apply (bool_decide_unpack _); vm_compute; exact I).
  assert (board_ok solved_board) as Hok
    by (apply (bool_decide_unpack _); vm_compute; exact I).
  assert (complete solved_board) as Hcomp
    by (apply goal_complete; [exact Hok|reflexivity]).
  assert (consistent solved_board) as Hcons.
  { apply consistent_check; [apply Hok|].
    apply (bool_decide_unpack _). vm_compute. exact I. }
  assert (∀ r c v, (r, c, v) ∈ first_moves →
            get_cell solved_board r c = Ok (Fixed v)) as Hs.
  { assert (Forall (λ m, get_cell solved_board m.1.1 m.1.2 = Ok (Fixed m.2))
              first_moves) as Hall by (repeat constructor).
    rewrite Forall_forall in Hall. intros r c v Hin. apply (Hall _ Hin). }
  split; [exact Hm|]. split; [exact Hnd|]. split; [exact Hcomp|].
  split; [exact Hcons|]. split; [exact Hs|].
  apply (test_dfs_solves [] first_moves solved_board Hm Hnd Hcomp Hcons Hs).
Defined.

(** ** Negative coordinates *)

Lemma index_of_wrap len i :
  - Z.of_nat len ≤ i < 0 → index_of len i = index_of len (i + Z.of_nat len).
Proof.
  intros Hi. unfold index_of. rewrite decide_False by lia.
  rewrite decide_True by lia. rewrite (decide_True (P := 0 ≤ _ < _)) by lia.
  f_equal. lia.
Qed.

Lemma getitem_wrap {A} (l : list A) i :
  - Z.of_nat (length l) ≤ i < 0 → getitem l i = getitem l (i + Z.of_nat (length l)).
Proof. intros Hi. unfold getitem. by rewrite index_of_wrap. Qed.

Lemma setitem_wrap {A} (l : list A) i x :
  - Z.of_nat (length l) ≤ i < 0 →
  setitem l i x = setitem l (i + Z.of_nat (length l)) x.
Proof. intros Hi. unfold setitem. by rewrite index_of_wrap. Qed.

Lemma grid9_getitem b i rw : grid9 b → getitem (rows b) i = Ok rw → length rw = 9%nat.
Proof.
  intros (_ & _ & Hrows) Hrw%getitem_elem_of. rewrite Forall_forall in Hrows. auto.
Qed.

Lemma remove_at_grid9 b i j v b' : grid9 b → remove_at i j v b = Ok b' → grid9 b'.
Proof.
  intros Hb. pose proof Hb as (Hs & Hlen & Hrows). unfold remove_at.
  intros (rw & Hrw & (c & Hc & (rw' & Hrw' & (rows' & Hrows' & [= <-])%bind_Ok_inv
                                )%bind_Ok_inv)%bind_Ok_inv)%bind_Ok_inv.
  pose proof (grid9_getitem _ _ _ Hb Hrw) as Hlrw.
  unfold setitem in Hrw', Hrows'.
  destruct (index_of (length rw) j) as [kj|]; [|done]. injection Hrw' as <-.
  destruct (index_of (length (rows b)) i) as [ki|]; [|done]. injection Hrows' as <-.
  split_and!; simpl; [done|by rewrite length_insert|].
  apply Forall_insert; [done|]. by rewrite length_insert.
Qed.

Lemma remove_at_wrap_row b i j v :
  grid9 b → -9 ≤ i < 0 → remove_at i j v b = remove_at (i + 9) j v b.
Proof.
  intros (_ & Hlen & _) Hi. unfold remove_at.
  rewrite (getitem_wrap (rows b) i) by (rewrite Hlen; lia).
  rewrite Hlen. change (Z.of_nat 9) with 9.
  destruct (getitem (rows b) (i + 9)) as [rw|]; simpl; [|done].
  destruct (getitem rw j) as [c|]; simpl; [|done].
  destruct (setitem rw j (remove_if_exists c v)) as [rw'|]; simpl; [|done].
  rewrite (setitem_wrap (rows b) i) by (rewrite Hlen; lia).
  by rewrite Hlen.
Qed.

Lemma remove_at_wrap_col b i j v :
  grid9 b → -9 ≤ j < 0 → remove_at i j v b = remove_at i (j + 9) v b.
Proof.
  intros Hb Hj. unfold remove_at.
  destruct (getitem (rows b) i) as [rw|] eqn:Hrw; simpl; [|done].
  pose proof (grid9_getitem _ _ _ Hb Hrw) as Hlen.
  rewrite (getitem_wrap rw j) by (rewrite Hlen; lia).
  rewrite Hlen. change (Z.of_nat 9) with 9.
  destruct (getitem rw (j + 9)) as [c|]; simpl; [|done].
  rewrite (setitem_wrap rw j) by (rewrite Hlen; lia).
  by rewrite Hlen.
Qed.

Lemma for_each_ext_inv {A S} (I : S → Prop) (xs : list A) (f g : A → S → result S) s :
  (∀ x s, I s → f x s = g x s) → (∀ x s s', I s → g x s = Ok s' → I s') → I s →
  for_each xs f s = for_each xs g s.
Proof.
  intros Hfg Hinv. revert s. induction xs as [|x xs IH]; intros s Hs; simpl; [done|].
  rewrite Hfg by done. destruct (g x s) as [s'|e] eqn:Hg; simpl; [|done].
  apply IH. by eapply Hinv.
Qed.

Lemma update_line_grid9 r c v i b b' :
  grid9 b → (b1 ← remove_at r i v b; remove_at i c v b1) = Ok b' → grid9 b'.
Proof.
  intros Hb (b1 & H1 & H2)%bind_Ok_inv.
  eapply remove_at_grid9; [|exact H2]. by eapply remove_at_grid9.
Qed.

Lemma subgrid_coordinates_wrap_row row col :
  -9 ≤ row < 0 → subgrid_coordinates row col = subgrid_coordinates (row + 9) col.
Proof.
  intros Hrow. unfold subgrid_coordinates.
  replace ((row + 9) / 3) with (row / 3 + 3)
    by (rewrite <-(Z.div_add row 3 3); [f_equal; lia|lia]).
  by rewrite (subgrids_getitem_wrap (row / 3)) by (apply div3_bounds; lia).
Qed.

Lemma subgrid_coordinates_wrap_col row col :
  -9 ≤ col < 0 → subgrid_coordinates row col = subgrid_coordinates row (col + 9).
Proof.
  intros Hcol. unfold subgrid_coordinates.
  replace ((col + 9) / 3) with (col / 3 + 3)
    by (rewrite <-(Z.div_add col 3 3); [f_equal; lia|lia]).
  by rewrite (subgrids_getitem_wrap (col / 3)) by (apply div3_bounds; lia).
Qed.

(** X23.  [update] takes a negative row or column down to -9 as Python
    subscripts do: on a 9x9 board the call with row -k does what the
    call with row 9-k does, to the cell, to its row, its column and its
    subgrid, and likewise for the column. *)
Theorem update_negative b r c v :
  grid9 b →
  (-9 ≤ r < 0 → update b r c v = update b (r + 9) c v) ∧
  (-9 ≤ c < 0 → update b r c v = update b r (c + 9) v).
Proof.
  intros Hb. pose proof Hb as (Hs & Hlen & Hrows). split.
  - intros Hr. unfold update.
    rewrite (getitem_wrap (rows b) r) by (rewrite Hlen; lia).
    rewrite Hlen. change (Z.of_nat 9) with 9.
    destruct (getitem (rows b) (r + 9)) as [rw|] eqn:Hrw; simpl; [|done].
    pose proof (grid9_getitem _ _ _ Hb Hrw) as Hlrw.
    destruct (setitem rw c (Fixed v)) as [rw'|] eqn:Hrw'; simpl; [|done].
    rewrite (setitem_wrap (rows b) r) by (rewrite Hlen; lia).
    rewrite Hlen. change (Z.of_nat 9) with 9.
    destruct (setitem (rows b) (r + 9) rw') as [rows'|] eqn:Hrows'; simpl; [|done].
    assert (grid9 (mkBoard (size b) (num_nums_placed b + 1) rows')) as Hb1.
    { unfold setitem in Hrw', Hrows'.
      destruct (index_of (length rw) c) as [kc|]; [|done]. injection Hrw' as <-.
      destruct (index_of (length (rows b)) (r + 9)) as [kr|]; [|done].
      injection Hrows' as <-.
      split_and!; simpl; [done|by rewrite length_insert|].
      apply Forall_insert; [done|]. by rewrite length_insert. }
    rewrite (for_each_ext_inv grid9 _ _
               (λ i b, b' ← remove_at (r + 9) i v b; remove_at i c v b'));
      [|intros i s Hs'; by rewrite remove_at_wrap_row
       |intros i s s' Hs'; by apply update_line_grid9|done].
    by rewrite subgrid_coordinates_wrap_row.
  - intros Hc. unfold update.
    destruct (getitem (rows b) r) as [rw|] eqn:Hrw; simpl; [|done].
    pose proof (grid9_getitem _ _ _ Hb Hrw) as Hlrw.
    rewrite (setitem_wrap rw c) by (rewrite Hlrw; lia).
    rewrite Hlrw. change (Z.of_nat 9) with 9.
    destruct (setitem rw (c + 9) (Fixed v)) as [rw'|] eqn:Hrw'; simpl; [|done].
    destruct (setitem (rows b) r rw') as [rows'|] eqn:Hrows'; simpl; [|done].
    assert (grid9 (mkBoard (size b) (num_nums_placed b + 1) rows')) as Hb1.
    { unfold setitem in Hrw', Hrows'.
      destruct (index_of (length rw) (c + 9)) as [kc|]; [|done]. injection Hrw' as <-.
      destruct (index_of (length (rows b)) r) as [kr|]; [|done].
      injection Hrows' as <-.
      split_and!; simpl; [done|by rewrite length_insert|].
      apply Forall_insert; [done|]. by rewrite length_insert. }
    rewrite (for_each_ext_inv grid9 _ _
               (λ i b, b' ← remove_at r i v b; remove_at i (c + 9) v b'));
      [|
       |intros i s s' Hs'; by apply update_line_grid9|done].
    + by rewrite subgrid_coordinates_wrap_col.
    + intros i s Hs'. destruct (remove_at r i v s) as [s1|] eqn:H1; simpl; [|done].
      apply remove_at_wrap_col; [|done]. by eapply remove_at_grid9.
Qed.

Lemma update_negative_witness :
  grid9 Board_init ∧
  (-9 ≤ -1 < 0 → update Board_init (-1) (-2) 5 = update Board_init (-1 + 9) (-2) 5) ∧
  (-9 ≤ -2 < 0 → update Board_init (-1) (-2) 5 = update Board_init (-1) (-2 + 9) 5).
Proof.
  assert (grid9 Board_init) as Hg by (apply (bool_decide_unpack _); vm_compute; exact I).
  split; [exact Hg|]. apply (update_negative Board_init (-1) (-2) 5 Hg).
Defined.
